(** * ofx2json: a shallow embedding of [main.go] and its verified properties

    The program reads an OFX bank statement as a stream of raw XML tokens and
    assembles an [Ofx] record.  This file embeds, from [main.go]:
    - [Decimal] with [Float64], [String], [SetString], [NewDecial] and
      [NewDecialFromFloat64] (lines 16-45),
    - the records [OfxTransaction] and [Ofx] with their [String] methods
      (lines 47-88),
    - the pending-field marker [nextKey] (lines 90-108),
    - the token loop [Parse] (lines 110-255),
    - [main] (lines 257-274), on the tokens of the standard input and for
      any [json.Marshal].

    The Go library functions the program calls ([strings.TrimSpace],
    [time.Parse], [Time.Format], [strconv.ParseFloat], float64 arithmetic
    and conversions, the verbs of [fmt.Sprintf], [utf8.RuneCountInString])
    are modelled from their documented behaviour in the modules
    [GoStrings], [GoTime], [Float64], [GoStrconv], [GoUtf8], [GoFmt] and
    [GoTimeFormat].
    Go strings are byte strings: a Rocq [string] is a list of 8-bit [ascii],
    and [String.length] is Go's [len]. *)

From Stdlib Require Import ZArith Lia Bool String Ascii List.
From Stdlib Require Import Floats.SpecFloat.
From stdpp Require Import base list.
Import ListNotations.

Local Open Scope string_scope.
Local Open Scope Z_scope.

(** ** Bytes *)

Definition byte_of (c : ascii) : Z := Z.of_N (N_of_ascii c).

Definition chr (n : Z) : ascii := ascii_of_N (Z.to_N n).

Fixpoint bytes (l : list Z) : string :=
  match l with
  | [] => EmptyString
  | b :: l' => String (chr b) (bytes l')
  end.

Fixpoint string_rev_onto (s acc : string) : string :=
  match s with
  | EmptyString => acc
  | String c s' => string_rev_onto s' (String c acc)
  end.

Definition string_rev (s : string) : string := string_rev_onto s EmptyString.

(** [isDigit c]: the byte is an ASCII decimal digit. *)
Definition isDigit (c : ascii) : bool :=
  (48 <=? byte_of c) && (byte_of c <=? 57).

Definition digit_val (c : ascii) : Z := byte_of c - 48.

(** ** strings.TrimSpace *)

Module GoStrings.

(** The six ASCII bytes of Go's [asciiSpace] table. *)
Definition asciiSpace (c : ascii) : bool :=
  let b := byte_of c in
  (b =? 9) || (b =? 10) || (b =? 11) || (b =? 12) || (b =? 13) || (b =? 32).

(** UTF-8 encodings of the code points of [unicode.IsSpace] above U+007F:
    U+0085, U+00A0, U+1680, U+2000..U+200A, U+2028, U+2029, U+202F, U+205F,
    U+3000. *)
Definition unicode_spaces : list (list Z) :=
  [ [194; 133]; [194; 160]; [225; 154; 128];
    [226; 128; 128]; [226; 128; 129]; [226; 128; 130]; [226; 128; 131];
    [226; 128; 132]; [226; 128; 133]; [226; 128; 134]; [226; 128; 135];
    [226; 128; 136]; [226; 128; 137]; [226; 128; 138];
    [226; 128; 168]; [226; 128; 169]; [226; 128; 175];
    [226; 129; 159]; [227; 128; 128] ].

(** Number of bytes of the white-space rune [s] starts with (0: none). *)
Definition leading_space (encs : list string) (s : string) : nat :=
  match s with
  | EmptyString => O
  | String c _ =>
      if asciiSpace c then 1%nat
      else match List.find (fun p => String.prefix p s) encs with
           | Some p => String.length p
           | None => O
           end
  end.

(** Strip white-space runes from the front; [skip] counts the bytes of the
    current rune still to drop. *)
Fixpoint trim_left (encs : list string) (skip : nat) (s : string) : string :=
  match skip with
  | S k => match s with
           | String _ s' => trim_left encs k s'
           | EmptyString => EmptyString
           end
  | O => match leading_space encs s with
         | O => s
         | S k => match s with
                  | String _ s' => trim_left encs k s'
                  | EmptyString => EmptyString
                  end
         end
  end.

Definition TrimLeftSpace (s : string) : string :=
  trim_left (List.map bytes unicode_spaces) O s.

Definition TrimRightSpace (s : string) : string :=
  string_rev
    (trim_left (List.map (fun l => string_rev (bytes l)) unicode_spaces) O
       (string_rev s)).

Definition TrimSpace (s : string) : string := TrimRightSpace (TrimLeftSpace s).

End GoStrings.

(** ** time.Parse with the layout "20060102" *)

Module GoTime.

(** A [time.Time] as this program produces it: a calendar date at midnight
    UTC.  The zero value of [time.Time] is January 1, year 1. *)
Record Time := { year : Z; month : Z; day : Z }.

Definition zero : Time := {| year := 1; month := 1; day := 1 |}.

Definition isLeap (y : Z) : bool :=
  (y mod 4 =? 0) && (negb (y mod 100 =? 0) || (y mod 400 =? 0)).

Definition daysIn (m y : Z) : Z :=
  if (m =? 2) && isLeap y then 29
  else if m =? 2 then 28
  else if (m =? 4) || (m =? 6) || (m =? 9) || (m =? 11) then 30
  else 31.

(** [getnum s true]: exactly two leading digits. *)
Definition getnum2 (s : string) : option (Z * string) :=
  match s with
  | String a (String b rest) =>
      if isDigit a && isDigit b
      then Some (digit_val a * 10 + digit_val b, rest)
      else None
  | _ => None
  end.

(** The [stdLongYear] chunk: four bytes, all digits. *)
Definition getyear (s : string) : option (Z * string) :=
  match s with
  | String a (String b (String c (String d rest))) =>
      if isDigit a && isDigit b && isDigit c && isDigit d
      then Some (((digit_val a * 10 + digit_val b) * 10 + digit_val c) * 10
                 + digit_val d, rest)
      else None
  | _ => None
  end.

(** [time.Parse("20060102", value)]: [None] stands for the [*time.ParseError]
    (bad digits, month or day out of range, extra text). *)
Definition Parse_20060102 (value : string) : option Time :=
  match getyear value with
  | None => None
  | Some (y, v1) =>
      match getnum2 v1 with
      | None => None
      | Some (m, v2) =>
          if (m <=? 0) || (12 <? m) then None
          else match getnum2 v2 with
               | None => None
               | Some (d, v3) =>
                   match v3 with
                   | String _ _ => None
                   | EmptyString =>
                       if (d <? 1) || (daysIn m y <? d) then None
                       else Some {| year := y; month := m; day := d |}
                   end
               end
      end
  end.

End GoTime.

(** ** IEEE 754 binary64, Go's [float64] *)

(** Every operation is the exact result rounded once to the nearest binary64
    value, ties to even, written out on integers.  The examples
    [mul_agrees_with_SFmul] and [div_agrees_with_SFdiv] below compare it with
    the operations of the Standard Library's [SpecFloat]. *)

Module Float64.

(** A [float64] is a [spec_float] of the Standard Library in canonical form:
    a normal number has a 53-bit mantissa and an exponent in -1074..971, a
    subnormal one has exponent -1074. *)
Definition float64 := spec_float.

Definition prec : Z := 53.
Definition emax : Z := 1024.

(** The positive rational [n/d] as [N/D] scaled by [2^-e]. *)
Definition scaled (n d e : Z) : Z * Z :=
  if 0 <=? e then (n, d * 2 ^ e) else (n * 2 ^ (- e), d).

(** The exponent of the binary64 number nearest to [n/d] (before a carry):
    the mantissa [n/d * 2^-e] lies in [2^52, 2^53), or [e] is -1074. *)
Definition round_exp (n d : Z) : Z :=
  let e1 := Z.log2 n - Z.log2 d - 52 in
  let '(N, D) := scaled n d e1 in
  Z.max (if N <? D * 2 ^ 52 then e1 - 1 else e1) (-1074).

(** Nearest integer to [N/D], ties to even. *)
Definition div_nearest_even (N D : Z) : Z :=
  let q := N / D in
  match 2 * (N mod D) ?= D with
  | Lt => q
  | Gt => q + 1
  | Eq => if Z.even q then q else q + 1
  end.

(** [round_pos n d]: mantissa and exponent of the binary64 number nearest to
    the positive rational [n/d], ties to even; overflow is left to
    [of_rounded]. *)
Definition round_pos (n d : Z) : Z * Z :=
  let e := round_exp n d in
  let '(N, D) := scaled n d e in
  let m := div_nearest_even N D in
  if m =? 2 ^ 53 then (2 ^ 52, e + 1) else (m, e).

Definition of_rounded (s : bool) (me : Z * Z) : float64 :=
  match fst me with
  | Zpos p => if 971 <? snd me then S754_infinity s else S754_finite s p (snd me)
  | _ => S754_zero s
  end.

(** The binary64 value of sign [s] nearest to [n/d] ([n >= 0], [d > 0]). *)
Definition round_ne (s : bool) (n d : Z) : float64 :=
  if n =? 0 then S754_zero s else of_rounded s (round_pos n d).

(** The binary64 value nearest to [m * 2^e / d]. *)
Definition round_scaled (s : bool) (m e d : Z) : float64 :=
  let '(N, D) := scaled m d (- e) in round_ne s N D.

(** Multiplication: the exact product, rounded once. *)
Definition mul (x y : float64) : float64 :=
  match x, y with
  | S754_nan, _ | _, S754_nan => S754_nan
  | S754_infinity _, S754_zero _ | S754_zero _, S754_infinity _ => S754_nan
  | S754_infinity sx, S754_infinity sy
  | S754_infinity sx, S754_finite sy _ _
  | S754_finite sx _ _, S754_infinity sy => S754_infinity (xorb sx sy)
  | S754_zero sx, S754_zero sy
  | S754_zero sx, S754_finite sy _ _
  | S754_finite sx _ _, S754_zero sy => S754_zero (xorb sx sy)
  | S754_finite sx mx ex, S754_finite sy my ey =>
      round_scaled (xorb sx sy) (Zpos mx * Zpos my) (ex + ey) 1
  end.

(** Division: the exact quotient, rounded once. *)
Definition div (x y : float64) : float64 :=
  match x, y with
  | S754_nan, _ | _, S754_nan => S754_nan
  | S754_infinity _, S754_infinity _ | S754_zero _, S754_zero _ => S754_nan
  | S754_infinity sx, S754_zero sy
  | S754_infinity sx, S754_finite sy _ _
  | S754_finite sx _ _, S754_zero sy => S754_infinity (xorb sx sy)
  | S754_zero sx, S754_infinity sy
  | S754_zero sx, S754_finite sy _ _
  | S754_finite sx _ _, S754_infinity sy => S754_zero (xorb sx sy)
  | S754_finite sx mx ex, S754_finite sy my ey =>
      round_scaled (xorb sx sy) (Zpos mx) (ex - ey) (Zpos my)
  end.

(** [float64(i)] for an integer [i]: the nearest binary64 value. *)
Definition of_int (i : Z) : float64 := round_ne (i <? 0) (Z.abs i) 1.

(** The constant [100] of [x * 100] and [x / 100]. *)
Definition hundred : float64 := of_int 100.

(** What [int64(x)] yields when [x] is NaN, infinite or outside the int64
    range.  The Go specification leaves it to the implementation; this is
    the value on amd64.  No theorem below depends on it. *)
Definition int64_indefinite : Z := - 2 ^ 63.

(** [int64(x)]: truncation toward zero. *)
Definition to_int64 (x : float64) : Z :=
  match x with
  | S754_zero _ => 0
  | S754_finite s m e =>
      let a := if 0 <=? e then Zpos m * 2 ^ e else Zpos m / 2 ^ (- e) in
      let i := if s then - a else a in
      if (- 2 ^ 63 <=? i) && (i <? 2 ^ 63) then i else int64_indefinite
  | _ => int64_indefinite
  end.

End Float64.

(** ** strconv.ParseFloat (s, 64) *)

(** The grammar is that of Go 1.13 and later: decimal and hexadecimal
    floating-point numbers with optional underscores between digits, and the
    words "inf", "infinity" and "nan".  The value is the binary64 number
    nearest to the exact value written, ties to even. *)

Module GoStrconv.
Import Float64.

Inductive NumError := ErrSyntax | ErrRange.

(** Go's [lower(c)]: [c | ('x' - 'X')]. *)
Definition lower (c : ascii) : Z := Z.lor (byte_of c) 32.

Definition fold_AZ (c : ascii) : ascii :=
  if (65 <=? byte_of c) && (byte_of c <=? 90) then chr (byte_of c + 32) else c.

Fixpoint fold_case (s : string) : string :=
  match s with
  | EmptyString => EmptyString
  | String c s' => String (fold_AZ c) (fold_case s')
  end.

Definition is_inf_word (s : string) : bool :=
  String.eqb (fold_case s) "inf" || String.eqb (fold_case s) "infinity".

(** [special]: the whole string is "nan", or an optionally signed "inf" or
    "infinity", in any case. *)
Definition special (s : string) : option float64 :=
  match s with
  | EmptyString => None
  | String c rest =>
      if (byte_of c =? 43) || (byte_of c =? 45) then
        if is_inf_word rest then Some (S754_infinity (byte_of c =? 45)) else None
      else if is_inf_word s then Some (S754_infinity false)
      else if String.eqb (fold_case s) "nan" then Some S754_nan
      else None
  end.

(** The mantissa loop of [readFloat]: the digits read so far as an integer,
    how many of them follow the point, and the flags of the loop. *)
Record mantissa := {
  m_val : Z;
  m_frac : Z;
  m_sawdot : bool;
  m_sawdigits : bool;
  m_underscores : bool
}.

Definition add_digit (base : Z) (st : mantissa) (d : Z) : mantissa :=
  {| m_val := m_val st * base + d;
     m_frac := if m_sawdot st then m_frac st + 1 else m_frac st;
     m_sawdot := m_sawdot st;
     m_sawdigits := true;
     m_underscores := m_underscores st |}.

Fixpoint scan_mantissa (base : Z) (st : mantissa) (s : string)
  : mantissa * string :=
  match s with
  | EmptyString => (st, s)
  | String c s' =>
      if byte_of c =? 95 then
        scan_mantissa base
          {| m_val := m_val st; m_frac := m_frac st; m_sawdot := m_sawdot st;
             m_sawdigits := m_sawdigits st; m_underscores := true |} s'
      else if byte_of c =? 46 then
        if m_sawdot st then (st, s)
        else scan_mantissa base
               {| m_val := m_val st; m_frac := m_frac st; m_sawdot := true;
                  m_sawdigits := m_sawdigits st;
                  m_underscores := m_underscores st |} s'
      else if isDigit c then scan_mantissa base (add_digit base st (digit_val c)) s'
      else if (base =? 16) && (97 <=? lower c) && (lower c <=? 102) then
        scan_mantissa base (add_digit base st (lower c - 97 + 10)) s'
      else (st, s)
  end.

(** The exponent digits; the accumulated value stops growing at 10000. *)
Fixpoint scan_exp (e : Z) (us : bool) (s : string) : Z * bool * string :=
  match s with
  | EmptyString => (e, us, s)
  | String c s' =>
      if isDigit c then
        scan_exp (if e <? 10000 then e * 10 + digit_val c else e) us s'
      else if byte_of c =? 95 then scan_exp e true s'
      else (e, us, s)
  end.

(** [underscoreOK]: every underscore separates two digits (a base prefix
    counts as a digit).  [saw] is 0 at the start, 1 after a digit, 2 after an
    underscore, 3 after anything else. *)
Fixpoint underscore_loop (hex : bool) (saw : Z) (s : string) : bool :=
  match s with
  | EmptyString => negb (saw =? 2)
  | String c s' =>
      if isDigit c || (hex && (97 <=? lower c) && (lower c <=? 102)) then
        underscore_loop hex 1 s'
      else if byte_of c =? 95 then
        if saw =? 1 then underscore_loop hex 2 s' else false
      else if saw =? 2 then false
      else underscore_loop hex 3 s'
  end.

Definition underscoreOK (s : string) : bool :=
  let s1 := match s with
            | String c r => if (byte_of c =? 43) || (byte_of c =? 45) then r else s
            | EmptyString => s
            end in
  match s1 with
  | String z (String x r) =>
      if (byte_of z =? 48)
         && ((lower x =? 98) || (lower x =? 111) || (lower x =? 120))
      then underscore_loop (lower x =? 120) 1 r
      else underscore_loop false 0 s1
  | _ => underscore_loop false 0 s1
  end.

(** A number as [readFloat] reads it: [r_mant * 10 ^ r_exp], or
    [r_mant * 2 ^ r_exp] for a hexadecimal one. *)
Record number := { r_neg : bool; r_hex : bool; r_mant : Z; r_exp : Z }.

(** The optional sign. *)
Definition read_sign (s : string) : bool * string :=
  match s with
  | String c r => if byte_of c =? 43 then (false, r)
                  else if byte_of c =? 45 then (true, r)
                  else (false, s)
  | EmptyString => (false, s)
  end.

(** The base prefix: "0x" or "0X" with at least one more byte. *)
Definition read_prefix (s : string) : bool * string :=
  match s with
  | String z (String x (String c r)) =>
      if (byte_of z =? 48) && (lower x =? 120) then (true, String c r)
      else (false, s)
  | _ => (false, s)
  end.

Definition mantissa0 : mantissa :=
  {| m_val := 0; m_frac := 0; m_sawdot := false; m_sawdigits := false;
     m_underscores := false |}.

(** The end of [readFloat], [rest] being what was not read: the whole of
    [s] must have been read, and its underscores must be well placed. *)
Definition read_finish (s : string) (neg hex : bool) (st : mantissa)
    (e : Z) (us : bool) (rest : string) : option number :=
  match rest with
  | String _ _ => None
  | EmptyString =>
      if us && negb (underscoreOK s) then None
      else Some {| r_neg := neg; r_hex := hex; r_mant := m_val st;
                   r_exp := (if hex then -4 * m_frac st else - m_frac st) + e |}
  end.

(** The optional exponent, after the mantissa [st]; a hexadecimal mantissa
    must have one. *)
Definition read_exponent (s : string) (neg hex : bool) (st : mantissa)
    (s3 : string) : option number :=
  match s3 with
  | EmptyString =>
      if hex then None else read_finish s neg hex st 0 (m_underscores st) s3
  | String c s4 =>
      if lower c =? (if hex then 112 else 101) then
        match s4 with
        | EmptyString => None
        | String c2 s5 =>
            let '(esign, s6) :=
              if byte_of c2 =? 43 then (1, s5)
              else if byte_of c2 =? 45 then (-1, s5)
              else (1, s4) in
            match s6 with
            | EmptyString => None
            | String d _ =>
                if isDigit d then
                  let '(e, us, s7) := scan_exp 0 (m_underscores st) s6 in
                  read_finish s neg hex st (e * esign) us s7
                else None
            end
        end
      else None
  end.

(** [readFloat] on the whole of [s]: [None] when [s] is not a well-formed
    decimal or hexadecimal floating-point number. *)
Definition readFloat (s : string) : option number :=
  let '(neg, s1) := read_sign s in
  let '(hex, s2) := read_prefix s1 in
  let '(st, s3) := scan_mantissa (if hex then 16 else 10) mantissa0 s2 in
  if negb (m_sawdigits st) then None
  else read_exponent s neg hex st s3.

(** The binary64 value nearest to the number read. *)
Definition number_value (n : number) : float64 :=
  if r_hex n then round_scaled (r_neg n) (r_mant n) (r_exp n) 1
  else if 0 <=? r_exp n then round_ne (r_neg n) (r_mant n * 10 ^ r_exp n) 1
  else round_ne (r_neg n) (r_mant n) (10 ^ (- r_exp n)).

(** [strconv.ParseFloat(s, 64)]: the value and the error.  A syntax error
    comes with the value 0, a range error with an infinity. *)
Definition ParseFloat (s : string) : float64 * option NumError :=
  match special s with
  | Some f => (f, None)
  | None =>
      match readFloat s with
      | None => (S754_zero false, Some ErrSyntax)
      | Some n =>
          match number_value n with
          | S754_infinity sg => (S754_infinity sg, Some ErrRange)
          | f => (f, None)
          end
      end
  end.

End GoStrconv.

(** ** utf8.RuneCountInString *)

Module GoUtf8.

Definition in_range (lo hi : Z) (c : ascii) : bool :=
  (lo <=? byte_of c) && (byte_of c <=? hi).

(** The tables [first] and [acceptRanges] for a byte above the ASCII range:
    the size of the encoding the byte announces and the range its second
    byte must lie in; [None] for a byte that starts no encoding (0x80..0xC1
    and 0xF5..0xFF). *)
Definition first (c : ascii) : option (nat * Z * Z) :=
  let b := byte_of c in
  if b <? 194 then None
  else if b <=? 223 then Some (2%nat, 128, 191)
  else if b =? 224 then Some (3%nat, 160, 191)
  else if b <=? 236 then Some (3%nat, 128, 191)
  else if b =? 237 then Some (3%nat, 128, 159)
  else if b <=? 239 then Some (3%nat, 128, 191)
  else if b =? 240 then Some (4%nat, 144, 191)
  else if b <=? 243 then Some (4%nat, 128, 191)
  else if b =? 244 then Some (4%nat, 128, 143)
  else None.

(** The number of bytes the loop of [RuneCountInString] steps over at the
    front of [s]: 1 for an ASCII byte, for a byte that starts no encoding
    and for an encoding that is cut short or invalid, and the size of the
    encoding otherwise. *)
Definition rune_size (s : string) : nat :=
  match s with
  | EmptyString => O
  | String c rest =>
      if byte_of c <? 128 then 1%nat
      else
        match first c with
        | None => 1%nat
        | Some (size, lo, hi) =>
            if (String.length s <? size)%nat then 1%nat
            else
              match rest with
              | String c1 rest1 =>
                  if negb (in_range lo hi c1) then 1%nat
                  else if (size =? 2)%nat then 2%nat
                  else
                    match rest1 with
                    | String c2 rest2 =>
                        if negb (in_range 128 191 c2) then 1%nat
                        else if (size =? 3)%nat then 3%nat
                        else
                          match rest2 with
                          | String c3 _ =>
                              if negb (in_range 128 191 c3) then 1%nat else 4%nat
                          | EmptyString => 1%nat
                          end
                    | EmptyString => 1%nat
                    end
              | EmptyString => 1%nat
              end
        end
  end.

(** The loop [for i := 0; i < ns; n++]; [skip] counts the bytes of the
    current rune still to step over. *)
Fixpoint count_from (skip : nat) (s : string) : nat :=
  match s with
  | EmptyString => O
  | String _ s' =>
      match skip with
      | S k => count_from k s'
      | O => S (count_from (Nat.pred (rune_size s)) s')
      end
  end.

Definition RuneCountInString (s : string) : nat := count_from O s.

End GoUtf8.

(** ** fmt.Sprintf("%.2f", x) *)

Module GoFmt.
Import Float64.

Definition digit_char (d : Z) : ascii := chr (48 + d).

Fixpoint digits_onto (fuel : nat) (n : Z) (acc : string) : string :=
  match fuel with
  | O => acc
  | S f =>
      let acc' := String (digit_char (n mod 10)) acc in
      if n <? 10 then acc' else digits_onto f (n / 10) acc'
  end.

(** The decimal digits of [n >= 0]. *)
Definition itoa (n : Z) : string :=
  digits_onto (S (Z.to_nat (Z.log2 n))) n EmptyString.

(** A count of hundredths printed with two fractional digits. *)
Definition cents_string (neg : bool) (c : Z) : string :=
  ((if neg then "-" else "") ++ itoa (c / 100) ++ "."
   ++ String (digit_char (c / 10 mod 10)) (String (digit_char (c mod 10)) ""))%string.

(** [fmt.Sprintf("%.2f", x)]: the exact value of [x] rounded to two
    fractional digits, ties to even. *)
Definition Sprintf_2f (x : float64) : string :=
  match x with
  | S754_nan => "NaN"
  | S754_infinity s => if s then "-Inf" else "+Inf"
  | S754_zero s => cents_string s 0
  | S754_finite s m e =>
      let '(N, D) := scaled (Zpos m * 100) 1 (- e) in
      cents_string s (div_nearest_even N D)
  end.

Fixpoint spaces (n : nat) : string :=
  match n with
  | O => EmptyString
  | S k => String " " (spaces k)
  end.

(** The verb [%Ns] on a string, as in [%8s]: padded with spaces on the left
    up to [wid] runes ([padString]; no padding when the string has [wid]
    runes or more). *)
Definition pad_left (wid : nat) (s : string) : string :=
  (spaces (wid - GoUtf8.RuneCountInString s) ++ s)%string.

(** The verb [%-Ns], as in [%-15s]: padded on the right. *)
Definition pad_right (wid : nat) (s : string) : string :=
  (s ++ spaces (wid - GoUtf8.RuneCountInString s))%string.

(** The line feed of a format string. *)
Definition newline : string := String (chr 10) EmptyString.

End GoFmt.

(** ** Time.Format and Time.String *)

Module GoTimeFormat.

Fixpoint zeros (n : nat) : string :=
  match n with
  | O => EmptyString
  | S k => String "0" (zeros k)
  end.

(** [appendInt(b, x, width)]: a minus sign for a negative [x], then the
    decimal digits, padded with zeros up to [width] digits. *)
Definition appendInt (x : Z) (width : nat) : string :=
  let ds := GoFmt.itoa (Z.abs x) in
  ((if Z.ltb x 0 then "-" else "") ++ zeros (width - String.length ds) ++ ds)%string.

(** [t.Format("2006/01/02")]: the chunks [stdLongYear], [stdZeroMonth] and
    [stdZeroDay] with the literal text between them. *)
Definition Format_2006_01_02 (t : GoTime.Time) : string :=
  (appendInt (GoTime.year t) 4 ++ "/" ++ appendInt (GoTime.month t) 2
   ++ "/" ++ appendInt (GoTime.day t) 2)%string.

(** [t.String()], which the verb [%s] calls: the layout
    "2006-01-02 15:04:05.999999999 -0700 MST" for a date at midnight UTC
    (no fractional seconds are printed when they are zero). *)
Definition Time_String (t : GoTime.Time) : string :=
  (appendInt (GoTime.year t) 4 ++ "-" ++ appendInt (GoTime.month t) 2
   ++ "-" ++ appendInt (GoTime.day t) 2 ++ " 00:00:00 +0000 UTC")%string.

End GoTimeFormat.

(** ** The program: [main.go] *)

Import GoTime.

(** [type Decimal int64]: a count of hundredths. *)
Definition Decimal := Z.

(** [func NewDecial(s string) Decimal] (lines 36-40). *)
Definition NewDecial (s : string) : Decimal :=
  let x := fst (GoStrconv.ParseFloat s) in
  let x := Float64.mul x Float64.hundred in
  Float64.to_int64 x.

(** [func (d Decimal) String() string] (lines 24-28). *)
Definition Decimal_String (d : Decimal) : string :=
  let x := Float64.of_int d in
  let x := Float64.div x Float64.hundred in
  GoFmt.Sprintf_2f x.

(** [func (d Decimal) Float64() float64] (lines 18-22). *)
Definition Decimal_Float64 (d : Decimal) : Float64.float64 :=
  let x := Float64.of_int d in
  let x := Float64.div x Float64.hundred in
  x.

(** [func (d Decimal) SetString(s string) Decimal] (lines 30-34); the
    receiver [d] is not read. *)
Definition Decimal_SetString (d : Decimal) (s : string) : Decimal :=
  let x := fst (GoStrconv.ParseFloat s) in
  let x := Float64.mul x Float64.hundred in
  Float64.to_int64 x.

(** [func NewDecialFromFloat64(f float64) Decimal] (lines 42-45). *)
Definition NewDecialFromFloat64 (f : Float64.float64) : Decimal :=
  let x := Float64.mul f Float64.hundred in
  Float64.to_int64 x.

(** [type OfxTransaction struct] (lines 47-54); the field [Type] is [Type_]
    here. *)
Record OfxTransaction := {
  FitID : string;
  Type_ : string;
  PostedDateTime : Time;
  UserDateTime : Time;
  Amount : Decimal;
  Memo : string
}.

(** [&OfxTransaction{}]: every field at its zero value. *)
Definition new_transaction : OfxTransaction :=
  {| FitID := ""; Type_ := ""; PostedDateTime := GoTime.zero;
     UserDateTime := GoTime.zero; Amount := 0; Memo := "" |}.

(** [type Ofx struct] (lines 62-74).  [Transactions] is a slice of pointers:
    an entry is [None] when a nil pointer was appended.  A transaction is
    appended only together with [trans = nil] (lines 231-232), so no appended
    entry is written through again and the entries are modelled as values. *)
Record Ofx := {
  GeneratedDateTime : Time;
  Language : string;
  AccountBankNumber : string;
  AccountNumber : string;
  AccountType : string;
  Currency : string;
  LedgerBalance : Decimal;
  AvailiableBalance : Decimal;
  TransactionStartDateTime : Time;
  TrnasactionEndDateTime : Time;
  Transactions : list (option OfxTransaction)
}.

(** [&Ofx{Transactions: []*OfxTransaction{}}] (line 111). *)
Definition new_ofx : Ofx :=
  {| GeneratedDateTime := GoTime.zero; Language := ""; AccountBankNumber := "";
     AccountNumber := ""; AccountType := ""; Currency := "";
     LedgerBalance := 0; AvailiableBalance := 0;
     TransactionStartDateTime := GoTime.zero;
     TrnasactionEndDateTime := GoTime.zero; Transactions := [] |}.

(** Field assignments, one per assignment statement of [Parse]. *)
Definition set_AccountNumber (v : string) (o : Ofx) : Ofx :=
  {| GeneratedDateTime := GeneratedDateTime o; Language := Language o;
     AccountBankNumber := AccountBankNumber o; AccountNumber := v;
     AccountType := AccountType o; Currency := Currency o;
     LedgerBalance := LedgerBalance o; AvailiableBalance := AvailiableBalance o;
     TransactionStartDateTime := TransactionStartDateTime o;
     TrnasactionEndDateTime := TrnasactionEndDateTime o;
     Transactions := Transactions o |}.

Definition set_AccountBankNumber (v : string) (o : Ofx) : Ofx :=
  {| GeneratedDateTime := GeneratedDateTime o; Language := Language o;
     AccountBankNumber := v; AccountNumber := AccountNumber o;
     AccountType := AccountType o; Currency := Currency o;
     LedgerBalance := LedgerBalance o; AvailiableBalance := AvailiableBalance o;
     TransactionStartDateTime := TransactionStartDateTime o;
     TrnasactionEndDateTime := TrnasactionEndDateTime o;
     Transactions := Transactions o |}.

Definition set_AccountType (v : string) (o : Ofx) : Ofx :=
  {| GeneratedDateTime := GeneratedDateTime o; Language := Language o;
     AccountBankNumber := AccountBankNumber o; AccountNumber := AccountNumber o;
     AccountType := v; Currency := Currency o;
     LedgerBalance := LedgerBalance o; AvailiableBalance := AvailiableBalance o;
     TransactionStartDateTime := TransactionStartDateTime o;
     TrnasactionEndDateTime := TrnasactionEndDateTime o;
     Transactions := Transactions o |}.

Definition set_Currency (v : string) (o : Ofx) : Ofx :=
  {| GeneratedDateTime := GeneratedDateTime o; Language := Language o;
     AccountBankNumber := AccountBankNumber o; AccountNumber := AccountNumber o;
     AccountType := AccountType o; Currency := v;
     LedgerBalance := LedgerBalance o; AvailiableBalance := AvailiableBalance o;
     TransactionStartDateTime := TransactionStartDateTime o;
     TrnasactionEndDateTime := TrnasactionEndDateTime o;
     Transactions := Transactions o |}.

Definition set_LedgerBalance (v : Decimal) (o : Ofx) : Ofx :=
  {| GeneratedDateTime := GeneratedDateTime o; Language := Language o;
     AccountBankNumber := AccountBankNumber o; AccountNumber := AccountNumber o;
     AccountType := AccountType o; Currency := Currency o;
     LedgerBalance := v; AvailiableBalance := AvailiableBalance o;
     TransactionStartDateTime := TransactionStartDateTime o;
     TrnasactionEndDateTime := TrnasactionEndDateTime o;
     Transactions := Transactions o |}.

Definition set_AvailiableBalance (v : Decimal) (o : Ofx) : Ofx :=
  {| GeneratedDateTime := GeneratedDateTime o; Language := Language o;
     AccountBankNumber := AccountBankNumber o; AccountNumber := AccountNumber o;
     AccountType := AccountType o; Currency := Currency o;
     LedgerBalance := LedgerBalance o; AvailiableBalance := v;
     TransactionStartDateTime := TransactionStartDateTime o;
     TrnasactionEndDateTime := TrnasactionEndDateTime o;
     Transactions := Transactions o |}.

(** [ofx.Transactions = append(ofx.Transactions, trans)] (line 231). *)
Definition append_transaction (t : option OfxTransaction) (o : Ofx) : Ofx :=
  {| GeneratedDateTime := GeneratedDateTime o; Language := Language o;
     AccountBankNumber := AccountBankNumber o; AccountNumber := AccountNumber o;
     AccountType := AccountType o; Currency := Currency o;
     LedgerBalance := LedgerBalance o; AvailiableBalance := AvailiableBalance o;
     TransactionStartDateTime := TransactionStartDateTime o;
     TrnasactionEndDateTime := TrnasactionEndDateTime o;
     Transactions := Transactions o ++ [t] |}.

Definition set_FitID (v : string) (t : OfxTransaction) : OfxTransaction :=
  {| FitID := v; Type_ := Type_ t; PostedDateTime := PostedDateTime t;
     UserDateTime := UserDateTime t; Amount := Amount t; Memo := Memo t |}.

Definition set_Type (v : string) (t : OfxTransaction) : OfxTransaction :=
  {| FitID := FitID t; Type_ := v; PostedDateTime := PostedDateTime t;
     UserDateTime := UserDateTime t; Amount := Amount t; Memo := Memo t |}.

Definition set_PostedDateTime (v : Time) (t : OfxTransaction) : OfxTransaction :=
  {| FitID := FitID t; Type_ := Type_ t; PostedDateTime := v;
     UserDateTime := UserDateTime t; Amount := Amount t; Memo := Memo t |}.

Definition set_Amount (v : Decimal) (t : OfxTransaction) : OfxTransaction :=
  {| FitID := FitID t; Type_ := Type_ t; PostedDateTime := PostedDateTime t;
     UserDateTime := UserDateTime t; Amount := v; Memo := Memo t |}.

Definition set_Memo (v : string) (t : OfxTransaction) : OfxTransaction :=
  {| FitID := FitID t; Type_ := Type_ t; PostedDateTime := PostedDateTime t;
     UserDateTime := UserDateTime t; Amount := Amount t; Memo := v |}.

(** [func (t OfxTransaction) String() string] (lines 56-60).  The column
    labelled "User:" prints [PostedDateTime]; [%8s] on the [Decimal] amount
    prints its [String()]. *)
Definition OfxTransaction_String (t : OfxTransaction) : string :=
  ("FitID:" ++ GoFmt.pad_right 15 (FitID t)
   ++ " Type:" ++ GoFmt.pad_right 10 (Type_ t)
   ++ " User:" ++ GoTimeFormat.Format_2006_01_02 (PostedDateTime t)
   ++ " Amount: $" ++ GoFmt.pad_left 8 (Decimal_String (Amount t))
   ++ " Memo:" ++ Memo t ++ GoFmt.newline)%string.

(** [fmt.Sprintf("%s", t)] for [t *OfxTransaction] (line 84): the [String]
    method of the transaction; for a nil pointer the call of the method
    panics inside [fmt], which recovers and prints "<nil>". *)
Definition Sprintf_transaction (t : option OfxTransaction) : string :=
  match t with
  | Some t => OfxTransaction_String t
  | None => "<nil>"
  end.

(** [func (o Ofx) String() string] (lines 76-88): [buf] is the buffer after
    each [buf.WriteString]. *)
Definition Ofx_String (o : Ofx) : string :=
  let buf := EmptyString in
  let buf :=
    (buf ++ ("Generated:" ++ GoTimeFormat.Time_String (GeneratedDateTime o)
             ++ " Lang:" ++ Language o
             ++ " AccountBankNumber:" ++ AccountBankNumber o
             ++ " AccountNumber:" ++ AccountNumber o
             ++ " AccountType:" ++ AccountType o ++ GoFmt.newline))%string in
  let buf :=
    (buf ++ ("Ledger: $" ++ Decimal_String (LedgerBalance o)
             ++ " Av: $" ++ Decimal_String (AvailiableBalance o)
             ++ " Start:" ++ GoTimeFormat.Time_String (TransactionStartDateTime o)
             ++ " End" ++ GoTimeFormat.Time_String (TrnasactionEndDateTime o)
             ++ GoFmt.newline))%string in
  fold_left (fun buf t => (buf ++ Sprintf_transaction t)%string)
    (Transactions o) buf.

(** [type nextKey int] with its constants (lines 90-108). *)
Inductive nextKey :=
  | none | acctID | acctType | curDef | branchID | bankID | transAmount
  | transDatePosted | transUserDate | transFitID | transDesc | transMemo
  | transType | legerBal | AvailBal.

(** The tokens [dec.RawToken()] yields.  [StartElement] and [EndElement]
    carry [Name.Local]; [OtherToken] is a comment, a processing instruction
    or a directive (the [default] case of the type switch). *)
Inductive Token :=
  | StartElement (name : string)
  | CharData (data : string)
  | EndElement (name : string)
  | OtherToken.

(** The two [return nil, err] statements of [Parse] (lines 204 and 209). *)
Inductive error :=
  | InvalidDatePosted (res : string)
  | TimeParseError (value : string).

(** Go's run-time panics: an index out of range, a nil pointer dereference. *)
Inductive panic := IndexOutOfRange | NilDereference.

(** What a piece of the loop body does: go on, return an error, or panic. *)
Inductive outcome (A : Type) :=
  | Continue (a : A)
  | Return (e : error)
  | Panic (p : panic).
Arguments Continue {A} a.
Arguments Return {A} e.
Arguments Panic {A} p.

(** The local variables of [Parse] (lines 111-116). *)
Record state := {
  ofx : Ofx;
  stack : list string;
  stackPos : nat;
  next : nextKey;
  trans : option OfxTransaction
}.

(** [make([]string, 1000)]. *)
Definition stack_capacity : nat := 1000.

Definition init : state :=
  {| ofx := new_ofx; stack := replicate stack_capacity ""; stackPos := O;
     next := none; trans := None |}.

(** The [switch t.Name.Local] of a start element (lines 127-168): the new
    values of [next] and [trans]. *)
Definition dispatch (name : string) (nx : nextKey) (tr : option OfxTransaction)
  : nextKey * option OfxTransaction :=
  if String.eqb name "ACCTID" then (acctID, tr)
  else if String.eqb name "BRANCHID" then (branchID, tr)
  else if String.eqb name "BANKID" then (bankID, tr)
  else if String.eqb name "ACCTTYPE" then (acctType, tr)
  else if String.eqb name "CURDEF" then (curDef, tr)
  else if String.eqb name "STMTTRN" then (nx, Some new_transaction)
  else if String.eqb name "DTPOSTED" then (transDatePosted, tr)
  else if String.eqb name "FITID" then (transFitID, tr)
  else if String.eqb name "TRNAMT" then (transAmount, tr)
  else if String.eqb name "NAME" then (transDesc, tr)
  else if String.eqb name "MEMO" then (transMemo, tr)
  else if String.eqb name "TRNTYPE" then (transType, tr)
  else if String.eqb name "LEDGERBAL" then (legerBal, tr)
  else if String.eqb name "AVAILBAL" then (AvailBal, tr)
  else (nx, tr).

(** [case xml.StartElement] (lines 123-168).  [stack[stackPos] = ...] panics
    when [stackPos] is not below the length of the slice. *)
Definition on_start (name : string) (st : state) : outcome state :=
  if (stackPos st <? length (stack st))%nat then
    let '(nx, tr) := dispatch name (next st) (trans st) in
    Continue {| ofx := ofx st;
                stack := <[stackPos st := name]> (stack st);
                stackPos := S (stackPos st);
                next := nx; trans := tr |}
  else Panic IndexOutOfRange.

(** A store through [trans] (lines 188-218): a nil [trans] panics. *)
Definition store_trans (f : OfxTransaction -> OfxTransaction) (st : state)
  : outcome state :=
  match trans st with
  | None => Panic NilDereference
  | Some t => Continue {| ofx := ofx st; stack := stack st;
                          stackPos := stackPos st; next := none;
                          trans := Some (f t) |}
  end.

(** A store into [ofx] (lines 179-223). *)
Definition store_ofx (f : Ofx -> Ofx) (st : state) : outcome state :=
  Continue {| ofx := f (ofx st); stack := stack st; stackPos := stackPos st;
              next := none; trans := trans st |}.

(** No case of [switch next] applies: only [next = none] happens. *)
Definition no_store (st : state) : outcome state :=
  Continue {| ofx := ofx st; stack := stack st; stackPos := stackPos st;
              next := none; trans := trans st |}.

(** [case xml.CharData] (lines 170-226), with [next = none] at its end.
    [b.Write] of a [bytes.Buffer] never returns an error. *)
Definition on_chardata (data : string) (st : state) : outcome state :=
  let res := GoStrings.TrimSpace data in
  match next st with
  | acctID => store_ofx (set_AccountNumber res) st
  | bankID => store_ofx (set_AccountBankNumber res) st
  | transDesc => store_trans (set_Memo res) st
  | transMemo => store_trans (set_Memo res) st
  | transFitID => store_trans (set_FitID res) st
  | curDef => store_ofx (set_Currency res) st
  | acctType => store_ofx (set_AccountType res) st
  | transDatePosted =>
      if (String.length res <? 8)%nat then Return (InvalidDatePosted res)
      else
        let res := String.substring 0 8 res in
        match GoTime.Parse_20060102 res with
        | None => Return (TimeParseError res)
        | Some t => store_trans (set_PostedDateTime t) st
        end
  | transAmount => store_trans (set_Amount (NewDecial res)) st
  | transType => store_trans (set_Type res) st
  | legerBal => store_ofx (set_LedgerBalance (NewDecial res)) st
  | AvailBal => store_ofx (set_AvailiableBalance (NewDecial res)) st
  | none | branchID | transUserDate => no_store st
  end.

(** The loop of [case xml.EndElement] (lines 229-240), by recursion on
    [stackPos]: the result is the final [stackPos], [ofx] and [trans]. *)
Fixpoint unwind (name : string) (stk : list string) (pos : nat)
    (o : Ofx) (tr : option OfxTransaction)
  : outcome (nat * Ofx * option OfxTransaction) :=
  match pos with
  | O => Continue (O, o, tr)
  | S p =>
      match stk !! p with
      | None => Panic IndexOutOfRange
      | Some top =>
          let '(o1, tr1) :=
            if String.eqb top "STMTTRN"
            then (append_transaction tr o, None) else (o, tr) in
          if String.eqb top name then Continue (p, o1, tr1)
          else unwind name stk p o1 tr1
      end
  end.

Definition on_end (name : string) (st : state) : outcome state :=
  match unwind name (stack st) (stackPos st) (ofx st) (trans st) with
  | Continue (p, o, tr) =>
      Continue {| ofx := o; stack := stack st; stackPos := p;
                  next := next st; trans := tr |}
  | Return e => Return e
  | Panic p => Panic p
  end.

(** One iteration of the loop (lines 122-244). *)
Definition step (st : state) (tok : Token) : outcome state :=
  match tok with
  | StartElement name => on_start name st
  | CharData data => on_chardata data st
  | EndElement name => on_end name st
  | OtherToken => Continue st
  end.

(** The loop [for err == nil] over the tokens read before [RawToken] first
    returns an error (end of input included). *)
Fixpoint run (st : state) (toks : list Token) : outcome state :=
  match toks with
  | [] => Continue st
  | tok :: rest =>
      match step st tok with
      | Continue st' => run st' rest
      | Return e => Return e
      | Panic p => Panic p
      end
  end.

(** What a call of [Parse] does: return [(ofx, nil)], return [(nil, err)],
    or panic. *)
Inductive result :=
  | Ok (o : Ofx)
  | Err (e : error)
  | Crash (p : panic).

(** [func Parse(f io.Reader)] (lines 110-255), on the tokens of [f]. *)
Definition Parse (toks : list Token) : result :=
  match run init toks with
  | Continue st => Ok (ofx st)
  | Return e => Err e
  | Panic p => Crash p
  end.

(** ** [func main()] (lines 257-274) *)

(** What the process has done so far, with the text it has printed on the
    standard output: it is still running, it has exited with a status, or it
    has panicked (the Go run time then ends the process itself).  The
    diagnostics written through [log] are not part of the model. *)
Inductive process (A : Type) :=
  | Running (a : A) (out : string)
  | Exited (code : Z) (out : string)
  | Panicked (p : panic) (out : string).
Arguments Running {A} a out.
Arguments Exited {A} code out.
Arguments Panicked {A} p out.

(** A statement of [main], from the text printed before it. *)
Definition proc (A : Type) : Type := string -> process A.

Definition ret {A : Type} (a : A) : proc A := fun out => Running a out.

Definition bind {A B : Type} (m : proc A) (k : A -> proc B) : proc B :=
  fun out =>
    match m out with
    | Running a out' => k a out'
    | Exited code out' => Exited code out'
    | Panicked p out' => Panicked p out'
    end.

Notation "x <- m ;; k" := (bind m (fun x => k))
  (at level 100, m at next level, right associativity).
Notation "m ;; k" := (bind m (fun _ => k))
  (at level 100, right associativity).

(** [log.Fatalf]: the message is logged and the process exits with
    status 1. *)
Definition log_Fatalf : proc unit := fun out => Exited 1 out.

Definition os_Exit (code : Z) : proc unit := fun out => Exited code out.

Definition fmt_Println (s : string) : proc unit :=
  fun out => Running tt (out ++ s ++ GoFmt.newline)%string.

(** [o, err := Parse(os.Stdin)], on the tokens of the standard input: the
    two results, or the panic of [Parse]. *)
Definition call_Parse (toks : list Token) : proc (option Ofx * option error) :=
  fun out =>
    match Parse toks with
    | Ok o => Running (Some o, None) out
    | Err e => Running (None, Some e) out
    | Crash p => Panicked p out
    end.

Section Main.

(** [json.Marshal] on a [*Ofx], with its two results. *)
Variable json_error : Type.
Variable json_Marshal : option Ofx -> string * option json_error.

Definition main (toks : list Token) : proc unit :=
  r <- call_Parse toks ;;
  match snd r with
  | Some _ => log_Fatalf ;; os_Exit 1
  | None => ret tt
  end ;;
  let m := json_Marshal (fst r) in
  match snd m with
  | Some _ => log_Fatalf ;; os_Exit 2
  | None => ret tt
  end ;;
  fmt_Println (fst m).

End Main.

(** ** Notions used to state the properties *)

(** The slice keeps its length, and [stackPos] stays within it. *)
Definition wf (st : state) : Prop :=
  length (stack st) = stack_capacity /\ (stackPos st <= stack_capacity)%nat.

(** The open-element path: the live part of the slice, top first. *)
Definition path_of (stk : list string) (pos : nat) : list string :=
  reverse (take pos stk).

Definition path (st : state) : list string := path_of (stack st) (stackPos st).

Definition set_Transactions (v : list (option OfxTransaction)) (o : Ofx) : Ofx :=
  {| GeneratedDateTime := GeneratedDateTime o; Language := Language o;
     AccountBankNumber := AccountBankNumber o; AccountNumber := AccountNumber o;
     AccountType := AccountType o; Currency := Currency o;
     LedgerBalance := LedgerBalance o; AvailiableBalance := AvailiableBalance o;
     TransactionStartDateTime := TransactionStartDateTime o;
     TrnasactionEndDateTime := TrnasactionEndDateTime o;
     Transactions := v |}.

(** The closing-tag resolution as the specification words it (section 4.2,
    steps a to d), on the open-element path with its top first: the path
    left, the transaction list and the current-transaction holder. *)
Fixpoint resolve (name : string) (open : list string)
    (txs : list (option OfxTransaction)) (cur : option OfxTransaction)
  : list string * list (option OfxTransaction) * option OfxTransaction :=
  match open with
  | [] => ([], txs, cur)
  | top :: rest =>
      let '(txs1, cur1) :=
        if String.eqb top "STMTTRN" then ((txs ++ [cur])%list, None)
        else (txs, cur) in
      if String.eqb top name then (rest, txs1, cur1)
      else resolve name rest txs1 cur1
  end.

(** What one unwind appends to the transaction list while it pops [popped]
    (top first): the current transaction at the first transaction marker,
    and the then empty holder at each further one. *)
Fixpoint flushed (popped : list string) (cur : option OfxTransaction)
  : list (option OfxTransaction) :=
  match popped with
  | [] => []
  | top :: rest =>
      if String.eqb top "STMTTRN" then cur :: flushed rest None
      else flushed rest cur
  end.

(** The current-transaction holder after popping [popped]. *)
Definition holder_after (popped : list string) (cur : option OfxTransaction)
  : option OfxTransaction :=
  if existsb (fun top => String.eqb top "STMTTRN") popped then None else cur.

(** A leaf field of a transaction: its tag, its text, and whether its
    closing tag is written or omitted. *)
Record leaf := { leaf_tag : string; leaf_text : string; leaf_closed : bool }.

Definition unclosed (tag text : string) : leaf :=
  {| leaf_tag := tag; leaf_text := text; leaf_closed := false |}.

Definition closed (tag text : string) : leaf :=
  {| leaf_tag := tag; leaf_text := text; leaf_closed := true |}.

(** The tokens of a leaf field, and of a sequence of leaf fields: after the
    text of an unclosed field comes directly the next start tag. *)
Definition leaf_field_tokens (f : leaf) : list Token :=
  StartElement (leaf_tag f) :: CharData (leaf_text f)
  :: (if leaf_closed f then [EndElement (leaf_tag f)] else []).

Definition leaf_tokens (fields : list leaf) : list Token :=
  flat_map leaf_field_tokens fields.

(** The tags of the fields left unclosed. *)
Definition open_tags (fields : list leaf) : list string :=
  List.map leaf_tag (List.filter (fun f => negb (leaf_closed f)) fields).

(** A transaction block left open: the start tag of the transaction, an
    unclosed [FITID] and sibling leaf fields, and no end tag of the
    transaction. *)
Definition open_block (txt : string) (fields : list leaf) : list Token :=
  ([StartElement "STMTTRN"; StartElement "FITID"; CharData txt]
   ++ leaf_tokens fields)%list.

(** One transaction block whose [FITID] tag has no closing tag: its text is
    followed directly by the start tag of the next sibling leaf field, and
    the block ends with the transaction's own end tag. *)
Definition transaction_block (txt : string) (fields : list leaf) : list Token :=
  ([StartElement "STMTTRN"; StartElement "FITID"; CharData txt]
   ++ leaf_tokens fields ++ [EndElement "STMTTRN"])%list.

(** Tags of leaf fields that neither open a transaction nor arm the
    transaction id or the posted date. *)
Definition plain_tag (name : string) : bool :=
  negb (String.eqb name "STMTTRN") && negb (String.eqb name "FITID")
  && negb (String.eqb name "DTPOSTED").

Definition plain_leaf (f : leaf) : bool := plain_tag (leaf_tag f).

(** The table of section 4.1 as the code has it: the tags that arm a pending
    field, with the marker each one sets. *)
Definition tag_table : list (string * nextKey) :=
  [ ("ACCTID", acctID); ("BRANCHID", branchID); ("BANKID", bankID);
    ("ACCTTYPE", acctType); ("CURDEF", curDef); ("DTPOSTED", transDatePosted);
    ("FITID", transFitID); ("TRNAMT", transAmount); ("NAME", transDesc);
    ("MEMO", transMemo); ("TRNTYPE", transType); ("LEDGERBAL", legerBal);
    ("AVAILBAL", AvailBal) ].

Fixpoint lookup_tag (name : string) (tbl : list (string * nextKey))
  : option nextKey :=
  match tbl with
  | [] => None
  | (k, v) :: tbl' => if String.eqb name k then Some v else lookup_tag name tbl'
  end.

(** The four fields of [Ofx] that no statement of [Parse] assigns. *)
Definition unassigned (o : Ofx) : Time * string * Time * Time :=
  (GeneratedDateTime o, Language o, TransactionStartDateTime o,
   TrnasactionEndDateTime o).

(** The user-date fields of the state: the marker is never [transUserDate],
    and [UserDateTime] is zero in the holder and in every appended entry. *)
Definition user_date_unused (st : state) : Prop :=
  next st <> transUserDate
  /\ (forall t, trans st = Some t -> UserDateTime t = GoTime.zero)
  /\ (forall t, In (Some t) (Transactions (ofx st)) -> UserDateTime t = GoTime.zero).

(** A byte that no white-space rune contains: ASCII and not a space. *)
Definition solid (c : ascii) : bool :=
  (byte_of c <? 128) && negb (GoStrings.asciiSpace c).


(** The eight digits YYYYMMDD of a date, and the dates [time.Parse] accepts. *)
Definition date_string (y m d : Z) : string :=
  let dc := GoFmt.digit_char in
  String (dc (y / 1000)) (String (dc (y / 100 mod 10)) (String (dc (y / 10 mod 10))
    (String (dc (y mod 10)) (String (dc (m / 10)) (String (dc (m mod 10))
      (String (dc (d / 10)) (String (dc (d mod 10)) ""))))))).

Definition valid_date (y m d : Z) : Prop :=
  0 <= y <= 9999 /\ 1 <= m <= 12 /\ 1 <= d <= GoTime.daysIn m y.

(** The two error returns of the posted-date case, for the trimmed text. *)
Definition date_error (res : string) : option error :=
  if (String.length res <? 8)%nat then Some (InvalidDatePosted res)
  else match GoTime.Parse_20060102 (String.substring 0 8 res) with
       | None => Some (TimeParseError (String.substring 0 8 res))
       | Some _ => None
       end.

(** [x] is finite with sign [s] and the exact value [num / den], below
    [2^53] in magnitude. *)
Definition has_value (x : Float64.float64) (s : bool) (num den : Z) : Prop :=
  exists p e, x = S754_finite s p e /\ e <= 0 /\ Zpos p * den = num * 2 ^ (- e).

(** Decimal strings with at most two fractional digits. *)
Fixpoint digits_string (ds : list Z) : string :=
  match ds with
  | [] => EmptyString
  | d :: ds' => String (GoFmt.digit_char d) (digits_string ds')
  end.

Fixpoint digits_value (acc : Z) (ds : list Z) : Z :=
  match ds with
  | [] => acc
  | d :: ds' => digits_value (acc * 10 + d) ds'
  end.

(** The sign written in front of a decimal string. *)
Inductive sign := NoSign | PlusSign | MinusSign.

Definition sign_string (sg : sign) : string :=
  match sg with NoSign => "" | PlusSign => "+" | MinusSign => "-" end.

Definition is_minus (sg : sign) : bool :=
  match sg with MinusSign => true | _ => false end.

(** An optional sign, the integer digits [ip], and the fractional digits
    [fp] after a point when there are any. *)
Definition decimal_string (sg : sign) (ip fp : list Z) : string :=
  (sign_string sg ++ digits_string ip
   ++ match fp with [] => "" | _ => String "." (digits_string fp) end)%string.

(** The value of the string, in hundredths ([fp] has at most two digits). *)
Definition hundredths (ip fp : list Z) : Z :=
  digits_value 0 (ip ++ fp) * 10 ^ (2 - Z.of_nat (length fp)).

(** The string normalized as the specification says: exactly two fractional
    digits, and a leading sign if the value is negative. *)
Definition normalized (sg : sign) (ip fp : list Z) : string :=
  GoFmt.cents_string (is_minus sg && (0 <? hundredths ip fp)) (hundredths ip fp).

Definition digit (d : Z) : Prop := 0 <= d <= 9.

(** The mantissa state after reading the digits [ds]. *)
Definition add_digits (st : GoStrconv.mantissa) (ds : list Z) : GoStrconv.mantissa :=
  fold_left (GoStrconv.add_digit 10) ds st.

(** Structural equality of two binary64 values. *)
Definition same_float (x y : Float64.float64) : bool :=
  match x, y with
  | S754_nan, S754_nan => true
  | S754_zero s, S754_zero s' => Bool.eqb s s'
  | S754_infinity s, S754_infinity s' => Bool.eqb s s'
  | S754_finite s m e, S754_finite s' m' e' =>
      Bool.eqb s s' && Pos.eqb m m' && Z.eqb e e'
  | _, _ => false
  end.

(** Values on which the operations of [Float64] are compared with those of
    the Standard Library: zeros, infinities, NaN, integers beyond [2^53],
    subnormal numbers and the largest finite number. *)
Definition float_samples : list Float64.float64 :=
  [ S754_zero false; S754_zero true; S754_infinity false; S754_nan;
    Float64.hundred; Float64.of_int (-3); Float64.of_int (2 ^ 53 + 1);
    fst (GoStrconv.ParseFloat "0.29"); fst (GoStrconv.ParseFloat "1e308");
    fst (GoStrconv.ParseFloat "4.9e-324"); fst (GoStrconv.ParseFloat "1234.56") ].

Definition float_sample_pairs : list (Float64.float64 * Float64.float64) :=
  flat_map (fun x => List.map (fun y => (x, y)) float_samples) float_samples.

Definition is_end (tok : Token) : bool :=
  match tok with EndElement _ => true | _ => false end.

(** ** Notions used by the further properties *)

Definition is_other (tok : Token) : bool :=
  match tok with OtherToken => true | _ => false end.

Definition is_marker (name : string) : bool := String.eqb name "STMTTRN".

(** Number of transaction markers among the names. *)
Definition markers (names : list string) : nat :=
  length (List.filter is_marker names).

(** Number of transaction start tags among the tokens. *)
Definition transaction_starts (toks : list Token) : nat :=
  length (List.filter
            (fun tok => match tok with StartElement name => is_marker name | _ => false end)
            toks).

(** What the text of a leaf field does to the transaction of its block. *)
Definition leaf_effect (f : leaf) (t : OfxTransaction) : OfxTransaction :=
  let res := GoStrings.TrimSpace (leaf_text f) in
  match lookup_tag (leaf_tag f) tag_table with
  | Some transFitID => set_FitID res t
  | Some transAmount => set_Amount (NewDecial res) t
  | Some transDesc | Some transMemo => set_Memo res t
  | Some transType => set_Type res t
  | Some transDatePosted =>
      match GoTime.Parse_20060102 (String.substring 0 8 res) with
      | Some d => set_PostedDateTime d t
      | None => t
      end
  | _ => t
  end.

(** A leaf field of a transaction block: any tag but the transaction's own,
    and a posted date only with a text that is accepted. *)
Definition block_leaf (f : leaf) : bool :=
  negb (is_marker (leaf_tag f))
  && (negb (String.eqb (leaf_tag f) "DTPOSTED")
      || match date_error (GoStrings.TrimSpace (leaf_text f)) with
         | None => true
         | Some _ => false
         end).

(** A transaction block: the start tag, leaf fields with or without their
    closing tags, and the end tag of the transaction. *)
Definition block (fields : list leaf) : list Token :=
  (StartElement "STMTTRN" :: leaf_tokens fields ++ [EndElement "STMTTRN"])%list.

(** The transaction a block describes: its fields applied in order to a
    fresh transaction. *)
Definition block_transaction (fields : list leaf) : OfxTransaction :=
  fold_left (fun t f => leaf_effect f t) fields new_transaction.

(** A value stored in the statement: a text or an amount. *)
Inductive value :=
  | Text (s : string)
  | Money (d : Decimal).

(** The fields of the statement that [Parse] assigns: the tag, the marker the
    tag sets, the field, and the conversion of the trimmed text (lines
    128-141, 163-167, 179-200 and 220-223). *)
Definition statement_fields
  : list (string * nextKey * (Ofx -> value) * (string -> value)) :=
  [ ("ACCTID", acctID, fun o => Text (AccountNumber o), Text);
    ("BANKID", bankID, fun o => Text (AccountBankNumber o), Text);
    ("ACCTTYPE", acctType, fun o => Text (AccountType o), Text);
    ("CURDEF", curDef, fun o => Text (Currency o), Text);
    ("LEDGERBAL", legerBal, fun o => Money (LedgerBalance o),
     fun res => Money (NewDecial res));
    ("AVAILBAL", AvailBal, fun o => Money (AvailiableBalance o),
     fun res => Money (NewDecial res)) ].

(** Tokens that leave the pending-field marker as it is: everything but
    character data and the start tags of the dispatch table. *)
Definition keeps_marker (tok : Token) : bool :=
  match tok with
  | CharData _ => false
  | StartElement name =>
      match lookup_tag name tag_table with Some _ => false | None => true end
  | _ => true
  end.

Definition is_start_of (tag : string) (tok : Token) : bool :=
  match tok with
  | StartElement name => String.eqb name tag
  | _ => false
  end.

Definition is_start (tok : Token) : bool :=
  match tok with StartElement _ => true | _ => false end.

(** The markers under which character data is stored through the holder:
    [res] is the trimmed text. *)
Definition through_holder (k : nextKey) (res : string) : bool :=
  match k with
  | transDesc | transMemo | transFitID | transAmount | transType => true
  | transDatePosted =>
      match date_error res with None => true | Some _ => false end
  | _ => false
  end.

(** Every byte of the string is ASCII. *)
Fixpoint ascii_only (s : string) : bool :=
  match s with
  | EmptyString => true
  | String c s' => (byte_of c <? 128) && ascii_only s'
  end.

(** The digits of a number below 10000, and of a number below 100. *)
Definition four_digits (y : Z) : string :=
  let dc := GoFmt.digit_char in
  String (dc (y / 1000)) (String (dc (y / 100 mod 10))
    (String (dc (y / 10 mod 10)) (String (dc (y mod 10)) EmptyString))).

Definition two_digits (m : Z) : string :=
  let dc := GoFmt.digit_char in
  String (dc (m / 10)) (String (dc (m mod 10)) EmptyString).

(** [f] holds on the [n] integers from [z] on. *)
Fixpoint all_from (n : nat) (z : Z) (f : Z -> bool) : bool :=
  match n with
  | O => true
  | S k => f z && all_from k (z + 1) f
  end.

(** The lines [Ofx.String] writes for the entries of a transaction list. *)
Definition transaction_lines (txs : list (option OfxTransaction)) : string :=
  fold_right (fun t acc => (Sprintf_transaction t ++ acc)%string) EmptyString txs.

(** Every byte of the string is one of the six ASCII white-space bytes. *)
Fixpoint all_space (s : string) : bool :=
  match s with
  | EmptyString => true
  | String c s' => GoStrings.asciiSpace c && all_space s'
  end.

(** ** Basic facts about the loop *)

Lemma run_app (st : state) (a b : list Token) :
  run st (a ++ b) =
  match run st a with
  | Continue st' => run st' b
  | Return e => Return e
  | Panic p => Panic p
  end.
Proof.
  revert st. induction a as [|tok a IH]; intros st; simpl; [reflexivity|].
  destruct (step st tok); auto.
Qed.

Lemma init_wf : wf init.
Proof. split; [apply length_replicate | apply Nat.le_0_l]. Qed.

Lemma unwind_pos_le name stk pos o tr p' o' tr' :
  unwind name stk pos o tr = Continue (p', o', tr') -> (p' <= pos)%nat.
Proof.
  revert o tr. induction pos as [|p IH]; intros o tr; simpl.
  - intros H; inversion H; lia.
  - destruct (stk !! p) as [top|]; [|discriminate].
    destruct (String.eqb top "STMTTRN"); destruct (String.eqb top name);
      intros H; try (inversion H; lia); apply IH in H; lia.
Qed.

Lemma step_wf st tok st' : wf st -> step st tok = Continue st' -> wf st'.
Proof.
  intros [Hlen Hpos]. destruct tok as [name|data|name|]; simpl.
  - unfold on_start.
    destruct (Nat.ltb_spec (stackPos st) (length (stack st))) as [Hlt|Hge];
      [|discriminate].
    destruct (dispatch name (next st) (trans st)) as [nx tr].
    intros H; inversion H; subst; clear H. split; simpl.
    + rewrite length_insert; assumption.
    + lia.
  - unfold on_chardata, store_ofx, store_trans, no_store.
    destruct (next st); destruct (trans st);
      repeat match goal with
             | |- context [if ?b then _ else _] => destruct b
             | |- context [match ?x with Some _ => _ | None => _ end] => destruct x
             end;
      intros H; inversion H; subst; split; simpl; assumption.
  - unfold on_end.
    destruct (unwind name (stack st) (stackPos st) (ofx st) (trans st))
      as [[[p o] tr]| |] eqn:E; try discriminate.
    intros H; inversion H; subst; clear H. apply unwind_pos_le in E.
    split; simpl; [assumption | lia].
  - intros H; inversion H; subst; split; assumption.
Qed.

Lemma run_wf toks : forall st st', wf st -> run st toks = Continue st' -> wf st'.
Proof.
  induction toks as [|tok toks IH]; intros st st' Hwf; simpl.
  - intros H; inversion H; subst; assumption.
  - destruct (step st tok) as [st1| |] eqn:E; try discriminate.
    apply IH. eapply step_wf; eassumption.
Qed.

Lemma set_Transactions_same o : set_Transactions (Transactions o) o = o.
Proof. destruct o; reflexivity. Qed.

(** The loop of the end-element case computes [resolve] on the path. *)
Lemma unwind_resolve name stk : forall pos o tr,
  (pos <= length stk)%nat ->
  exists p',
    unwind name stk pos o tr =
      Continue (p', set_Transactions (snd (fst (resolve name (path_of stk pos) (Transactions o) tr))) o,
                snd (resolve name (path_of stk pos) (Transactions o) tr))
    /\ path_of stk p' = fst (fst (resolve name (path_of stk pos) (Transactions o) tr))
    /\ (p' <= pos)%nat.
Proof.
  induction pos as [|p IH]; intros o tr Hle.
  - exists O. simpl. rewrite set_Transactions_same. auto.
  - destruct (lookup_lt_is_Some_2 stk p ltac:(lia)) as [top Htop].
    unfold path_of. rewrite (take_S_r _ _ _ Htop), reverse_snoc. simpl.
    rewrite Htop. fold (path_of stk p).
    destruct (String.eqb top "STMTTRN") eqn:Et; destruct (String.eqb top name) eqn:En; simpl.
    + exists p. auto.
    + destruct (IH (append_transaction tr o) None ltac:(lia)) as (p' & H1 & H2 & H3).
      exists p'. simpl in H1. rewrite H1. auto.
    + exists p. rewrite set_Transactions_same. auto.
    + destruct (IH o tr ltac:(lia)) as (p' & H1 & H2 & H3).
      exists p'. rewrite H1. auto.
Qed.

(** *** The dispatch of start tags as a table *)

Lemma dispatch_table name nx tr :
  dispatch name nx tr =
  if String.eqb name "STMTTRN" then (nx, Some new_transaction)
  else (match lookup_tag name tag_table with Some k => k | None => nx end, tr).
Proof.
  unfold dispatch, tag_table, lookup_tag.
  repeat match goal with
         | |- context [String.eqb name ?s] =>
             destruct (String.eqb name s) eqn:?;
             [ match goal with H : String.eqb _ _ = true |- _ =>
                 apply String.eqb_eq in H; subst; reflexivity end | ]
         end.
  reflexivity.
Qed.

(** *** What each kind of token does to the state *)

Lemma path_push stk p name :
  (p < length stk)%nat -> path_of (<[p := name]> stk) (S p) = name :: path_of stk p.
Proof.
  intros Hlt. unfold path_of.
  rewrite (take_S_r _ _ name) by (apply list_lookup_insert_eq; exact Hlt).
  rewrite take_insert_ge by lia. apply reverse_snoc.
Qed.

Lemma on_start_continue st name :
  (stackPos st < length (stack st))%nat ->
  step st (StartElement name) =
  Continue {| ofx := ofx st; stack := <[stackPos st := name]> (stack st);
              stackPos := S (stackPos st);
              next := fst (dispatch name (next st) (trans st));
              trans := snd (dispatch name (next st) (trans st)) |}.
Proof.
  intros Hlt. simpl. unfold on_start.
  apply Nat.ltb_lt in Hlt. rewrite Hlt.
  destruct (dispatch name (next st) (trans st)); reflexivity.
Qed.

Lemma on_start_full st name :
  (length (stack st) <= stackPos st)%nat ->
  step st (StartElement name) = Panic IndexOutOfRange.
Proof.
  intros Hge. simpl. unfold on_start.
  apply Nat.ltb_ge in Hge. rewrite Hge. reflexivity.
Qed.

(** Character data leaves the stack alone and ends with [next = none]. *)
Lemma on_chardata_frame st data st' :
  step st (CharData data) = Continue st' ->
  stack st' = stack st /\ stackPos st' = stackPos st /\ next st' = none
  /\ Transactions (ofx st') = Transactions (ofx st).
Proof.
  simpl. unfold on_chardata, store_ofx, store_trans, no_store.
  destruct (next st); destruct (trans st);
    repeat match goal with
           | |- context [if ?b then _ else _] => destruct b
           | |- context [match ?x with Some _ => _ | None => _ end] => destruct x
           end;
    intros H; inversion H; subst; simpl; auto.
Qed.

(** An end element computes [resolve] on the open-element path. *)
Lemma on_end_resolve st name :
  (stackPos st <= length (stack st))%nat ->
  exists st',
    step st (EndElement name) = Continue st'
    /\ path st' = fst (fst (resolve name (path st) (Transactions (ofx st)) (trans st)))
    /\ ofx st' = set_Transactions
                   (snd (fst (resolve name (path st) (Transactions (ofx st)) (trans st))))
                   (ofx st)
    /\ trans st' = snd (resolve name (path st) (Transactions (ofx st)) (trans st))
    /\ next st' = next st /\ stack st' = stack st
    /\ (stackPos st' <= stackPos st)%nat.
Proof.
  intros Hle.
  destruct (unwind_resolve name (stack st) (stackPos st) (ofx st) (trans st) Hle)
    as (p' & H1 & H2 & H3).
  eexists. simpl. unfold on_end. rewrite H1. split; [reflexivity|].
  unfold path; simpl. auto 10.
Qed.

(** Only an end element changes the transaction list. *)
Lemma step_keeps_transactions st tok st' :
  is_end tok = false -> step st tok = Continue st' ->
  Transactions (ofx st') = Transactions (ofx st).
Proof.
  destruct tok as [name|data|name|]; simpl; try discriminate; intros _.
  - unfold on_start. destruct (stackPos st <? length (stack st))%nat; [|discriminate].
    destruct (dispatch name (next st) (trans st)).
    intros H; inversion H; reflexivity.
  - intros H. apply on_chardata_frame in H. tauto.
  - intros H; inversion H; reflexivity.
Qed.


(** *** The closing-tag resolution in terms of what it pops *)

Lemma resolve_popped name : forall open txs cur,
  exists popped,
    open = (popped ++ fst (fst (resolve name open txs cur)))%list
    /\ ((exists before, popped = (before ++ [name])%list /\ ~ In name before)
        \/ (~ In name open /\ fst (fst (resolve name open txs cur)) = []))
    /\ snd (fst (resolve name open txs cur)) = (txs ++ flushed popped cur)%list
    /\ snd (resolve name open txs cur) = holder_after popped cur.
Proof.
  induction open as [|top rest IH]; intros txs cur.
  - exists []. simpl. rewrite app_nil_r. unfold holder_after; simpl. intuition.
  - simpl. destruct (String.eqb top name) eqn:En.
    + apply String.eqb_eq in En; subst top. exists [name].
      unfold holder_after; simpl.
      destruct (String.eqb name "STMTTRN"); simpl;
        (split; [reflexivity|]); (split; [left; exists []; auto|]);
        rewrite ?app_nil_r; auto.
    + apply String.eqb_neq in En.
      destruct (String.eqb top "STMTTRN") eqn:Et.
      * destruct (IH (txs ++ [cur])%list None) as (popped & H1 & H2 & H3 & H4).
        exists (top :: popped). unfold holder_after in *; simpl. rewrite Et; simpl.
        split; [f_equal; exact H1|]. split.
        { destruct H2 as [(before & Hb & Hn)|[Hn He]].
          - left. exists (top :: before). subst popped. split; [reflexivity|].
            simpl. intuition.
          - right. simpl. intuition. }
        rewrite H3, H4, <- app_assoc. simpl.
        destruct (existsb _ popped); auto.
      * destruct (IH txs cur) as (popped & H1 & H2 & H3 & H4).
        exists (top :: popped). unfold holder_after in *; simpl. rewrite Et; simpl.
        split; [f_equal; exact H1|]. split.
        { destruct H2 as [(before & Hb & Hn)|[Hn He]].
          - left. exists (top :: before). subst popped. split; [reflexivity|].
            simpl. intuition.
          - right. simpl. intuition. }
        auto.
Qed.

(** Unclosed leaves above a transaction marker: its end tag pops them all,
    flushes the transaction once and stops. *)
Lemma resolve_transaction_block leaves rest txs cur :
  forallb (fun x => negb (String.eqb x "STMTTRN")) leaves = true ->
  resolve "STMTTRN" (leaves ++ "STMTTRN" :: rest) txs cur
  = (rest, (txs ++ [cur])%list, None).
Proof.
  induction leaves as [|x leaves IH]; simpl; [reflexivity|].
  intros H. apply andb_true_iff in H as [Hx Hl]. apply negb_true_iff in Hx.
  rewrite Hx. apply IH, Hl.
Qed.

(** *** Leaf fields inside an open transaction *)

Lemma resolve_own_tag tag rest txs cur :
  String.eqb tag "STMTTRN" = false ->
  resolve tag (tag :: rest) txs cur = (rest, txs, cur).
Proof. intros H. simpl. rewrite H, String.eqb_refl. reflexivity. Qed.

Lemma leaf_field_step st t f :
  next st = none -> trans st = Some t -> plain_leaf f = true ->
  (stackPos st < length (stack st))%nat ->
  exists st' t',
    run st (leaf_field_tokens f) = Continue st'
    /\ path st' = (if leaf_closed f then path st else leaf_tag f :: path st)
    /\ next st' = none
    /\ trans st' = Some t' /\ FitID t' = FitID t
    /\ Transactions (ofx st') = Transactions (ofx st)
    /\ length (stack st') = length (stack st)
    /\ stackPos st' = (if leaf_closed f then stackPos st else S (stackPos st)).
Proof.
  destruct f as [tag text closed]. unfold plain_leaf, leaf_field_tokens.
  cbn [leaf_tag leaf_text leaf_closed].
  intros Hnext Htrans Hplain Hlt.
  unfold plain_tag in Hplain.
  apply andb_true_iff in Hplain as [Hplain Hdt].
  apply andb_true_iff in Hplain as [Hstm Hfit].
  apply negb_true_iff in Hstm, Hfit, Hdt.
  assert (Hopen : exists st1 t1,
             run st [StartElement tag; CharData text] = Continue st1
             /\ path st1 = tag :: path st /\ next st1 = none
             /\ trans st1 = Some t1 /\ FitID t1 = FitID t
             /\ Transactions (ofx st1) = Transactions (ofx st)
             /\ length (stack st1) = length (stack st)
             /\ stackPos st1 = S (stackPos st)).
  { cbn [run]. rewrite (on_start_continue st tag Hlt).
    rewrite dispatch_table, Hstm, Hnext, Htrans. cbn [fst snd].
    unfold tag_table, lookup_tag. rewrite Hfit, Hdt.
    repeat match goal with
           | |- context [String.eqb tag ?s] => destruct (String.eqb tag s)
           end;
      cbn [step on_chardata store_ofx store_trans no_store next trans ofx stack stackPos];
      eexists _, _; (split; [reflexivity|]); cbn [next trans ofx stack stackPos];
      rewrite length_insert; unfold path in *; cbn [stack stackPos] in *;
      rewrite (path_push _ _ _ Hlt); auto 10. }
  destruct Hopen as (st1 & t1 & R1 & P1 & N1 & T1 & F1 & X1 & L1 & S1).
  destruct closed.
  - change (StartElement tag :: CharData text :: [EndElement tag])
      with ([StartElement tag; CharData text] ++ [EndElement tag])%list.
    rewrite run_app, R1. cbn [run].
    destruct (on_end_resolve st1 tag ltac:(lia))
      as (st2 & R2 & P2 & O2 & T2 & N2 & K2 & Q2).
    rewrite R2. rewrite P1, (resolve_own_tag tag _ _ _ Hstm) in P2, O2, T2.
    cbn [fst snd] in P2, O2, T2.
    assert (Hpos : stackPos st2 = stackPos st).
    { pose proof (f_equal (@length string) P2) as E.
      unfold path, path_of in E.
      rewrite !length_reverse, !length_take in E. rewrite K2, L1 in E. lia. }
    exists st2, t1. split; [reflexivity|].
    rewrite P2, O2, T2, N2, K2, set_Transactions_same.
    repeat split; try congruence.
  - exists st1, t1. auto 10.
Qed.

Lemma open_tags_length fields : (length (open_tags fields) <= length fields)%nat.
Proof.
  unfold open_tags. rewrite length_map.
  induction fields as [|f fields IH]; simpl; [lia|].
  destruct (negb (leaf_closed f)); simpl; lia.
Qed.

Lemma run_leaf_fields fields : forall st t,
  next st = none -> trans st = Some t ->
  forallb plain_leaf fields = true ->
  (stackPos st + length fields <= length (stack st))%nat ->
  exists st' t',
    run st (leaf_tokens fields) = Continue st'
    /\ path st' = (reverse (open_tags fields) ++ path st)%list /\ next st' = none
    /\ trans st' = Some t' /\ FitID t' = FitID t
    /\ Transactions (ofx st') = Transactions (ofx st)
    /\ length (stack st') = length (stack st)
    /\ stackPos st' = (stackPos st + length (open_tags fields))%nat.
Proof.
  induction fields as [|f fields IH]; intros st t Hnext Htrans Hall Hroom.
  - exists st, t. simpl. rewrite Nat.add_0_r. auto 10.
  - simpl in Hall, Hroom. apply andb_true_iff in Hall as [Htag Hall].
    destruct (leaf_field_step st t f Hnext Htrans Htag ltac:(lia))
      as (st1 & t1 & R1 & P1 & N1 & T1 & F1 & X1 & L1 & S1).
    assert (Hroom1 : (stackPos st1 + length fields <= length (stack st1))%nat).
    { rewrite S1, L1. destruct (leaf_closed f); lia. }
    destruct (IH st1 t1 N1 T1 Hall Hroom1)
      as (st2 & t2 & R2 & P2 & N2 & T2 & F2 & X2 & L2 & S2).
    exists st2, t2.
    change (leaf_tokens (f :: fields))
      with (leaf_field_tokens f ++ leaf_tokens fields)%list.
    rewrite run_app, R1, R2. split; [reflexivity|].
    rewrite P2, P1, S2, S1. unfold open_tags. cbn [List.filter].
    destruct (leaf_closed f); cbn [negb List.map length].
    + repeat split; try congruence.
    + rewrite reverse_cons, <- app_assoc. cbn [app].
      repeat split; try congruence; lia.
Qed.

Lemma run_open_block st0 txt fields :
  wf st0 ->
  (stackPos st0 + 2 + length fields <= stack_capacity)%nat ->
  forallb plain_leaf fields = true ->
  exists st' t,
    run st0 (open_block txt fields) = Continue st'
    /\ path st' = (reverse (open_tags fields) ++ ["FITID"] ++ "STMTTRN" :: path st0)%list
    /\ trans st' = Some t /\ FitID t = GoStrings.TrimSpace txt
    /\ Transactions (ofx st') = Transactions (ofx st0)
    /\ length (stack st') = stack_capacity
    /\ stackPos st' = (stackPos st0 + 2 + length (open_tags fields))%nat.
Proof.
  intros [Hlen Hpos] Hroom Hplain.
  unfold open_block. cbn [app run].
  rewrite on_start_continue by lia.
  change (dispatch "STMTTRN" (next st0) (trans st0))
    with (next st0, Some new_transaction). cbn [fst snd].
  rewrite on_start_continue by (cbn [stack stackPos]; rewrite length_insert; lia).
  cbn [stack stackPos next trans ofx].
  match goal with |- context [dispatch "FITID" ?a ?b] =>
    change (dispatch "FITID" a b) with (transFitID, b) end.
  cbn [fst snd step on_chardata store_trans next trans ofx stack stackPos].
  set (st3 := {| ofx := ofx st0; stack := _; stackPos := _; next := none; trans := _ |}).
  assert (Hp3 : path st3 = "FITID" :: "STMTTRN" :: path st0).
  { unfold path, st3; cbn [stack stackPos].
    rewrite path_push by (rewrite length_insert; lia).
    rewrite path_push by lia. reflexivity. }
  assert (Hl3 : length (stack st3) = stack_capacity).
  { unfold st3; cbn [stack]. rewrite !length_insert. exact Hlen. }
  destruct (run_leaf_fields fields st3 _ eq_refl eq_refl Hplain
              ltac:(rewrite Hl3; unfold st3; cbn [stackPos]; lia))
    as (st4 & t4 & R4 & P4 & N4 & T4 & F4 & X4 & L4 & S4).
  exists st4, t4. rewrite R4, P4, Hp3, L4, Hl3, S4.
  unfold st3 in *; cbn [stackPos ofx] in *. cbn in F4.
  repeat split; auto; lia.
Qed.

Lemma plain_leaves (fields : list leaf) :
  forallb plain_leaf fields = true ->
  forallb (fun x => negb (String.eqb x "STMTTRN"))
    (reverse (open_tags fields) ++ ["FITID"]) = true.
Proof.
  intros Hplain. rewrite forallb_app. apply andb_true_iff. split; [|reflexivity].
  induction fields as [|f fields IH]; [reflexivity|].
  simpl in Hplain. apply andb_true_iff in Hplain as [H1 H2].
  unfold open_tags in *. cbn [List.filter].
  destruct (leaf_closed f); cbn [negb List.map]; [exact (IH H2)|].
  rewrite reverse_cons, forallb_app. rewrite (IH H2). simpl.
  unfold plain_leaf, plain_tag in H1. apply andb_true_iff in H1 as [H1 _].
  apply andb_true_iff in H1 as [H1 _]. rewrite H1. reflexivity.
Qed.

Lemma run_transaction_block st0 txt fields :
  wf st0 ->
  (stackPos st0 + 2 + length fields <= stack_capacity)%nat ->
  forallb plain_leaf fields = true ->
  exists st' t,
    run st0 (transaction_block txt fields) = Continue st'
    /\ Transactions (ofx st') = (Transactions (ofx st0) ++ [Some t])%list
    /\ FitID t = GoStrings.TrimSpace txt
    /\ trans st' = None /\ path st' = path st0.
Proof.
  intros Hwf Hroom Hplain.
  destruct (run_open_block st0 txt fields Hwf Hroom Hplain)
    as (st4 & t4 & R4 & P4 & T4 & F4 & X4 & L4 & S4).
  pose proof (open_tags_length fields) as Hopen.
  unfold transaction_block.
  change ([StartElement "STMTTRN"; StartElement "FITID"; CharData txt]
          ++ leaf_tokens fields ++ [EndElement "STMTTRN"])%list
    with (open_block txt fields ++ [EndElement "STMTTRN"])%list.
  rewrite run_app, R4. cbn [run].
  destruct (on_end_resolve st4 "STMTTRN" ltac:(rewrite L4, S4; lia))
    as (st5 & R5 & P5 & O5 & T5 & _).
  rewrite R5. exists st5, t4.
  rewrite P4, app_assoc in P5, O5, T5.
  rewrite (resolve_transaction_block _ _ _ _ (plain_leaves fields Hplain))
    in P5, O5, T5.
  split; [reflexivity|]. rewrite O5, T4, X4. cbn. auto.
Qed.

(** *** Tokens other than end elements *)



(** Character data right after character data changes nothing. *)
Lemma second_chunk_ignored st d1 st1 :
  step st (CharData d1) = Continue st1 ->
  forall d2, step st1 (CharData d2) = Continue st1.
Proof.
  intros H d2. pose proof (on_chardata_frame st d1 st1 H) as (_ & _ & Hnone & _).
  simpl. unfold on_chardata. rewrite Hnone. unfold no_store.
  destruct st1; simpl in *; subst; reflexivity.
Qed.

(** *** Fields of the statement that are never assigned *)

Lemma unwind_unassigned name stk : forall pos o tr p' o' tr',
  unwind name stk pos o tr = Continue (p', o', tr') ->
  unassigned o' = unassigned o.
Proof.
  induction pos as [|p IH]; intros o tr p' o' tr'; simpl.
  - intros H; inversion H; reflexivity.
  - destruct (stk !! p) as [top|]; [|discriminate].
    destruct (String.eqb top "STMTTRN"); destruct (String.eqb top name);
      intros H; try (inversion H; reflexivity); apply IH in H; exact H.
Qed.

Lemma step_unassigned st tok st' :
  step st tok = Continue st' -> unassigned (ofx st') = unassigned (ofx st).
Proof.
  destruct tok as [name|data|name|]; simpl.
  - unfold on_start. destruct (stackPos st <? length (stack st))%nat; [|discriminate].
    destruct (dispatch name (next st) (trans st)).
    intros H; inversion H; reflexivity.
  - unfold on_chardata, store_ofx, store_trans, no_store.
    destruct (next st); destruct (trans st);
      repeat match goal with
             | |- context [if ?b then _ else _] => destruct b
             | |- context [match ?x with Some _ => _ | None => _ end] => destruct x
             end;
      intros H; inversion H; reflexivity.
  - unfold on_end.
    destruct (unwind name (stack st) (stackPos st) (ofx st) (trans st))
      as [[[p o] tr]| |] eqn:E; try discriminate.
    intros H; inversion H; subst; clear H. simpl.
    eapply unwind_unassigned; exact E.
  - intros H; inversion H; reflexivity.
Qed.

Lemma run_unassigned toks : forall st st',
  run st toks = Continue st' -> unassigned (ofx st') = unassigned (ofx st).
Proof.
  induction toks as [|tok toks IH]; intros st st'; simpl.
  - intros H; inversion H; reflexivity.
  - destruct (step st tok) as [st1| |] eqn:E; try discriminate.
    intros H. rewrite (IH _ _ H). eapply step_unassigned; exact E.
Qed.

(** *** The user-date marker *)

Lemma lookup_tag_not_user_date name k :
  lookup_tag name tag_table = Some k -> k <> transUserDate.
Proof.
  unfold tag_table, lookup_tag.
  repeat match goal with
         | |- context [String.eqb name ?s] => destruct (String.eqb name s)
         end; intros H; inversion H; discriminate.
Qed.

Lemma unwind_user_date name stk : forall pos o tr p' o' tr',
  (forall t, tr = Some t -> UserDateTime t = GoTime.zero) ->
  (forall t, In (Some t) (Transactions o) -> UserDateTime t = GoTime.zero) ->
  unwind name stk pos o tr = Continue (p', o', tr') ->
  (forall t, tr' = Some t -> UserDateTime t = GoTime.zero)
  /\ (forall t, In (Some t) (Transactions o') -> UserDateTime t = GoTime.zero).
Proof.
  induction pos as [|p IH]; intros o tr p' o' tr' Htr Ho; simpl.
  - intros H; inversion H; subst; auto.
  - destruct (stk !! p) as [top|]; [|discriminate].
    assert (Ho' : forall t, In (Some t) (Transactions (append_transaction tr o)) ->
                            UserDateTime t = GoTime.zero).
    { simpl. intros t Hin. apply in_app_or in Hin as [Hin|[Hin|[]]]; auto. }
    destruct (String.eqb top "STMTTRN"); destruct (String.eqb top name);
      intros H; try (inversion H; subst; split; auto; discriminate).
    + eapply IH; [| |exact H]; auto. discriminate.
    + eapply IH; [| |exact H]; auto.
Qed.

Lemma step_user_date st tok st' :
  user_date_unused st -> step st tok = Continue st' -> user_date_unused st'.
Proof.
  intros (Hn & Ht & Ho). destruct tok as [name|data|name|]; simpl.
  - unfold on_start. destruct (stackPos st <? length (stack st))%nat; [|discriminate].
    rewrite dispatch_table.
    destruct (String.eqb name "STMTTRN").
    + intros H; inversion H; subst; clear H. repeat split; simpl; auto.
      intros t E; inversion E; reflexivity.
    + destruct (lookup_tag name tag_table) as [k|] eqn:Ek;
        intros H; inversion H; subst; clear H; repeat split; simpl; auto.
      eapply lookup_tag_not_user_date; exact Ek.
  - unfold on_chardata, store_ofx, store_trans, no_store.
    destruct (next st); destruct (trans st) as [t0|];
      repeat match goal with
             | |- context [if ?b then _ else _] => destruct b
             | |- context [match ?x with Some _ => _ | None => _ end] => destruct x
             end;
      intros H; inversion H; subst; clear H;
      (repeat split; simpl; [discriminate | | exact Ho]);
      intros tx Ex; inversion Ex; subst; simpl; auto.
  - unfold on_end.
    destruct (unwind name (stack st) (stackPos st) (ofx st) (trans st))
      as [[[p o] tr]| |] eqn:E; try discriminate.
    intros H; inversion H; subst; clear H.
    destruct (unwind_user_date _ _ _ _ _ _ _ _ Ht Ho E) as [A B].
    repeat split; simpl; auto.
  - intros H; inversion H; subst. repeat split; auto.
Qed.

Lemma run_user_date toks : forall st st',
  user_date_unused st -> run st toks = Continue st' -> user_date_unused st'.
Proof.
  induction toks as [|tok toks IH]; intros st st' Hinv; simpl.
  - intros H; inversion H; subst; exact Hinv.
  - destruct (step st tok) as [st1| |] eqn:E; try discriminate.
    apply IH. eapply step_user_date; eassumption.
Qed.

(** ** Facts about bytes and strings *)

Lemma byte_of_chr n : 0 <= n < 256 -> byte_of (chr n) = n.
Proof.
  intros H. unfold byte_of, chr.
  rewrite N_ascii_embedding by lia. lia.
Qed.

Lemma string_app_assoc (a b c : string) :
  ((a ++ b) ++ c)%string = (a ++ b ++ c)%string.
Proof. induction a; simpl; congruence. Qed.

Lemma string_app_length (a b : string) :
  String.length (a ++ b) = (String.length a + String.length b)%nat.
Proof. induction a; simpl; congruence. Qed.

Lemma string_rev_onto_app s : forall acc,
  string_rev_onto s acc = (string_rev s ++ acc)%string.
Proof.
  unfold string_rev. induction s as [|c s IH]; intros acc; simpl; [reflexivity|].
  rewrite IH, (IH (String c "")). rewrite string_app_assoc. reflexivity.
Qed.

Lemma string_rev_cons c s : string_rev (String c s) = (string_rev s ++ String c "")%string.
Proof. unfold string_rev at 1. simpl. apply string_rev_onto_app. Qed.

Lemma string_app_nil_r s : (s ++ "")%string = s.
Proof. induction s; simpl; congruence. Qed.

Lemma string_rev_app a b : string_rev (a ++ b) = (string_rev b ++ string_rev a)%string.
Proof.
  induction a as [|c a IH]; simpl.
  - rewrite string_app_nil_r. reflexivity.
  - rewrite !string_rev_cons, IH, <- string_app_assoc. reflexivity.
Qed.

Lemma string_rev_involutive s : string_rev (string_rev s) = s.
Proof.
  induction s as [|c s IH]; [reflexivity|].
  rewrite string_rev_cons, string_rev_app, IH. reflexivity.
Qed.

Lemma string_rev_length s : String.length (string_rev s) = String.length s.
Proof.
  induction s as [|c s IH]; [reflexivity|].
  rewrite string_rev_cons, string_app_length, IH. simpl. lia.
Qed.

(** *** TrimSpace *)




Lemma trim_left_0 encs s :
  GoStrings.trim_left encs 0 s =
  match GoStrings.leading_space encs s with
  | O => s
  | S k => match s with
           | String _ s' => GoStrings.trim_left encs k s'
           | EmptyString => EmptyString
           end
  end.
Proof. destruct s; reflexivity. Qed.


Lemma trim_left_length encs : forall s k,
  (String.length (GoStrings.trim_left encs k s) <= String.length s)%nat.
Proof.
  induction s as [|a s IH]; intros k.
  - destruct k; simpl; lia.
  - destruct k as [|k].
    + rewrite trim_left_0.
      destruct (GoStrings.leading_space encs (String a s)) as [|k]; [lia|].
      specialize (IH k). simpl. lia.
    + cbn [GoStrings.trim_left]. specialize (IH k). simpl. lia.
Qed.

Lemma TrimSpace_length s :
  (String.length (GoStrings.TrimSpace s) <= String.length s)%nat.
Proof.
  unfold GoStrings.TrimSpace, GoStrings.TrimRightSpace, GoStrings.TrimLeftSpace.
  rewrite string_rev_length.
  etransitivity; [apply trim_left_length|]. rewrite string_rev_length.
  apply trim_left_length.
Qed.



(** *** Dates *)

Lemma digit_char_digit k :
  0 <= k <= 9 ->
  isDigit (GoFmt.digit_char k) = true /\ digit_val (GoFmt.digit_char k) = k
  /\ solid (GoFmt.digit_char k) = true.
Proof.
  intros H. unfold isDigit, digit_val, solid, GoStrings.asciiSpace, GoFmt.digit_char.
  rewrite byte_of_chr by lia.
  repeat split; lia.
Qed.

Lemma daysIn_le m y : GoTime.daysIn m y <= 31.
Proof.
  unfold GoTime.daysIn.
  repeat match goal with |- context [if ?b then _ else _] => destruct b end; lia.
Qed.

Lemma getnum2_digits a b rest :
  0 <= a <= 9 -> 0 <= b <= 9 ->
  GoTime.getnum2 (String (GoFmt.digit_char a) (String (GoFmt.digit_char b) rest))
  = Some (a * 10 + b, rest).
Proof.
  intros Ha Hb. unfold GoTime.getnum2.
  destruct (digit_char_digit a Ha) as (-> & -> & _).
  destruct (digit_char_digit b Hb) as (-> & -> & _). reflexivity.
Qed.

Lemma getyear_digits a b c d rest :
  0 <= a <= 9 -> 0 <= b <= 9 -> 0 <= c <= 9 -> 0 <= d <= 9 ->
  GoTime.getyear
    (String (GoFmt.digit_char a) (String (GoFmt.digit_char b)
       (String (GoFmt.digit_char c) (String (GoFmt.digit_char d) rest))))
  = Some (((a * 10 + b) * 10 + c) * 10 + d, rest).
Proof.
  intros Ha Hb Hc Hd. unfold GoTime.getyear.
  destruct (digit_char_digit a Ha) as (-> & -> & _).
  destruct (digit_char_digit b Hb) as (-> & -> & _).
  destruct (digit_char_digit c Hc) as (-> & -> & _).
  destruct (digit_char_digit d Hd) as (-> & -> & _). reflexivity.
Qed.

Lemma Parse_date_string y m d :
  valid_date y m d ->
  GoTime.Parse_20060102 (date_string y m d)
  = Some {| year := y; month := m; day := d |}.
Proof.
  intros (Hy & Hm & Hd). pose proof (daysIn_le m y) as H31.
  unfold GoTime.Parse_20060102, date_string. cbv zeta.
  rewrite getyear_digits by (Z.div_mod_to_equations; lia).
  rewrite getnum2_digits by (Z.div_mod_to_equations; lia).
  replace (((y / 1000 * 10 + y / 100 mod 10) * 10 + y / 10 mod 10) * 10 + y mod 10)
    with y by (Z.div_mod_to_equations; lia).
  replace (m / 10 * 10 + m mod 10) with m by (Z.div_mod_to_equations; lia).
  destruct (Z.leb_spec m 0); [lia|]. destruct (Z.ltb_spec 12 m); [lia|].
  cbn [orb].
  rewrite getnum2_digits by (Z.div_mod_to_equations; lia).
  replace (d / 10 * 10 + d mod 10) with d by (Z.div_mod_to_equations; lia).
  destruct (Z.ltb_spec d 1); [lia|].
  destruct (Z.ltb_spec (GoTime.daysIn m y) d); [lia|]. reflexivity.
Qed.

Lemma substring_prefix (a b : string) :
  String.substring 0 (String.length a) (a ++ b) = a.
Proof.
  induction a as [|c a IH]; simpl.
  - destruct b; reflexivity.
  - rewrite IH. reflexivity.
Qed.


(** *** Error returns *)

Lemma step_return st tok e :
  step st tok = Return e <->
  exists data, tok = CharData data /\ next st = transDatePosted
               /\ date_error (GoStrings.TrimSpace data) = Some e.
Proof.
  split.
  - destruct tok as [name|data|name|]; simpl.
    + unfold on_start. destruct (stackPos st <? length (stack st))%nat; [|discriminate].
      destruct (dispatch name (next st) (trans st)); discriminate.
    + intros H. exists data. split; [reflexivity|]. revert H.
      unfold on_chardata, date_error, store_ofx, store_trans, no_store.
      destruct (next st); destruct (trans st);
        repeat match goal with
               | |- context [if ?b then _ else _] => destruct b
               | |- context [match ?x with Some _ => _ | None => _ end] => destruct x
               end;
        intros H; inversion H; subst; auto.
    + unfold on_end.
      assert (U : forall pos o tr,
                 unwind name (stack st) pos o tr <> Return e).
      { induction pos as [|p IH]; intros o tr; simpl; [discriminate|].
        destruct (stack st !! p) as [top|]; [|discriminate].
        destruct (String.eqb top "STMTTRN"); destruct (String.eqb top name);
          try discriminate; apply IH. }
      destruct (unwind name (stack st) (stackPos st) (ofx st) (trans st))
        as [[[p o] tr]| |] eqn:E; try discriminate.
      intros H; inversion H; subst. exfalso. exact (U _ _ _ E).
    + discriminate.
  - intros (data & -> & Hn & He). simpl. unfold on_chardata. rewrite Hn.
    unfold date_error in He.
    destruct (String.length (GoStrings.TrimSpace data) <? 8)%nat.
    + inversion He; reflexivity.
    + destruct (GoTime.Parse_20060102 _); [discriminate|]. inversion He; reflexivity.
Qed.

Lemma run_return toks : forall st e,
  run st toks = Return e <->
  exists pre tok post st1,
    toks = (pre ++ tok :: post)%list /\ run st pre = Continue st1
    /\ step st1 tok = Return e.
Proof.
  induction toks as [|tok toks IH]; intros st e; simpl.
  - split; [discriminate|]. intros (pre & t & post & st1 & H & _).
    destruct pre; discriminate.
  - split.
    + destruct (step st tok) as [st1| |] eqn:E; try discriminate.
      * intros H. apply IH in H as (pre & t & post & st2 & -> & R & S).
        exists (tok :: pre), t, post, st2. simpl. rewrite E. auto.
      * intros H; inversion H; subst. exists [], tok, toks, st. auto.
    + intros (pre & t & post & st1 & H & R & S).
      destruct pre as [|a pre]; simpl in H; inversion H; subst; clear H.
      * simpl in R. inversion R; subst. rewrite S. reflexivity.
      * simpl in R. destruct (step st a) as [st2| |]; try discriminate.
        apply IH. exists pre, t, post, st1. auto.
Qed.

Lemma NewDecial_syntax_error s :
  snd (GoStrconv.ParseFloat s) = Some GoStrconv.ErrSyntax -> NewDecial s = 0.
Proof.
  unfold NewDecial, GoStrconv.ParseFloat.
  destruct (GoStrconv.special s); [discriminate|].
  destruct (GoStrconv.readFloat s) as [n|]; [|reflexivity].
  destruct (GoStrconv.number_value n); discriminate.
Qed.

Import Float64.

(** ** Rounding to binary64 *)

(** On the sample values, multiplication and division agree with [SFmul] and
    [SFdiv] of the Standard Library at precision 53, and every result is a
    valid binary64 number. *)
Example mul_agrees_with_SFmul :
  forallb (fun xy => same_float (mul (fst xy) (snd xy))
                       (SFmul prec emax (fst xy) (snd xy)))
    float_sample_pairs = true.
Proof. vm_compute. reflexivity. Qed.

Example div_agrees_with_SFdiv :
  forallb (fun xy => same_float (div (fst xy) (snd xy))
                       (SFdiv prec emax (fst xy) (snd xy)))
    float_sample_pairs = true.
Proof. vm_compute. reflexivity. Qed.

Example results_are_valid_binary64 :
  forallb (SpecFloat.valid_binary prec emax)
    (float_samples
     ++ List.map (fun xy => mul (fst xy) (snd xy)) float_sample_pairs
     ++ List.map (fun xy => div (fst xy) (snd xy)) float_sample_pairs) = true.
Proof. vm_compute. reflexivity. Qed.

(** The spec's caveat on one value: "0.29" is read as the binary64 number
    just below 0.29, and its product with 100 is below 29. *)
Example parse_0_29 :
  fst (GoStrconv.ParseFloat "0.29") = S754_finite false 5224175567749775 (-54)
  /\ mul (fst (GoStrconv.ParseFloat "0.29")) hundred
     = S754_finite false 8162774324609023 (-48)
  /\ 8162774324609023 < 29 * 2 ^ 48.
Proof. vm_compute. auto. Qed.

Lemma div_nearest_even_bounds N D :
  0 < D -> - D <= 2 * (div_nearest_even N D * D - N) <= D.
Proof.
  intros HD. unfold div_nearest_even.
  pose proof (Z.div_mod N D ltac:(lia)) as E.
  pose proof (Z.mod_pos_bound N D HD) as B.
  destruct (Z.compare_spec (2 * (N mod D)) D) as [H|H|H];
    [destruct (Z.even (N / D))| |]; nia.
Qed.

Lemma div_nearest_even_unique N D q :
  0 < D -> - D < 2 * (q * D - N) < D -> div_nearest_even N D = q.
Proof.
  intros HD Hq. pose proof (div_nearest_even_bounds N D HD) as Hm.
  set (m := div_nearest_even N D) in *. nia.
Qed.

(** The exponent chosen for a value below [2^52] and not below [2^-1001]. *)
Lemma round_exp_spec n d :
  0 < n -> 0 < d -> n < d * 2 ^ 52 -> d <= n * 2 ^ 1000 ->
  exists k, 1 <= k <= 1074 /\ round_exp n d = - k
            /\ d * 2 ^ 52 <= n * 2 ^ k < d * 2 ^ 53.
Proof.
  intros Hn Hd Hlt Hge.
  pose proof (Z.log2_spec n Hn) as [Ln1 Ln2].
  pose proof (Z.log2_spec d Hd) as [Ld1 Ld2].
  pose proof (Z.log2_nonneg n) as Ln0. pose proof (Z.log2_nonneg d) as Ld0.
  set (ln := Z.log2 n) in *. set (ld := Z.log2 d) in *.
  rewrite Z.pow_succ_r in Ln2, Ld2 by lia.
  assert (Hj : 0 <= ld + 52 - ln).
  { destruct (Z.le_gt_cases 0 (ld + 52 - ln)) as [|Hneg]; [assumption|exfalso].
    assert (2 ^ (ld + 53) <= 2 ^ ln) by (apply Z.pow_le_mono_r; lia).
    rewrite Z.pow_add_r in H by lia. change (2 ^ 53) with (2 * 2 ^ 52) in H. nia. }
  set (j := ld + 52 - ln) in *.
  assert (HAJ : 2 ^ ln * 2 ^ j = 2 ^ ld * 2 ^ 52).
  { rewrite <- !Z.pow_add_r by lia. f_equal. unfold j. lia. }
  assert (HJ : 0 < 2 ^ j) by (apply Z.pow_pos_nonneg; lia).
  assert (Hup : n * 2 ^ j < d * 2 ^ 53).
  { change (2 ^ 53) with (2 * 2 ^ 52). nia. }
  assert (Hlo : d * 2 ^ 52 < n * 2 ^ (j + 1)).
  { rewrite Z.pow_add_r by lia. change (2 ^ 1) with 2. nia. }
  assert (Hk : forall k, 0 <= k -> n * 2 ^ k < d * 2 ^ 53 -> k <= 1074).
  { intros k Hk0 Hk. destruct (Z.le_gt_cases k 1074) as [|Hbig]; [assumption|exfalso].
    assert (2 ^ 1075 <= 2 ^ k) by (apply Z.pow_le_mono_r; lia).
    change (2 ^ 1075) with (2 ^ 1000 * (2 ^ 53 * 2 ^ 22)) in H.
    assert (0 < 2 ^ 1000) by (apply Z.pow_pos_nonneg; lia).
    assert (0 < 2 ^ 53) by (apply Z.pow_pos_nonneg; lia).
    assert (0 < 2 ^ 22) by (apply Z.pow_pos_nonneg; lia).
    nia. }
  unfold round_exp. fold ln ld.
  replace (ln - ld - 52) with (- j) by (unfold j; lia).
  assert (Hsc : exists N D, scaled n d (- j) = (N, D)
                            /\ ((N <? D * 2 ^ 52) = (n * 2 ^ j <? d * 2 ^ 52))).
  { unfold scaled. destruct (Z.leb_spec 0 (- j)).
    - assert (j = 0) by lia. exists n, (d * 2 ^ (- j)). split; [reflexivity|].
      replace (- j) with 0 by lia. rewrite H0. f_equal; simpl; lia.
    - exists (n * 2 ^ (- - j)), d. split; [reflexivity|].
      rewrite Z.opp_involutive. reflexivity. }
  destruct Hsc as (N & D & -> & ->).
  destruct (Z.ltb_spec (n * 2 ^ j) (d * 2 ^ 52)) as [Hc|Hc].
  - exists (j + 1).
    assert (Hup' : n * 2 ^ (j + 1) < d * 2 ^ 53).
    { rewrite Z.pow_add_r by lia. change (2 ^ 1) with 2.
      change (2 ^ 53) with (2 * 2 ^ 52). lia. }
    pose proof (Hk (j + 1) ltac:(lia) Hup'). repeat split; try lia.
  - exists j. pose proof (Hk j Hj Hup).
    assert (j <> 0) by (intros ->; simpl in Hc; lia).
    repeat split; try lia.
Qed.

Lemma has_value_equiv x s a b a' b' :
  has_value x s a b -> 0 < b -> a * b' = a' * b -> has_value x s a' b'.
Proof.
  intros (p & e & -> & He & Hv) Hb Hab. exists p, e. repeat split; auto.
  apply (Z.mul_reg_r _ _ b); [lia|].
  replace (Z.pos p * b' * b) with (Z.pos p * b * b') by ring.
  rewrite Hv. replace (a * 2 ^ (- e) * b') with (a * b' * 2 ^ (- e)) by ring.
  rewrite Hab. ring.
Qed.

(** Rounding a positive rational below [2^52]: the result is the nearest
    multiple [m / 2^k] of the unit in the last place. *)
Lemma round_ne_value s n d :
  0 < n -> 0 < d -> n < d * 2 ^ 52 -> d <= n * 2 ^ 1000 ->
  exists k m,
    1 <= k <= 1074 /\ has_value (round_ne s n d) s m (2 ^ k)
    /\ d * 2 ^ 52 <= n * 2 ^ k < d * 2 ^ 53
    /\ - d <= 2 * (m * d - n * 2 ^ k) <= d.
Proof.
  intros Hn Hd Hlt Hge.
  destruct (round_exp_spec n d Hn Hd Hlt Hge) as (k & Hk & He & Hnorm).
  pose proof (div_nearest_even_bounds (n * 2 ^ k) d Hd) as Hm.
  set (m := div_nearest_even (n * 2 ^ k) d) in *.
  exists k, m. split; [exact Hk|]. split; [|split; assumption].
  assert (Hm52 : 2 ^ 52 <= m <= 2 ^ 53).
  { change (2 ^ 53) with (2 * 2 ^ 52) in *. nia. }
  unfold round_ne. destruct (Z.eqb_spec n 0); [lia|].
  unfold round_pos. rewrite He. unfold scaled.
  destruct (Z.leb_spec 0 (- k)); [lia|]. rewrite Z.opp_involutive. fold m.
  unfold of_rounded. destruct (Z.eqb_spec m (2 ^ 53)) as [E|E]; cbn [fst snd].
  - change (2 ^ 52) with (Zpos 4503599627370496).
    destruct (Z.ltb_spec 971 (- k + 1)); [lia|].
    exists 4503599627370496%positive, (- k + 1). repeat split; [lia|].
    rewrite E. replace (- (- k + 1)) with (k - 1) by lia.
    replace (2 ^ k) with (2 * 2 ^ (k - 1)) by (rewrite <- Z.pow_succ_r by lia; f_equal; lia).
    change (2 ^ 53) with (Zpos 4503599627370496 * 2). lia.
  - destruct m as [|p|p]; try (change (2 ^ 52) with 4503599627370496 in Hm52; lia).
    destruct (Z.ltb_spec 971 (- k)); [lia|].
    exists p, (- k). repeat split; [lia|]. rewrite Z.opp_involutive. reflexivity.
Qed.

(** [float64(i)] is exact below [2^52]. *)
Lemma of_int_value i :
  0 < i < 2 ^ 52 ->
  has_value (of_int i) false i 1 /\ has_value (of_int (- i)) true i 1.
Proof.
  intros Hi.
  assert (H : forall s, has_value (round_ne s i 1) s i 1).
  { intros s.
    assert (H1000 : 1 <= i * 2 ^ 1000).
    { assert (0 < 2 ^ 1000) by (apply Z.pow_pos_nonneg; lia). nia. }
    destruct (round_ne_value s i 1 ltac:(lia) ltac:(lia) ltac:(lia) H1000)
      as (k & m & Hk & Hv & Hnorm & Herr).
    assert (0 < 2 ^ k) by (apply Z.pow_pos_nonneg; lia).
    apply (has_value_equiv _ _ _ _ i 1 Hv); lia. }
  unfold of_int. split.
  - destruct (Z.ltb_spec i 0); [lia|]. rewrite Z.abs_eq by lia. apply H.
  - destruct (Z.ltb_spec (- i) 0); [|lia]. rewrite Z.abs_neq by lia.
    rewrite Z.opp_involutive. apply H.
Qed.

Lemma hundred_eq : hundred = S754_finite false 7036874417766400 (-46).
Proof. vm_compute. reflexivity. Qed.

(** [x * 100] rounds the exact product. *)
Lemma mul_hundred_value x s num den :
  has_value x s num den -> 0 < den ->
  exists N D, mul x hundred = round_ne s N D /\ 0 < D
              /\ N * den = 100 * num * D.
Proof.
  intros (p & e & -> & He & Hv) Hden. rewrite hundred_eq.
  cbn [mul]. rewrite xorb_false_r. unfold round_scaled, scaled.
  destruct (Z.leb_spec 0 (- (e + -46))); [|lia].
  eexists _, _. split; [reflexivity|].
  assert (0 < 2 ^ (- (e + -46))) by (apply Z.pow_pos_nonneg; lia).
  split; [lia|].
  replace (- (e + -46)) with (- e + 46) by lia. rewrite Z.pow_add_r by lia.
  change (2 ^ 46) with 70368744177664.
  change (Zpos 7036874417766400) with (100 * 70368744177664). nia.
Qed.

(** [x / 100] rounds the exact quotient. *)
Lemma div_hundred_value x s num den :
  has_value x s num den -> 0 < den ->
  exists N D, div x hundred = round_ne s N D /\ 0 < D
              /\ N * den * 100 = num * D.
Proof.
  intros (p & e & -> & He & Hv) Hden. rewrite hundred_eq.
  cbn [div]. rewrite xorb_false_r. unfold round_scaled, scaled.
  assert (0 < 2 ^ (- e)) by (apply Z.pow_pos_nonneg; lia).
  destruct (Z.leb_spec 0 (- (e - -46))).
  - eexists _, _. split; [reflexivity|].
    assert (0 < 2 ^ (- (e - -46))) by (apply Z.pow_pos_nonneg; lia).
    split; [lia|].
    assert (E : 2 ^ (- e) = 2 ^ (- (e - -46)) * 2 ^ 46).
    { rewrite <- Z.pow_add_r by lia. f_equal. lia. }
    change (2 ^ 46) with 70368744177664 in E.
    change (Zpos 7036874417766400) with (100 * 70368744177664). nia.
  - eexists _, _. split; [reflexivity|]. split; [lia|].
    rewrite Z.opp_involutive.
    assert (E : 2 ^ (- e) * 2 ^ (e - -46) = 2 ^ 46).
    { rewrite <- Z.pow_add_r by lia. f_equal. lia. }
    change (2 ^ 46) with 70368744177664 in E.
    assert (0 < 2 ^ (e - -46)) by (apply Z.pow_pos_nonneg; lia).
    change (Zpos 7036874417766400) with (100 * 70368744177664). nia.
Qed.

(** A value [n/d = c/100] below [2^50] hundredths, rounded: the unit in the
    last place is below [1/400], and the mantissa is within [50] of
    [c * 2^k / 100 * 100]. *)
Lemma hundredths_rounded s n d c :
  1 <= c < 2 ^ 50 -> 0 < n -> 0 < d -> n * 100 = c * d ->
  exists k m,
    has_value (round_ne s n d) s m (2 ^ k)
    /\ 400 < 2 ^ k /\ - 50 <= 100 * m - c * 2 ^ k <= 50.
Proof.
  intros Hc Hn Hd Hcd. change (2 ^ 50) with 1125899906842624 in Hc.
  assert (H1 : n < d * 2 ^ 52) by (change (2 ^ 52) with 4503599627370496; nia).
  assert (H2 : d <= n * 2 ^ 1000).
  { assert (100 <= 2 ^ 1000) by (vm_compute; discriminate). nia. }
  destruct (round_ne_value s n d Hn Hd H1 H2) as (k & m & Hk & Hv & Hnorm & Herr).
  exists k, m. split; [exact Hv|].
  assert (HA : 0 < 2 ^ k) by (apply Z.pow_pos_nonneg; lia).
  set (A := 2 ^ k) in *. change (2 ^ 52) with 4503599627370496 in Hnorm.
  split.
  - assert (100 * 4503599627370496 * d <= c * A * d) by nia.
    assert (100 * 4503599627370496 <= c * A) by nia. nia.
  - assert (- (100 * d) <= 2 * (100 * m - c * A) * d <= 100 * d) by nia.
    split; nia.
Qed.

(** The amount [NewDecial] computes from the rounded value of [c/100]: [c]
    hundredths, or one less. *)
Lemma to_int64_hundredths s n d c :
  1 <= c < 2 ^ 50 -> 0 < n -> 0 < d -> n * 100 = c * d ->
  exists c', (c' = c \/ c' = c - 1)
             /\ to_int64 (mul (round_ne s n d) hundred) = (if s then - c' else c').
Proof.
  intros Hc Hn Hd Hcd.
  destruct (hundredths_rounded s n d c Hc Hn Hd Hcd) as (k1 & m1 & Hv1 & HA1 & He1).
  change (2 ^ 50) with 1125899906842624 in Hc.
  assert (HA1' : 0 < 2 ^ k1) by lia.
  destruct (mul_hundred_value _ _ _ _ Hv1 HA1') as (N & D & -> & HD & HN).
  set (A := 2 ^ k1) in *.
  assert (HNpos : 0 < N) by nia.
  assert (H1 : N < D * 2 ^ 52).
  { change (2 ^ 52) with 4503599627370496.
    assert (N * A < D * 4503599627370496 * A) by nia. nia. }
  assert (H2 : D <= N * 2 ^ 1000).
  { assert (2 <= 2 ^ 1000) by (vm_compute; discriminate).
    assert (D * A <= 2 * (N * A)) by nia.
    assert (D <= 2 * N) by nia. nia. }
  destruct (round_ne_value s N D HNpos HD H1 H2)
    as (k2 & m2 & Hk2 & (p & e & -> & He & Hp) & Hnorm2 & Herr2).
  assert (HB : 0 < 2 ^ k2) by (apply Z.pow_pos_nonneg; lia).
  assert (HE : 0 < 2 ^ (- e)) by (apply Z.pow_pos_nonneg; lia).
  set (B := 2 ^ k2) in *. set (E := 2 ^ (- e)) in *.
  (* the mantissa of the product against [c] *)
  assert (Hm2 : (c - 1) * B <= m2 < (c + 1) * B).
  { assert (- (D * A) <= 2 * (m2 * A - 100 * m1 * B) * D <= D * A) by nia.
    assert (- A <= 2 * (m2 * A - 100 * m1 * B) <= A) by nia.
    assert (- (50 * B) <= (100 * m1 - c * A) * B <= 50 * B) by nia.
    split; nia. }
  assert (HpE : (c - 1) * E <= Zpos p < (c + 1) * E).
  { assert ((c - 1) * E * B <= Zpos p * B < (c + 1) * E * B) by nia.
    split; nia. }
  cbn [to_int64].
  assert (Ha : exists a, (if 0 <=? e then Zpos p * 2 ^ e else Zpos p / 2 ^ (- e)) = a
                         /\ (a = c \/ a = c - 1)).
  { destruct (Z.leb_spec 0 e).
    - assert (e = 0) by lia. subst e. change (2 ^ 0) with 1 in *.
      unfold E in HpE. simpl in HpE. eexists. split; [reflexivity|]. lia.
    - fold E. exists (Zpos p / E). split; [reflexivity|].
      assert (c - 1 <= Zpos p / E) by (apply Z.div_le_lower_bound; lia).
      assert (Zpos p / E < c + 1) by (apply Z.div_lt_upper_bound; lia).
      lia. }
  destruct Ha as (a & -> & Ha). exists a. split; [tauto|].
  assert (Hr : forall i, - c <= i <= c -> (- 2 ^ 63 <=? i) && (i <? 2 ^ 63) = true).
  { intros i Hi. apply andb_true_iff. split; [apply Z.leb_le | apply Z.ltb_lt];
      change (2 ^ 63) with 9223372036854775808; lia. }
  destruct s; rewrite Hr by lia; reflexivity.
Qed.

(** [Decimal.String] prints an amount below [2^50] hundredths exactly. *)
Lemma Decimal_String_hundredths (s : bool) (c i : Z) :
  1 <= c < 2 ^ 50 -> i = (if s then - c else c) ->
  Decimal_String i = GoFmt.cents_string s c.
Proof.
  intros Hc ->. unfold Decimal_String. cbv zeta.
  assert (Hv : has_value (of_int (if s then - c else c)) s c 1).
  { assert (0 < c < 2 ^ 52) by (change (2 ^ 50) with 1125899906842624 in Hc;
                                change (2 ^ 52) with 4503599627370496; lia).
    destruct s; apply of_int_value; assumption. }
  destruct (div_hundred_value _ _ _ _ Hv Z.lt_0_1) as (N & D & -> & HD & HN).
  assert (HNpos : 0 < N) by nia.
  destruct (hundredths_rounded s N D c Hc HNpos HD ltac:(lia))
    as (k & m & (p & e & -> & He & Hp) & HA & Herr).
  cbn [GoFmt.Sprintf_2f]. unfold scaled.
  destruct (Z.leb_spec 0 (- e)); [|lia].
  f_equal. apply div_nearest_even_unique.
  - assert (0 < 2 ^ (- e)) by (apply Z.pow_pos_nonneg; lia). lia.
  - assert (HE : 0 < 2 ^ (- e)) by (apply Z.pow_pos_nonneg; lia).
    set (A := 2 ^ k) in *. set (E := 2 ^ (- e)) in *.
    assert (- (50 * E) <= (100 * Zpos p - c * E) * A <= 50 * E) by nia.
    split; nia.
Qed.

(** *** Reading a decimal string *)

Lemma digit_char_byte d : digit d -> byte_of (GoFmt.digit_char d) = 48 + d.
Proof. intros H. unfold GoFmt.digit_char. apply byte_of_chr. unfold digit in H. lia. Qed.

Lemma lower_digit d : digit d -> GoStrconv.lower (GoFmt.digit_char d) = 48 + d.
Proof.
  intros H. unfold GoStrconv.lower. rewrite digit_char_byte by exact H.
  unfold digit in H.
  assert (E : d = 0 \/ d = 1 \/ d = 2 \/ d = 3 \/ d = 4 \/ d = 5 \/ d = 6
              \/ d = 7 \/ d = 8 \/ d = 9) by lia.
  repeat destruct E as [->|E]; try subst d; reflexivity.
Qed.

Lemma scan_digits ds : forall st rest,
  Forall digit ds ->
  GoStrconv.scan_mantissa 10 st (digits_string ds ++ rest)
  = GoStrconv.scan_mantissa 10 (add_digits st ds) rest.
Proof.
  induction ds as [|d ds IH]; intros st rest Hds; [reflexivity|].
  inversion Hds as [|? ? Hd Hds']; subst.
  cbn [digits_string String.append GoStrconv.scan_mantissa].
  unfold isDigit, digit_val. rewrite digit_char_byte by exact Hd.
  unfold digit in Hd.
  destruct (Z.eqb_spec (48 + d) 95); [lia|].
  destruct (Z.eqb_spec (48 + d) 46); [lia|].
  destruct (Z.leb_spec 48 (48 + d)); [|lia].
  destruct (Z.leb_spec (48 + d) 57); [|lia].
  cbn [andb]. replace (48 + d - 48) with d by lia.
  apply IH. exact Hds'.
Qed.

Lemma add_digits_fields ds : forall st,
  GoStrconv.m_val (add_digits st ds) = digits_value (GoStrconv.m_val st) ds
  /\ GoStrconv.m_sawdot (add_digits st ds) = GoStrconv.m_sawdot st
  /\ GoStrconv.m_underscores (add_digits st ds) = GoStrconv.m_underscores st
  /\ GoStrconv.m_frac (add_digits st ds)
     = (if GoStrconv.m_sawdot st
        then GoStrconv.m_frac st + Z.of_nat (length ds)
        else GoStrconv.m_frac st)
  /\ GoStrconv.m_sawdigits (add_digits st ds)
     = (match ds with [] => GoStrconv.m_sawdigits st | _ => true end).
Proof.
  induction ds as [|d ds IH]; intros st.
  - simpl. destruct (GoStrconv.m_sawdot st); repeat split; lia.
  - cbn [add_digits fold_left]. fold (add_digits (GoStrconv.add_digit 10 st d) ds).
    destruct (IH (GoStrconv.add_digit 10 st d)) as (H1 & H2 & H3 & H4 & H5).
    rewrite H1, H2, H3, H4, H5. cbn.
    destruct (GoStrconv.m_sawdot st); destruct ds; repeat split; cbn [length]; lia.
Qed.

Lemma digits_value_app a : forall acc b,
  digits_value acc (a ++ b) = digits_value (digits_value acc a) b.
Proof. induction a as [|d a IH]; intros acc b; simpl; auto. Qed.

(** The mantissa of a decimal string: all its digits, and the count of those
    after the point. *)
Lemma scan_decimal ip fp :
  Forall digit ip -> Forall digit fp -> ip <> [] ->
  exists st,
    GoStrconv.scan_mantissa 10 GoStrconv.mantissa0
      (digits_string ip
       ++ match fp with [] => "" | _ => String "." (digits_string fp) end)
    = (st, EmptyString)
    /\ GoStrconv.m_val st = digits_value 0 (ip ++ fp)
    /\ GoStrconv.m_frac st = Z.of_nat (length fp)
    /\ GoStrconv.m_sawdigits st = true
    /\ GoStrconv.m_underscores st = false.
Proof.
  intros Hip Hfp Hne.
  rewrite scan_digits by exact Hip.
  destruct (add_digits_fields ip GoStrconv.mantissa0) as (V & Dt & U & F & S).
  cbn in V, Dt, U, F.
  assert (S' : GoStrconv.m_sawdigits (add_digits GoStrconv.mantissa0 ip) = true).
  { rewrite S. destruct ip; [contradiction|reflexivity]. }
  set (st1 := add_digits GoStrconv.mantissa0 ip) in *.
  destruct fp as [|f fp].
  - exists st1. cbn. rewrite app_nil_r. auto.
  - cbn [GoStrconv.scan_mantissa].
    change (byte_of "." =? 95) with false. change (byte_of "." =? 46) with true.
    cbv iota. rewrite Dt.
    set (st2 := {| GoStrconv.m_val := _ |}).
    pose proof (scan_digits (f :: fp) st2 "" Hfp) as E.
    assert (Hnil : forall s : string, (s ++ "")%string = s)
      by (induction s; simpl; congruence).
    rewrite Hnil in E. rewrite E.
    destruct (add_digits_fields (f :: fp) st2) as (V2 & Dt2 & U2 & F2 & S2).
    exists (add_digits st2 (f :: fp)). split; [reflexivity|].
    rewrite V2, U2, F2, S2. unfold st2; cbn [GoStrconv.m_val GoStrconv.m_sawdot
      GoStrconv.m_frac GoStrconv.m_underscores].
    rewrite V, U, F, digits_value_app. repeat split; lia.
Qed.

Lemma ascii_eqb_bytes (a b : ascii) :
  byte_of a <> byte_of b -> Ascii.eqb a b = false.
Proof. intros H. apply Ascii.eqb_neq. intros ->. apply H. reflexivity. Qed.

(** A string that starts with a digit is none of "inf", "infinity", "nan". *)
Lemma no_special_word d rest :
  digit d ->
  GoStrconv.is_inf_word (String (GoFmt.digit_char d) rest) = false
  /\ String.eqb (GoStrconv.fold_case (String (GoFmt.digit_char d) rest)) "nan" = false.
Proof.
  intros Hd. unfold GoStrconv.is_inf_word. cbn [GoStrconv.fold_case].
  assert (E : GoStrconv.fold_AZ (GoFmt.digit_char d) = GoFmt.digit_char d).
  { unfold GoStrconv.fold_AZ. rewrite digit_char_byte by exact Hd.
    unfold digit in Hd. destruct (Z.leb_spec 65 (48 + d)); [lia|]. reflexivity. }
  rewrite E. cbn [String.eqb].
  unfold digit in Hd.
  rewrite (ascii_eqb_bytes (GoFmt.digit_char d) "i")
    by (rewrite digit_char_byte by exact Hd; change (byte_of "i") with 105; lia).
  rewrite (ascii_eqb_bytes (GoFmt.digit_char d) "n")
    by (rewrite digit_char_byte by exact Hd; change (byte_of "n") with 110; lia).
  split; reflexivity.
Qed.

Lemma special_decimal sg ip fp :
  Forall digit ip -> ip <> [] ->
  GoStrconv.special (decimal_string sg ip fp) = None.
Proof.
  intros Hip Hne. destruct ip as [|a ip]; [contradiction|].
  inversion Hip as [|? ? Ha _]; subst.
  unfold decimal_string. cbn [digits_string String.append].
  set (rest := (digits_string ip ++ _)%string).
  destruct (no_special_word a rest Ha) as [Hinf Hnan].
  destruct sg; cbn [sign_string String.append GoStrconv.special].
  - rewrite digit_char_byte by exact Ha. unfold digit in Ha.
    destruct (Z.eqb_spec (48 + a) 43); [lia|].
    destruct (Z.eqb_spec (48 + a) 45); [lia|]. cbn [orb].
    rewrite Hinf, Hnan. reflexivity.
  - change ((byte_of "+" =? 43) || (byte_of "+" =? 45)) with true. cbv iota.
    rewrite Hinf. reflexivity.
  - change ((byte_of "-" =? 43) || (byte_of "-" =? 45)) with true. cbv iota.
    rewrite Hinf. reflexivity.
Qed.

Lemma read_sign_decimal sg ip fp :
  Forall digit ip -> ip <> [] ->
  GoStrconv.read_sign (decimal_string sg ip fp)
  = (is_minus sg,
     (digits_string ip
      ++ match fp with [] => "" | _ => String "." (digits_string fp) end)%string).
Proof.
  intros Hip Hne. destruct ip as [|a ip]; [contradiction|].
  inversion Hip as [|? ? Ha _]; subst.
  unfold decimal_string. destruct sg; try reflexivity.
  cbn [sign_string digits_string String.append GoStrconv.read_sign].
  rewrite digit_char_byte by exact Ha. unfold digit in Ha.
  destruct (Z.eqb_spec (48 + a) 43); [lia|].
  destruct (Z.eqb_spec (48 + a) 45); [lia|]. reflexivity.
Qed.

Lemma read_prefix_decimal ip fp :
  Forall digit ip -> ip <> [] ->
  GoStrconv.read_prefix
    (digits_string ip
     ++ match fp with [] => "" | _ => String "." (digits_string fp) end)
  = (false, (digits_string ip
             ++ match fp with [] => "" | _ => String "." (digits_string fp) end)%string).
Proof.
  intros Hip Hne. destruct ip as [|a ip]; [contradiction|].
  inversion Hip as [|? ? Ha Hip']; subst.
  cbn [digits_string String.append]. unfold GoStrconv.read_prefix.
  destruct ip as [|b ip]; cbn [digits_string String.append].
  - destruct fp as [|f fp]; [reflexivity|].
    destruct (digits_string (f :: fp)); [reflexivity|].
    change (GoStrconv.lower "." =? 120) with false.
    rewrite andb_false_r. reflexivity.
  - inversion Hip' as [|? ? Hb _]; subst.
    destruct (digits_string ip ++ _)%string; [reflexivity|].
    rewrite lower_digit by exact Hb. unfold digit in Hb.
    destruct (Z.eqb_spec (48 + b) 120); [lia|].
    rewrite andb_false_r. reflexivity.
Qed.

(** What [readFloat] reads from a decimal string. *)
Lemma readFloat_decimal sg ip fp :
  Forall digit ip -> Forall digit fp -> ip <> [] ->
  GoStrconv.readFloat (decimal_string sg ip fp)
  = Some {| GoStrconv.r_neg := is_minus sg; GoStrconv.r_hex := false;
            GoStrconv.r_mant := digits_value 0 (ip ++ fp);
            GoStrconv.r_exp := - Z.of_nat (length fp) |}.
Proof.
  intros Hip Hfp Hne. unfold GoStrconv.readFloat.
  rewrite read_sign_decimal, read_prefix_decimal by assumption.
  destruct (scan_decimal ip fp Hip Hfp Hne) as (st & -> & V & F & S & U).
  rewrite S. cbn [negb GoStrconv.read_exponent GoStrconv.read_finish].
  rewrite U, V, F. cbn [andb]. f_equal. f_equal. lia.
Qed.

(** The value of a decimal string: its digits over a power of ten, rounded. *)
Lemma ParseFloat_decimal sg ip fp :
  Forall digit ip -> Forall digit fp -> ip <> [] ->
  fst (GoStrconv.ParseFloat (decimal_string sg ip fp))
  = match fp with
    | [] => round_ne (is_minus sg) (digits_value 0 (ip ++ fp) * 10 ^ 0) 1
    | _ => round_ne (is_minus sg) (digits_value 0 (ip ++ fp))
             (10 ^ Z.of_nat (length fp))
    end.
Proof.
  intros Hip Hfp Hne. unfold GoStrconv.ParseFloat.
  rewrite special_decimal, readFloat_decimal by assumption.
  set (v := GoStrconv.number_value _).
  transitivity v; [destruct v; reflexivity|].
  unfold v, GoStrconv.number_value.
  cbn [GoStrconv.r_hex GoStrconv.r_exp GoStrconv.r_neg GoStrconv.r_mant].
  destruct fp as [|f fp]; [reflexivity|].
  destruct (Z.leb_spec 0 (- Z.of_nat (length (f :: fp)))) as [H|H];
    [cbn [length] in H; lia|].
  rewrite Z.opp_involutive. reflexivity.
Qed.

Lemma digits_value_nonneg ds : forall acc,
  Forall digit ds -> 0 <= acc -> acc <= digits_value acc ds.
Proof.
  induction ds as [|d ds IH]; intros acc Hds Hacc; simpl; [lia|].
  inversion Hds as [|? ? Hd Hds']; subst. unfold digit in Hd.
  specialize (IH (acc * 10 + d) Hds' ltac:(lia)). lia.
Qed.

(** * The claims *)

(** ** C1: closing-tag resolution *)

(** C1.  For every end-of-element event the parser pops the open-element path
    from the top until an entry equal to the end tag's name has been popped,
    or the path is empty; on each pass where the top entry is the transaction
    marker it appends the current transaction to the transaction list and
    clears the holder.  This is the resolution of section 4.2 ([resolve]).
    In particular a transaction block whose [FITID] has no closing tag, its
    text directly followed by sibling start tags and at last by the
    transaction's own end tag, adds exactly one entry to the list, and that
    entry carries the trimmed [FITID] text. *)
Theorem C1_end_tag_unwind :
  (forall st name, wf st ->
     exists st' popped,
       step st (EndElement name) = Continue st'
       /\ path st = (popped ++ path st')%list
       /\ ((exists before, popped = (before ++ [name])%list /\ ~ In name before)
           \/ (~ In name (path st) /\ path st' = []))
       /\ ofx st' = set_Transactions
                      (Transactions (ofx st) ++ flushed popped (trans st)) (ofx st)
       /\ trans st' = holder_after popped (trans st)
       /\ (path st', Transactions (ofx st'), trans st')
          = resolve name (path st) (Transactions (ofx st)) (trans st)
       /\ next st' = next st)
  /\ (forall pre st0 txt fields,
        run init pre = Continue st0 ->
        (stackPos st0 + 2 + length fields <= stack_capacity)%nat ->
        forallb plain_leaf fields = true ->
        exists o t,
          Parse (pre ++ transaction_block txt fields) = Ok o
          /\ Transactions o = (Transactions (ofx st0) ++ [Some t])%list
          /\ (Transactions (ofx st0) = [] -> Transactions o = [Some t])
          /\ FitID t = GoStrings.TrimSpace txt).
Proof.
  split.
  - intros st name [Hlen Hpos].
    destruct (on_end_resolve st name ltac:(lia)) as (st' & R & P & O & T & N & _).
    destruct (resolve_popped name (path st) (Transactions (ofx st)) (trans st))
      as (popped & H1 & H2 & H3 & H4).
    exists st', popped. rewrite <- P in H1, H2. rewrite H3 in O. rewrite H4 in T.
    repeat split; try assumption.
    rewrite P, T, O. cbn [Transactions set_Transactions].
    rewrite <- H3, <- H4.
    destruct (resolve name (path st) (Transactions (ofx st)) (trans st)) as [[a b] c].
    reflexivity.
  - intros pre st0 txt fields Hpre Hroom Hplain.
    destruct (run_transaction_block st0 txt fields
                (run_wf pre init st0 init_wf Hpre) Hroom Hplain)
      as (st' & t & R & X & F & _).
    exists (ofx st'), t. unfold Parse. rewrite run_app, Hpre, R.
    repeat split; try assumption.
    intros E. rewrite X, E. reflexivity.
Qed.

(** A statement with one transaction whose [FITID] and [TRNAMT] are left
    unclosed, and whose [MEMO] is closed. *)
Lemma C1_witness :
  exists o t,
    Parse ([] ++ transaction_block " 123 "
                   [unclosed "TRNAMT" "-42.5"; closed "MEMO" "rent"]) = Ok o
    /\ Transactions o = (Transactions (ofx init) ++ [Some t])%list
    /\ (Transactions (ofx init) = [] -> Transactions o = [Some t])
    /\ FitID t = GoStrings.TrimSpace " 123 ".
Proof.
  apply (proj2 C1_end_tag_unwind [] init " 123 "
           [unclosed "TRNAMT" "-42.5"; closed "MEMO" "rent"]).
  - reflexivity.
  - apply Nat.leb_le. reflexivity.
  - reflexivity.
Defined.

(** ** C2: parsing and formatting an amount *)

(** C2, as stated, fails: "0.29" has two fractional digits and is already
    normalized, and it formats back as "0.28". *)
Lemma C2_counterexample :
  decimal_string NoSign [0] [2; 9] = "0.29"
  /\ normalized NoSign [0] [2; 9] = "0.29"
  /\ NewDecial "0.29" = 28
  /\ Decimal_String (NewDecial "0.29") = "0.28".
Proof. vm_compute. auto. Qed.

(** C2, amended.  For every decimal string with at most two fractional
    digits and a value below [2^50] hundredths, [NewDecial] yields the
    value in hundredths or, for a value that is not zero, one hundredth
    nearer to zero; and [Decimal.String] prints the amount it is given
    exactly, with two fractional digits and a leading sign if it is
    negative.  So formatting the parsed amount reproduces the normalized
    string, or the normalized string of the amount one hundredth nearer to
    zero. *)
Theorem C2_amount_round_trip (sg : sign) (ip fp : list Z) :
  Forall digit ip -> Forall digit fp -> ip <> [] -> (length fp <= 2)%nat ->
  hundredths ip fp < 2 ^ 50 ->
  exists c',
    (c' = hundredths ip fp \/ (c' = hundredths ip fp - 1 /\ 0 < hundredths ip fp))
    /\ NewDecial (decimal_string sg ip fp) = (if is_minus sg then - c' else c')
    /\ Decimal_String (NewDecial (decimal_string sg ip fp))
       = GoFmt.cents_string (is_minus sg && (0 <? c')) c'
    /\ (c' = hundredths ip fp ->
        Decimal_String (NewDecial (decimal_string sg ip fp)) = normalized sg ip fp).
Proof.
  intros Hip Hfp Hne Hlen Hlt. set (neg := is_minus sg).
  assert (HM : 0 <= digits_value 0 (ip ++ fp)).
  { apply digits_value_nonneg; [|lia]. apply Forall_app. split; assumption. }
  assert (Hzero : Decimal_String 0 = GoFmt.cents_string false 0)
    by (vm_compute; reflexivity).
  (* the amount, from the rounded value *)
  assert (Hnew : exists c',
             (c' = hundredths ip fp \/ (c' = hundredths ip fp - 1 /\ 0 < hundredths ip fp))
             /\ 0 <= c'
             /\ NewDecial (decimal_string sg ip fp) = (if neg then - c' else c')).
  { unfold NewDecial. cbv zeta. rewrite ParseFloat_decimal by assumption.
    fold neg. unfold hundredths in *. set (M := digits_value 0 (ip ++ fp)) in *.
    assert (Hcases : exists n d, 0 < d /\ n * 100 = M * 10 ^ (2 - Z.of_nat (length fp)) * d
                                 /\ (n = 0 <-> M = 0) /\ 0 <= n
                                 /\ match fp with
                                    | [] => round_ne neg (M * 10 ^ 0) 1
                                    | _ => round_ne neg M (10 ^ Z.of_nat (length fp))
                                    end = round_ne neg n d).
    { destruct fp as [|f1 [|f2 [|f3 fp]]]; cbn [length] in *.
      - exists (M * 10 ^ 0), 1. change (10 ^ 0) with 1.
        change (10 ^ (2 - Z.of_nat 0)) with 100. repeat split; lia.
      - exists M, (10 ^ Z.of_nat 1). change (10 ^ Z.of_nat 1) with 10.
        change (10 ^ (2 - Z.of_nat 1)) with 10. repeat split; lia.
      - exists M, (10 ^ Z.of_nat 2). change (10 ^ Z.of_nat 2) with 100.
        change (10 ^ (2 - Z.of_nat 2)) with 1. repeat split; lia.
      - lia. }
    destruct Hcases as (n & d & Hd & Hnd & Hn0 & Hnn & ->).
    set (c := M * 10 ^ (2 - Z.of_nat (length fp))) in *.
    assert (Hc0 : 0 <= c).
    { unfold c. apply Z.mul_nonneg_nonneg; [exact HM|]. apply Z.pow_nonneg. lia. }
    destruct (Z.eq_dec n 0) as [E|E].
    - exists 0. assert (c = 0) by (unfold c; rewrite (proj1 Hn0 E); lia).
      split; [left; lia|]. split; [lia|]. rewrite E.
      destruct neg; vm_compute; reflexivity.
    - assert (1 <= c) by nia.
      destruct (to_int64_hundredths neg n d c ltac:(lia) ltac:(lia) Hd Hnd)
        as (c' & Hc' & ->).
      exists c'. split; [|split; [lia|reflexivity]].
      destruct Hc' as [->| ->]; [left; reflexivity|right; split; [reflexivity|lia]]. }
  destruct Hnew as (c' & Hc' & Hc0 & Hnew).
  assert (Hstr : Decimal_String (NewDecial (decimal_string sg ip fp))
                 = GoFmt.cents_string (neg && (0 <? c')) c').
  { rewrite Hnew. destruct (Z.eq_dec c' 0) as [->|Hnz].
    - rewrite andb_false_r. destruct neg; exact Hzero.
    - destruct (Z.ltb_spec 0 c'); [|lia]. rewrite andb_true_r.
      apply Decimal_String_hundredths; [|reflexivity].
      destruct Hc' as [->|[-> _]]; lia. }
  exists c'. split; [exact Hc'|]. split; [exact Hnew|]. split; [exact Hstr|].
  intros ->. exact Hstr.
Qed.

(** "-42.5" is read as -4250 hundredths and printed as "-42.50". *)
Lemma C2_witness :
  NewDecial "-42.5" = - 4250 /\ Decimal_String (NewDecial "-42.5") = "-42.50".
Proof.
  assert (Hd : forall l, forallb (fun d => (0 <=? d) && (d <=? 9)) l = true ->
                         Forall digit l).
  { induction l as [|d l IH]; simpl; intros H; constructor.
    - apply andb_true_iff in H as [H _]. unfold digit. lia.
    - apply IH. apply andb_true_iff in H as [_ H]. exact H. }
  destruct (C2_amount_round_trip MinusSign [4; 2] [5]) as (c' & Hc' & Hnew & Hstr & _).
  - apply Hd. reflexivity.
  - apply Hd. reflexivity.
  - discriminate.
  - apply Nat.leb_le. reflexivity.
  - vm_compute. reflexivity.
  - change (decimal_string MinusSign [4; 2] [5]) with "-42.5" in *.
    assert (E : NewDecial "-42.5" = - 4250) by (vm_compute; reflexivity).
    split; [exact E|].
    assert (c' = 4250) by (cbn [is_minus] in Hnew; lia). subst c'.
    rewrite Hstr. vm_compute. reflexivity.
Defined.

(** ** C3: the posted date *)



(** ** C4: what makes [Parse] return an error *)

(** C4, as stated, fails: a posted date of eight bytes that [time.Parse]
    refuses (month 13) makes [Parse] return an error, although the text is
    not shorter than 8. *)
Lemma C4_counterexample :
  Parse [StartElement "DTPOSTED"; CharData "20231301"]
  = Err (TimeParseError "20231301")
  /\ String.length (GoStrings.TrimSpace "20231301") = 8%nat.
Proof. vm_compute. auto. Qed.

(** C4, amended.  [Parse] returns an error in exactly two conditions, both
    on the trimmed text of a pending posted date: the text is shorter than 8
    bytes, or its first 8 bytes are not a valid YYYYMMDD date.  No other
    token makes it return an error: an unknown start tag is pushed and
    changes nothing else, an end tag whose name is not open empties the path,
    a second chunk of character data is ignored, and syntactically malformed
    amount text is stored as the amount zero. *)
Theorem C4_error_returns :
  (forall toks e,
     Parse toks = Err e <->
     exists pre data post st,
       toks = (pre ++ CharData data :: post)%list
       /\ run init pre = Continue st /\ next st = transDatePosted
       /\ ((String.length (GoStrings.TrimSpace data) < 8)%nat
           /\ e = InvalidDatePosted (GoStrings.TrimSpace data)
           \/ (8 <= String.length (GoStrings.TrimSpace data))%nat
              /\ GoTime.Parse_20060102
                   (String.substring 0 8 (GoStrings.TrimSpace data)) = None
              /\ e = TimeParseError
                       (String.substring 0 8 (GoStrings.TrimSpace data))))
  /\ (forall st name,
        lookup_tag name tag_table = None -> name <> "STMTTRN" ->
        (stackPos st < length (stack st))%nat ->
        step st (StartElement name)
        = Continue {| ofx := ofx st; stack := <[stackPos st := name]> (stack st);
                      stackPos := S (stackPos st); next := next st;
                      trans := trans st |})
  /\ (forall st name,
        wf st -> ~ In name (path st) ->
        exists st', step st (EndElement name) = Continue st' /\ path st' = [])
  /\ (forall st d1 st1 d2,
        step st (CharData d1) = Continue st1 ->
        step st1 (CharData d2) = Continue st1)
  /\ (forall s,
        snd (GoStrconv.ParseFloat s) = Some GoStrconv.ErrSyntax -> NewDecial s = 0)
  /\ (forall st t data,
        next st = transAmount -> trans st = Some t ->
        snd (GoStrconv.ParseFloat (GoStrings.TrimSpace data))
        = Some GoStrconv.ErrSyntax ->
        step st (CharData data)
        = Continue {| ofx := ofx st; stack := stack st; stackPos := stackPos st;
                      next := none; trans := Some (set_Amount 0 t) |}).
Proof.
  split; [|split; [|split; [|split; [|split]]]].
  - intros toks e. unfold Parse. split.
    + destruct (run init toks) as [st| |] eqn:E; try discriminate.
      intros H; inversion H; subst; clear H.
      apply run_return in E as (pre & tok & post & st1 & -> & R & S).
      apply step_return in S as (data & -> & Hn & He).
      exists pre, data, post, st1. repeat split; auto.
      unfold date_error in He.
      destruct (Nat.ltb_spec (String.length (GoStrings.TrimSpace data)) 8).
      * left. inversion He; auto.
      * right. destruct (GoTime.Parse_20060102 _); [discriminate|].
        inversion He; auto.
    + intros (pre & data & post & st & -> & R & Hn & Hcase).
      rewrite run_app, R. cbn [run].
      assert (S : step st (CharData data) = Return e).
      { apply step_return. exists data. repeat split; auto. unfold date_error.
        destruct Hcase as [[Hlt ->]|(Hge & Hp & ->)].
        - apply Nat.ltb_lt in Hlt. rewrite Hlt. reflexivity.
        - apply Nat.ltb_ge in Hge. rewrite Hge, Hp. reflexivity. }
      rewrite S. reflexivity.
  - intros st name Hl Hs Hlt. rewrite on_start_continue by exact Hlt.
    rewrite dispatch_table, Hl. apply String.eqb_neq in Hs. rewrite Hs. reflexivity.
  - intros st name [Hlen Hpos] Hnot.
    destruct (on_end_resolve st name ltac:(lia)) as (st' & R & P & _).
    destruct (resolve_popped name (path st) (Transactions (ofx st)) (trans st))
      as (popped & H1 & [(before & -> & _)|[_ He]] & _).
    + exfalso. apply Hnot. rewrite H1. apply in_or_app. left.
      apply in_or_app. right. left. reflexivity.
    + exists st'. rewrite P, He. auto.
  - intros st d1 st1 d2 H. exact (second_chunk_ignored st d1 st1 H d2).
  - exact NewDecial_syntax_error.
  - intros st t data Hn Ht He. cbn [step]. unfold on_chardata, store_trans.
    rewrite Hn, Ht, (NewDecial_syntax_error _ He). reflexivity.
Qed.

(** A posted date of month 13 is an error; an amount with a comma is stored
    as zero. *)
Lemma C4_witness :
  Parse ([StartElement "STMTTRN"; StartElement "DTPOSTED"]
         ++ CharData "20231301" :: [])
  = Err (TimeParseError "20231301")
  /\ NewDecial "1,234.56" = 0.
Proof.
  split.
  - assert (H : match run init [StartElement "STMTTRN"; StartElement "DTPOSTED"] with
                | Continue st => next st = transDatePosted
                | _ => False
                end) by (vm_compute; auto).
    destruct (run init [StartElement "STMTTRN"; StartElement "DTPOSTED"])
      as [st| |] eqn:E; try contradiction.
    apply (proj2 (proj1 C4_error_returns _ _)).
    exists [StartElement "STMTTRN"; StartElement "DTPOSTED"], "20231301", [], st.
    repeat split; auto.
  - apply (proj1 (proj2 (proj2 (proj2 (proj2 C4_error_returns))))).
    vm_compute. reflexivity.
Defined.

(** ** C5: no flush at the end of the input *)



(** ** C6: only the first text chunk is stored *)

(** C6.  Character data always ends with the pending-field marker at [none],
    so character data that follows directly changes nothing at all: the state
    after the first chunk stays as it is, and the rest of the parse is the
    same as if the second chunk were not there. *)
Theorem C6_first_text_chunk_only (st st1 : state) (d1 : string) :
  step st (CharData d1) = Continue st1 ->
  next st1 = none
  /\ (forall d2, step st1 (CharData d2) = Continue st1)
  /\ (forall d2 rest,
        run st (CharData d1 :: CharData d2 :: rest) = run st (CharData d1 :: rest)).
Proof.
  intros H. pose proof (on_chardata_frame st d1 st1 H) as (_ & _ & Hnone & _).
  split; [exact Hnone|]. split; [exact (second_chunk_ignored st d1 st1 H)|].
  intros d2 rest. cbn [run]. rewrite H.
  rewrite (second_chunk_ignored st d1 st1 H d2). reflexivity.
Qed.

(** The text of an [FITID] arrives in two chunks: the second is ignored. *)
Lemma C6_witness :
  Parse ([StartElement "STMTTRN"; StartElement "FITID"]
         ++ [CharData "12"; CharData "34"; EndElement "STMTTRN"])
  = Parse ([StartElement "STMTTRN"; StartElement "FITID"]
           ++ [CharData "12"; EndElement "STMTTRN"]).
Proof.
  assert (E : exists s s3,
             run init [StartElement "STMTTRN"; StartElement "FITID"] = Continue s
             /\ step s (CharData "12") = Continue s3).
  { vm_compute. eexists _, _. split; reflexivity. }
  destruct E as (s & s3 & E1 & E3).
  unfold Parse. rewrite !run_app, E1.
  rewrite (proj2 (proj2 (C6_first_text_chunk_only s s3 "12" E3)) "34").
  reflexivity.
Defined.

(** ** C7: the capacity of the path stack *)

(** C7, as stated, fails: 1001 nested start tags do not make [Parse] return
    an error; the store [stack[stackPos]] runs into Go's bounds check and
    [Parse] panics. *)
Lemma C7_counterexample :
  Parse (replicate 1001 (StartElement "A")) = Crash IndexOutOfRange
  /\ ~ (exists e, Parse (replicate 1001 (StartElement "A")) = Err e).
Proof.
  assert (H : Parse (replicate 1001 (StartElement "A")) = Crash IndexOutOfRange)
    by (vm_compute; reflexivity).
  split; [exact H|]. intros [e He]. rewrite H in He. discriminate He.
Qed.

(** C7, amended.  The path stack has the fixed capacity 1000 throughout the
    parse.  [Parse] has no check of its own on a start element: with fewer
    than 1000 open entries the tag is pushed, and with 1000 open entries the
    indexed store is out of range and the run-time bounds check of the
    language panics; nothing is written beyond the capacity and no error is
    returned. *)
Theorem C7_stack_capacity (toks : list Token) (st : state) :
  run init toks = Continue st ->
  length (stack st) = stack_capacity
  /\ (stackPos st <= stack_capacity)%nat
  /\ (forall name,
        (stackPos st < stack_capacity)%nat ->
        exists st', step st (StartElement name) = Continue st'
                    /\ stackPos st' = S (stackPos st)
                    /\ path st' = name :: path st
                    /\ length (stack st') = stack_capacity)
  /\ (forall name,
        stackPos st = stack_capacity ->
        step st (StartElement name) = Panic IndexOutOfRange).
Proof.
  intros Hrun. destruct (run_wf toks init st init_wf Hrun) as [Hlen Hpos].
  split; [exact Hlen|]. split; [exact Hpos|]. split.
  - intros name Hlt. eexists. rewrite on_start_continue by lia.
    split; [reflexivity|]. unfold path; cbn [stack stackPos].
    rewrite path_push by lia. rewrite length_insert. auto.
  - intros name Hfull. apply on_start_full. lia.
Qed.

(** At the start of a parse a tag is pushed; after 1000 nested start tags
    the next one panics. *)
Lemma C7_witness :
  (exists st', step init (StartElement "OFX") = Continue st'
               /\ stackPos st' = 1%nat /\ path st' = "OFX" :: path init
               /\ length (stack st') = stack_capacity)
  /\ match run init (replicate 1000 (StartElement "A")) with
     | Continue st => step st (StartElement "A") = Panic IndexOutOfRange
     | _ => False
     end.
Proof.
  split.
  - destruct (C7_stack_capacity [] init eq_refl) as (_ & _ & Hpush & _).
    exact (Hpush "OFX" ltac:(apply Nat.ltb_lt; reflexivity)).
  - assert (H : match run init (replicate 1000 (StartElement "A")) with
                 | Continue st => stackPos st = stack_capacity
                 | _ => False
                 end) by (vm_compute; reflexivity).
    destruct (run init _) as [st| |] eqn:E; try exact H.
    destruct (C7_stack_capacity _ st E) as (_ & _ & _ & Hfull).
    apply Hfull. exact H.
Defined.

(** ** C8: the user-date marker *)

(** C8, as stated, fails: [DTUSER], the user-date tag of the format, is not
    a recognized tag.  It leaves the marker at [none], and its text does not
    reach the [UserDateTime] of the transaction. *)
Lemma C8_counterexample :
  fst (dispatch "DTUSER" none None) = none
  /\ Parse [StartElement "STMTTRN"; StartElement "DTUSER"; CharData "20230131";
            EndElement "STMTTRN"]
     = Ok (set_Transactions [Some new_transaction] new_ofx)
  /\ UserDateTime new_transaction = GoTime.zero.
Proof. vm_compute. auto. Qed.

(** C8, amended.  No start-of-element tag sets the pending-field marker to
    the user-date field: a start element leaves the marker at
    [transUserDate] only if it was there before, and in a parse it never is.
    The user-date tag [DTUSER] is handled as an unrecognized tag (pushed,
    marker and holder untouched), character data under the user-date marker
    stores nothing, and [UserDateTime] is the zero time in the holder and in
    every transaction of the list. *)
Theorem C8_user_date_never_armed :
  (forall st name st',
     step st (StartElement name) = Continue st' ->
     next st' = transUserDate -> next st = transUserDate)
  /\ (forall nx tr, dispatch "DTUSER" nx tr = (nx, tr))
  /\ (forall st data,
        next st = transUserDate ->
        step st (CharData data)
        = Continue {| ofx := ofx st; stack := stack st; stackPos := stackPos st;
                      next := none; trans := trans st |})
  /\ (forall toks st,
        run init toks = Continue st ->
        next st <> transUserDate
        /\ (forall t, trans st = Some t -> UserDateTime t = GoTime.zero)
        /\ (forall t, In (Some t) (Transactions (ofx st)) ->
                      UserDateTime t = GoTime.zero)).
Proof.
  split; [|split; [|split]].
  - intros st name st'. simpl. unfold on_start.
    destruct (stackPos st <? length (stack st))%nat; [|discriminate].
    rewrite dispatch_table. destruct (String.eqb name "STMTTRN").
    + intros H; inversion H; subst; auto.
    + destruct (lookup_tag name tag_table) as [k|] eqn:Ek;
        intros H; inversion H; subst; clear H; simpl; auto.
      intros E. exfalso. eapply lookup_tag_not_user_date; eassumption.
  - intros nx tr. reflexivity.
  - intros st data Hn. simpl. unfold on_chardata. rewrite Hn. reflexivity.
  - intros toks st Hrun. apply (run_user_date toks init st); [|exact Hrun].
    repeat split; simpl; try discriminate. intros t [].
Qed.

(** The text of [DTUSER] inside a transaction leaves [UserDateTime] at the
    zero time. *)
Lemma C8_witness :
  match Parse [StartElement "STMTTRN"; StartElement "DTUSER";
               CharData "20230131"; EndElement "STMTTRN"] with
  | Ok o => forall t, In (Some t) (Transactions o) -> UserDateTime t = GoTime.zero
  | _ => False
  end.
Proof.
  unfold Parse.
  destruct (run init _) as [st| |] eqn:E.
  - exact (proj2 (proj2 (proj2 (proj2 (proj2 C8_user_date_never_armed)) _ st E))).
  - vm_compute in E. discriminate E.
  - vm_compute in E. discriminate E.
Defined.

(** ** C9: a field store without an open transaction *)

(** C9.  A transaction field tag followed by character data, while the
    current-transaction holder is nil, makes [Parse] dereference the nil
    holder: before any transaction start tag, and after the transaction was
    flushed by an end tag.  The store is not total without an open
    transaction. *)
Theorem C9_nil_transaction_dereference :
  (forall st data,
     trans st = None ->
     In (next st) [transDesc; transMemo; transFitID; transAmount; transType] ->
     step st (CharData data) = Panic NilDereference)
  /\ Forall (fun tag => forall data,
               Parse [StartElement tag; CharData data] = Crash NilDereference)
       ["FITID"; "TRNAMT"; "TRNTYPE"; "NAME"; "MEMO"]
  /\ Parse [StartElement "DTPOSTED"; CharData "20230131"] = Crash NilDereference
  /\ (forall data,
        Parse [StartElement "STMTTRN"; EndElement "STMTTRN";
               StartElement "FITID"; CharData data] = Crash NilDereference).
Proof.
  split; [|split; [|split]].
  - intros st data Hnil Hin. simpl. unfold on_chardata, store_trans.
    simpl in Hin.
    destruct Hin as [H|[H|[H|[H|[H|[]]]]]]; rewrite <- H, Hnil; reflexivity.
  - repeat constructor; intros data; reflexivity.
  - vm_compute. reflexivity.
  - intros data. reflexivity.
Qed.

(** ** C10: fields of the statement that are never assigned *)

(** C10.  Whatever the tokens, a record returned by [Parse] has its
    generation time, language code and statement period start and end at
    their zero values: no tag arms them and no branch writes them. *)
Theorem C10_unassigned_fields_zero (toks : list Token) (o : Ofx) :
  Parse toks = Ok o ->
  GeneratedDateTime o = GoTime.zero /\ Language o = ""
  /\ TransactionStartDateTime o = GoTime.zero
  /\ TrnasactionEndDateTime o = GoTime.zero.
Proof.
  unfold Parse. destruct (run init toks) as [st| |] eqn:E; try discriminate.
  intros H; inversion H; subst; clear H.
  apply run_unassigned in E. unfold unassigned in E. simpl in E.
  inversion E. auto.
Qed.

(** A statement with the tags of the server date, the language and the
    statement period: none of them is stored. *)
Lemma C10_witness :
  match Parse [StartElement "DTSERVER"; CharData "20230131";
               StartElement "LANGUAGE"; CharData "ENG";
               StartElement "DTSTART"; CharData "20230101";
               StartElement "DTEND"; CharData "20230131"] with
  | Ok o => GeneratedDateTime o = GoTime.zero /\ Language o = ""
            /\ TransactionStartDateTime o = GoTime.zero
            /\ TrnasactionEndDateTime o = GoTime.zero
  | _ => False
  end.
Proof.
  destruct (Parse _) as [o| |] eqn:E.
  - exact (C10_unassigned_fields_zero _ o E).
  - vm_compute in E. discriminate E.
  - vm_compute in E. discriminate E.
Defined.

(** * Lemmas for the further properties *)

(** ** Tokens that are neither tags nor text *)

Lemma run_without_other toks : forall st,
  run st (List.filter (fun t => negb (is_other t)) toks) = run st toks.
Proof.
  induction toks as [|tok toks IH]; intros st; [reflexivity|].
  destruct tok as [name|data|name|]; cbn [List.filter is_other negb];
    [| | |apply IH]; cbn [run];
    match goal with |- context [step st ?t] => destruct (step st t) end; auto.
Qed.

(** ** Growth of the transaction list *)

Lemma unwind_grows name stk : forall pos o tr p' o' tr',
  unwind name stk pos o tr = Continue (p', o', tr') ->
  exists l, Transactions o' = (Transactions o ++ l)%list.
Proof.
  induction pos as [|p IH]; intros o tr p' o' tr'; simpl.
  - intros H; inversion H; subst. exists []. rewrite app_nil_r. reflexivity.
  - destruct (stk !! p) as [top|]; [|discriminate].
    destruct (String.eqb top "STMTTRN"); destruct (String.eqb top name); intros H.
    + inversion H; subst. exists [tr]. reflexivity.
    + apply IH in H as [l Hl]. exists (tr :: l). rewrite Hl. simpl.
      rewrite <- app_assoc. reflexivity.
    + inversion H; subst. exists []. rewrite app_nil_r. reflexivity.
    + apply IH in H. exact H.
Qed.

Lemma step_grows st tok st' :
  step st tok = Continue st' ->
  exists l, Transactions (ofx st') = (Transactions (ofx st) ++ l)%list.
Proof.
  destruct (is_end tok) eqn:E.
  - destruct tok as [| |name|]; try discriminate. simpl. unfold on_end.
    destruct (unwind name (stack st) (stackPos st) (ofx st) (trans st))
      as [[[p o] tr]| |] eqn:U; try discriminate.
    intros H; inversion H; subst; clear H. simpl.
    eapply unwind_grows; exact U.
  - intros H. exists []. rewrite app_nil_r.
    eapply step_keeps_transactions; eassumption.
Qed.

Lemma run_grows toks : forall st st',
  run st toks = Continue st' ->
  exists l, Transactions (ofx st') = (Transactions (ofx st) ++ l)%list.
Proof.
  induction toks as [|tok toks IH]; intros st st'; simpl.
  - intros H; inversion H; subst. exists []. rewrite app_nil_r. reflexivity.
  - destruct (step st tok) as [st1| |] eqn:E; try discriminate.
    intros H. apply IH in H as [l2 H2]. apply step_grows in E as [l1 H1].
    exists (l1 ++ l2)%list. rewrite H2, H1, <- app_assoc. reflexivity.
Qed.

(** ** Counting transaction markers *)

Lemma markers_app a b : markers (a ++ b) = (markers a + markers b)%nat.
Proof. unfold markers. rewrite List.filter_app, length_app. reflexivity. Qed.

Lemma flushed_length popped : forall cur,
  length (flushed popped cur) = markers popped.
Proof.
  induction popped as [|top rest IH]; intros cur; [reflexivity|].
  unfold markers. cbn [flushed List.filter]. change (is_marker top) with (String.eqb top "STMTTRN").
  destruct (String.eqb top "STMTTRN"); cbn [length]; rewrite IH; reflexivity.
Qed.

(** What an unwind appends: the holder at the first transaction marker, and
    a nil entry at each further one. *)
Lemma flushed_nil popped : flushed popped None = replicate (markers popped) None.
Proof.
  induction popped as [|top rest IH]; [reflexivity|].
  unfold markers. cbn [flushed List.filter]. change (is_marker top) with (String.eqb top "STMTTRN").
  destruct (String.eqb top "STMTTRN"); cbn [length replicate]; rewrite IH; reflexivity.
Qed.

Lemma flushed_markers popped cur :
  flushed popped cur =
  match markers popped with
  | O => []
  | S k => cur :: replicate k None
  end.
Proof.
  induction popped as [|top rest IH]; [reflexivity|].
  unfold markers in *. cbn [flushed List.filter]. change (is_marker top) with (String.eqb top "STMTTRN").
  destruct (String.eqb top "STMTTRN"); cbn [length].
  - rewrite flushed_nil. reflexivity.
  - exact IH.
Qed.

Lemma step_markers st tok st' :
  wf st -> step st tok = Continue st' ->
  (length (Transactions (ofx st')) + markers (path st')
   = length (Transactions (ofx st)) + markers (path st)
     + transaction_starts [tok])%nat.
Proof.
  intros Hwf Hstep. pose proof Hwf as [Hlen Hpos].
  destruct tok as [name|data|name|].
  - cbn [step] in Hstep. unfold on_start in Hstep.
    destruct (Nat.ltb_spec (stackPos st) (length (stack st))) as [Hlt|]; [|discriminate].
    destruct (dispatch name (next st) (trans st)) as [nx tr].
    inversion Hstep; subst; clear Hstep. unfold path; cbn [ofx stack stackPos].
    rewrite path_push by exact Hlt.
    unfold transaction_starts, markers. cbn [List.filter].
    destruct (is_marker name); cbn [length]; lia.
  - apply on_chardata_frame in Hstep as (Hs & Hp & _ & Ht).
    unfold path. rewrite Hs, Hp, Ht. unfold transaction_starts. simpl. lia.
  - destruct (on_end_resolve st name ltac:(lia)) as (st2 & R & P & O & _).
    rewrite R in Hstep. inversion Hstep; subst st2; clear Hstep.
    destruct (resolve_popped name (path st) (Transactions (ofx st)) (trans st))
      as (popped & H1 & _ & H3 & _).
    rewrite O. cbn [Transactions set_Transactions]. rewrite H3, length_app.
    rewrite flushed_length. rewrite <- P in H1. clear O H3 P.
    rewrite H1, markers_app.
    unfold transaction_starts. simpl. lia.
  - inversion Hstep; subst. unfold transaction_starts. simpl. lia.
Qed.

Lemma transaction_starts_cons tok toks :
  transaction_starts (tok :: toks)
  = (transaction_starts [tok] + transaction_starts toks)%nat.
Proof.
  unfold transaction_starts. cbn [List.filter].
  destruct tok as [name| | |]; try reflexivity.
  destruct (is_marker name); reflexivity.
Qed.

Lemma run_markers toks : forall st st',
  wf st -> run st toks = Continue st' ->
  (length (Transactions (ofx st')) + markers (path st')
   = length (Transactions (ofx st)) + markers (path st)
     + transaction_starts toks)%nat.
Proof.
  induction toks as [|tok toks IH]; intros st st' Hwf; simpl.
  - intros H; inversion H; subst. unfold transaction_starts. simpl. lia.
  - destruct (step st tok) as [st1| |] eqn:E; try discriminate.
    intros H. rewrite (IH st1 st' (step_wf _ _ _ Hwf E) H).
    rewrite (step_markers st tok st1 Hwf E).
    rewrite (transaction_starts_cons tok toks). lia.
Qed.

(** ** Transaction blocks *)

Lemma lookup_tag_date name :
  lookup_tag name tag_table = Some transDatePosted -> name = "DTPOSTED".
Proof.
  unfold tag_table, lookup_tag.
  repeat match goal with
         | |- context [String.eqb name ?s] =>
             destruct (String.eqb name s) eqn:?
         end; intros H; try discriminate H.
  apply String.eqb_eq. assumption.
Qed.

Lemma path_length st :
  (stackPos st <= length (stack st))%nat -> length (path st) = stackPos st.
Proof.
  intros H. unfold path, path_of. rewrite length_reverse, length_take. lia.
Qed.

(** A start tag other than the transaction's, then character data. *)
Lemma leaf_open_step st t tag text :
  next st = none -> trans st = Some t ->
  block_leaf {| leaf_tag := tag; leaf_text := text; leaf_closed := false |} = true ->
  (stackPos st < length (stack st))%nat ->
  exists o1,
    run st [StartElement tag; CharData text]
    = Continue {| ofx := o1; stack := <[stackPos st := tag]> (stack st);
                  stackPos := S (stackPos st); next := none;
                  trans := Some (leaf_effect
                                   {| leaf_tag := tag; leaf_text := text;
                                      leaf_closed := false |} t) |}
    /\ Transactions o1 = Transactions (ofx st).
Proof.
  intros Hnext Htrans Hleaf Hlt. unfold block_leaf in Hleaf.
  cbn [leaf_tag leaf_text] in Hleaf.
  apply andb_true_iff in Hleaf as [Hstm Hdate].
  apply negb_true_iff in Hstm. unfold is_marker in Hstm.
  cbn [run]. rewrite (on_start_continue st tag Hlt).
  rewrite dispatch_table, Hstm, Hnext, Htrans. cbn [fst snd].
  unfold leaf_effect. cbn [leaf_tag leaf_text].
  destruct (lookup_tag tag tag_table) as [k|] eqn:Ek.
  - destruct k;
      cbn [step on_chardata store_ofx store_trans no_store next trans ofx stack stackPos];
      try (eexists; split; [reflexivity|reflexivity]).
    apply lookup_tag_date in Ek. subst tag. cbn in Hdate.
    unfold date_error in Hdate.
    destruct (String.length (GoStrings.TrimSpace text) <? 8)%nat; [discriminate|].
    destruct (GoTime.Parse_20060102 _); [|discriminate].
    cbn [store_trans trans ofx stack stackPos].
    eexists; split; reflexivity.
  - cbn [step on_chardata no_store next trans ofx stack stackPos].
    eexists; split; reflexivity.
Qed.

Lemma leaf_effect_closed tag text b b' t :
  leaf_effect {| leaf_tag := tag; leaf_text := text; leaf_closed := b |} t
  = leaf_effect {| leaf_tag := tag; leaf_text := text; leaf_closed := b' |} t.
Proof. reflexivity. Qed.

Lemma block_leaf_step st t f :
  next st = none -> trans st = Some t -> block_leaf f = true ->
  (stackPos st < length (stack st))%nat ->
  exists st',
    run st (leaf_field_tokens f) = Continue st'
    /\ path st' = (if leaf_closed f then path st else leaf_tag f :: path st)
    /\ next st' = none
    /\ trans st' = Some (leaf_effect f t)
    /\ Transactions (ofx st') = Transactions (ofx st)
    /\ length (stack st') = length (stack st)
    /\ stackPos st' = (if leaf_closed f then stackPos st else S (stackPos st)).
Proof.
  destruct f as [tag text closed]. intros Hnext Htrans Hleaf Hlt.
  assert (Hstm : String.eqb tag "STMTTRN" = false).
  { unfold block_leaf in Hleaf. cbn [leaf_tag] in Hleaf.
    apply andb_true_iff in Hleaf as [Hstm _]. apply negb_true_iff in Hstm.
    exact Hstm. }
  destruct (leaf_open_step st t tag text Hnext Htrans Hleaf Hlt) as (o1 & R1 & X1).
  rewrite (leaf_effect_closed tag text false closed) in R1.
  set (st1 := {| ofx := o1; stack := _; stackPos := _; next := none; trans := _ |}) in R1.
  assert (P1 : path st1 = tag :: path st).
  { unfold path, st1; cbn [stack stackPos]. apply path_push. exact Hlt. }
  unfold leaf_field_tokens. cbn [leaf_tag leaf_text leaf_closed].
  destruct closed.
  - change (StartElement tag :: CharData text :: [EndElement tag])
      with ([StartElement tag; CharData text] ++ [EndElement tag])%list.
    rewrite run_app, R1. cbn [run].
    destruct (on_end_resolve st1 tag
                ltac:(unfold st1; cbn [stack stackPos]; rewrite length_insert; lia))
      as (st2 & R2 & P2 & O2 & T2 & N2 & K2 & Q2).
    rewrite R2. rewrite P1, (resolve_own_tag tag _ _ _ Hstm) in P2, O2, T2.
    cbn [fst snd] in P2, O2, T2.
    assert (Hpos : stackPos st2 = stackPos st).
    { pose proof (f_equal (@length string) P2) as E.
      rewrite !path_length in E; [exact E| lia |].
      rewrite K2. unfold st1; cbn [stack stackPos]. rewrite length_insert.
      unfold st1 in Q2; cbn [stackPos] in Q2. lia. }
    exists st2. split; [reflexivity|].
    rewrite P2, O2, T2, N2, K2, set_Transactions_same.
    unfold st1; cbn [stack next trans ofx]. rewrite length_insert.
    repeat split; auto.
  - exists st1. split; [exact R1|]. rewrite P1.
    unfold st1; cbn [stack next trans ofx stackPos].
    rewrite length_insert. repeat split; auto.
Qed.

Lemma run_block_leaves fields : forall st t,
  next st = none -> trans st = Some t ->
  forallb block_leaf fields = true ->
  (stackPos st + length fields <= length (stack st))%nat ->
  exists st',
    run st (leaf_tokens fields) = Continue st'
    /\ path st' = (reverse (open_tags fields) ++ path st)%list /\ next st' = none
    /\ trans st' = Some (fold_left (fun t f => leaf_effect f t) fields t)
    /\ Transactions (ofx st') = Transactions (ofx st)
    /\ length (stack st') = length (stack st)
    /\ stackPos st' = (stackPos st + length (open_tags fields))%nat.
Proof.
  induction fields as [|f fields IH]; intros st t Hnext Htrans Hall Hroom.
  - exists st. simpl. rewrite Nat.add_0_r. auto 10.
  - simpl in Hall, Hroom. apply andb_true_iff in Hall as [Htag Hall].
    destruct (block_leaf_step st t f Hnext Htrans Htag ltac:(lia))
      as (st1 & R1 & P1 & N1 & T1 & X1 & L1 & S1).
    assert (Hroom1 : (stackPos st1 + length fields <= length (stack st1))%nat).
    { rewrite S1, L1. destruct (leaf_closed f); lia. }
    destruct (IH st1 _ N1 T1 Hall Hroom1)
      as (st2 & R2 & P2 & N2 & T2 & X2 & L2 & S2).
    exists st2.
    change (leaf_tokens (f :: fields))
      with (leaf_field_tokens f ++ leaf_tokens fields)%list.
    rewrite run_app, R1, R2. split; [reflexivity|].
    rewrite P2, P1, S2, S1. unfold open_tags. cbn [List.filter fold_left].
    destruct (leaf_closed f); cbn [negb List.map length].
    + repeat split; try congruence.
    + rewrite reverse_cons, <- app_assoc. cbn [app].
      repeat split; try congruence; lia.
Qed.

Lemma block_open_tags fields :
  forallb block_leaf fields = true ->
  forallb (fun x => negb (String.eqb x "STMTTRN")) (reverse (open_tags fields)) = true.
Proof.
  induction fields as [|f fields IH]; [reflexivity|].
  simpl. intros H. apply andb_true_iff in H as [H1 H2].
  unfold open_tags in *. cbn [List.filter].
  destruct (leaf_closed f); cbn [negb List.map]; [exact (IH H2)|].
  rewrite reverse_cons, forallb_app. rewrite (IH H2). simpl.
  unfold block_leaf in H1. apply andb_true_iff in H1 as [H1 _].
  unfold is_marker in H1. rewrite H1. reflexivity.
Qed.

(** The start tag of a transaction, whatever the holder held. *)
Lemma start_transaction st :
  (stackPos st < length (stack st))%nat ->
  step st (StartElement "STMTTRN")
  = Continue {| ofx := ofx st; stack := <[stackPos st := "STMTTRN"]> (stack st);
                stackPos := S (stackPos st); next := next st;
                trans := Some new_transaction |}.
Proof. intros Hlt. rewrite on_start_continue by exact Hlt. reflexivity. Qed.

(** Leaf fields after the start tag of a transaction. *)
Lemma run_block_open st0 fields :
  wf st0 -> next st0 = none ->
  (stackPos st0 + 1 + length fields <= stack_capacity)%nat ->
  forallb block_leaf fields = true ->
  exists st',
    run st0 (StartElement "STMTTRN" :: leaf_tokens fields) = Continue st'
    /\ path st' = (reverse (open_tags fields) ++ "STMTTRN" :: path st0)%list
    /\ next st' = none
    /\ trans st' = Some (block_transaction fields)
    /\ Transactions (ofx st') = Transactions (ofx st0)
    /\ wf st'
    /\ stackPos st' = (stackPos st0 + 1 + length (open_tags fields))%nat.
Proof.
  intros [Hlen Hpos] Hnext Hroom Hleaf.
  cbn [run]. rewrite start_transaction by lia.
  set (st1 := {| ofx := ofx st0; stack := _; stackPos := _; next := _; trans := _ |}).
  assert (P1 : path st1 = "STMTTRN" :: path st0).
  { unfold path, st1; cbn [stack stackPos]. apply path_push. lia. }
  assert (L1 : length (stack st1) = stack_capacity).
  { unfold st1; cbn [stack]. rewrite length_insert. exact Hlen. }
  destruct (run_block_leaves fields st1 new_transaction Hnext eq_refl Hleaf
              ltac:(rewrite L1; unfold st1; cbn [stackPos]; lia))
    as (st2 & R2 & P2 & N2 & T2 & X2 & L2 & S2).
  exists st2. rewrite R2, P2, P1, S2.
  pose proof (open_tags_length fields) as Hopen.
  unfold st1 in *; cbn [stackPos ofx] in *.
  repeat split; auto; try lia.
Qed.

(** A whole block appends the transaction it describes and leaves the path
    as it was. *)
Lemma run_block st0 fields :
  wf st0 -> next st0 = none ->
  (stackPos st0 + 1 + length fields <= stack_capacity)%nat ->
  forallb block_leaf fields = true ->
  exists st',
    run st0 (block fields) = Continue st'
    /\ Transactions (ofx st')
       = (Transactions (ofx st0) ++ [Some (block_transaction fields)])%list
    /\ trans st' = None /\ path st' = path st0 /\ next st' = none
    /\ wf st' /\ stackPos st' = stackPos st0.
Proof.
  intros Hwf Hnext Hroom Hleaf.
  destruct (run_block_open st0 fields Hwf Hnext Hroom Hleaf)
    as (st2 & R2 & P2 & N2 & T2 & X2 & [L2 Q2] & S2).
  unfold block.
  change (StartElement "STMTTRN" :: leaf_tokens fields ++ [EndElement "STMTTRN"])%list
    with ((StartElement "STMTTRN" :: leaf_tokens fields) ++ [EndElement "STMTTRN"])%list.
  rewrite run_app, R2. cbn [run].
  destruct (on_end_resolve st2 "STMTTRN" ltac:(lia))
    as (st3 & R3 & P3 & O3 & T3 & N3 & K3 & Q3).
  rewrite R3. exists st3.
  rewrite P2 in P3, O3, T3.
  rewrite (resolve_transaction_block _ _ _ _ (block_open_tags fields Hleaf))
    in P3, O3, T3.
  cbn [fst snd] in P3, O3, T3.
  assert (Hpos : stackPos st3 = stackPos st0).
  { destruct Hwf as [Hlen Hpos].
    pose proof (f_equal (@length string) P3) as E.
    rewrite !path_length in E; [exact E | lia | rewrite K3; lia]. }
  split; [reflexivity|]. rewrite O3, T2, X2, N3. cbn [Transactions set_Transactions].
  repeat split; auto.
  - rewrite K3. exact L2.
  - rewrite Hpos. destruct Hwf; assumption.
Qed.

Lemma run_blocks bs : forall st0,
  wf st0 -> next st0 = none ->
  Forall (fun fields => forallb block_leaf fields = true
                        /\ (stackPos st0 + 1 + length fields <= stack_capacity)%nat) bs ->
  exists st',
    run st0 (flat_map block bs) = Continue st'
    /\ Transactions (ofx st')
       = (Transactions (ofx st0)
          ++ List.map (fun fields => Some (block_transaction fields)) bs)%list
    /\ path st' = path st0 /\ next st' = none /\ wf st'
    /\ stackPos st' = stackPos st0.
Proof.
  induction bs as [|fields bs IH]; intros st0 Hwf Hnext Hall.
  - exists st0. simpl. rewrite app_nil_r. auto 10.
  - inversion Hall as [|? ? [Hleaf Hroom] Hrest]; subst.
    destruct (run_block st0 fields Hwf Hnext Hroom Hleaf)
      as (st1 & R1 & X1 & T1 & P1 & N1 & W1 & S1).
    assert (Hrest1 : Forall (fun fields => forallb block_leaf fields = true
                        /\ (stackPos st1 + 1 + length fields <= stack_capacity)%nat) bs).
    { rewrite S1. exact Hrest. }
    destruct (IH st1 W1 N1 Hrest1) as (st2 & R2 & X2 & P2 & N2 & W2 & S2).
    exists st2. cbn [flat_map]. rewrite run_app, R1, R2.
    split; [reflexivity|]. rewrite X2, X1, <- app_assoc.
    repeat split; try congruence; apply W2.
Qed.

(** ** The fields of the statement *)

Lemma statement_field_dispatch tag key get conv :
  In (tag, key, get, conv) statement_fields ->
  (forall nx tr, dispatch tag nx tr = (key, tr))
  /\ (forall name nx tr,
        String.eqb name tag = false -> fst (dispatch name nx tr) = key -> nx = key)
  /\ (forall l o, get (set_Transactions l o) = get o).
Proof.
  intros Hin. simpl in Hin.
  repeat destruct Hin as [Hin|Hin]; try contradiction;
    inversion Hin; subst; clear Hin;
    (split; [intros nx tr; reflexivity|]);
    (split; [|intros l o; reflexivity]);
    intros name nx tr Hne; unfold dispatch;
    repeat match goal with
           | |- context [String.eqb name ?s] =>
               destruct (String.eqb name s) eqn:?
           end; cbn [fst]; intros H; congruence.
Qed.

Lemma statement_field_store tag key get conv :
  In (tag, key, get, conv) statement_fields ->
  forall st data,
    (next st = key ->
     exists st', step st (CharData data) = Continue st'
                 /\ get (ofx st') = conv (GoStrings.TrimSpace data)
                 /\ next st' = none)
    /\ (next st <> key ->
        forall st', step st (CharData data) = Continue st' ->
                    get (ofx st') = get (ofx st)).
Proof.
  intros Hin st data. simpl in Hin.
  repeat destruct Hin as [Hin|Hin]; try contradiction;
    inversion Hin; subst; clear Hin;
    (split;
     [ intros Hn; cbn [step]; unfold on_chardata; rewrite Hn;
       eexists; split; [reflexivity|split; reflexivity]
     | intros Hn st'; cbn [step]; unfold on_chardata, store_ofx, store_trans, no_store;
       destruct (next st); try congruence; destruct (trans st);
       repeat match goal with
              | |- context [if ?b then _ else _] => destruct b
              | |- context [match ?x with Some _ => _ | None => _ end] => destruct x
              end;
       intros H; inversion H; reflexivity ]).
Qed.

(** A token other than the start tag of the field keeps the field, and
    leaves its marker unarmed. *)
Lemma step_field_kept tag key get conv st tok st' :
  In (tag, key, get, conv) statement_fields ->
  wf st -> is_start_of tag tok = false -> next st <> key ->
  step st tok = Continue st' ->
  next st' <> key /\ get (ofx st') = get (ofx st).
Proof.
  intros Hin Hwf Htok Hn Hstep.
  destruct (statement_field_dispatch tag key get conv Hin) as (_ & Hother & Hset).
  destruct tok as [name|data|name|].
  - cbn [is_start_of] in Htok. cbn [step] in Hstep. unfold on_start in Hstep.
    destruct (stackPos st <? length (stack st))%nat; [|discriminate].
    destruct (dispatch name (next st) (trans st)) as [nx tr] eqn:Ed.
    inversion Hstep; subst; clear Hstep. cbn [next ofx]. split; [|reflexivity].
    intros E. apply Hn. apply (Hother name (next st) (trans st) Htok).
    rewrite Ed. exact E.
  - split.
    + apply on_chardata_frame in Hstep as (_ & _ & Hnone & _).
      rewrite Hnone. intros E. subst key.
      simpl in Hin. repeat destruct Hin as [Hin|Hin]; try contradiction; inversion Hin.
    + exact (proj2 (statement_field_store tag key get conv Hin st data) Hn st' Hstep).
  - destruct Hwf as [Hlen Hpos].
    destruct (on_end_resolve st name ltac:(lia)) as (st2 & R & _ & O & _ & N & _).
    rewrite R in Hstep. inversion Hstep; subst st2; clear Hstep.
    rewrite N, O, Hset. auto.
  - inversion Hstep; subst. auto.
Qed.

Lemma run_field_kept tag key get conv :
  In (tag, key, get, conv) statement_fields ->
  forall toks st st',
    wf st -> forallb (fun tok => negb (is_start_of tag tok)) toks = true ->
    next st <> key -> run st toks = Continue st' ->
    next st' <> key /\ get (ofx st') = get (ofx st).
Proof.
  intros Hin. induction toks as [|tok toks IH]; intros st st' Hwf Hall Hn; simpl.
  - intros H; inversion H; subst. auto.
  - simpl in Hall. apply andb_true_iff in Hall as [Htok Hrest].
    apply negb_true_iff in Htok.
    destruct (step st tok) as [st1| |] eqn:E; try discriminate.
    intros H.
    destruct (step_field_kept tag key get conv st tok st1 Hin Hwf Htok Hn E) as [N1 G1].
    destruct (IH st1 st' (step_wf _ _ _ Hwf E) Hrest N1 H) as [N2 G2].
    split; [exact N2 | congruence].
Qed.

(** ** Tokens that keep the pending-field marker *)

Lemma step_keeps_marker st tok st' :
  wf st -> keeps_marker tok = true -> step st tok = Continue st' ->
  next st' = next st /\ exists l, ofx st' = set_Transactions l (ofx st).
Proof.
  intros [Hlen Hpos] Hk Hstep. destruct tok as [name|data|name|]; try discriminate.
  - cbn [keeps_marker] in Hk. cbn [step] in Hstep. unfold on_start in Hstep.
    destruct (stackPos st <? length (stack st))%nat; [|discriminate].
    rewrite dispatch_table in Hstep.
    destruct (lookup_tag name tag_table); [discriminate|].
    destruct (String.eqb name "STMTTRN");
      inversion Hstep; subst; clear Hstep; cbn [next ofx];
      (split; [reflexivity|]); exists (Transactions (ofx st));
      rewrite set_Transactions_same; reflexivity.
  - destruct (on_end_resolve st name ltac:(lia)) as (st2 & R & _ & O & _ & N & _).
    rewrite R in Hstep. inversion Hstep; subst st2; clear Hstep.
    split; [exact N|]. eexists. exact O.
  - inversion Hstep; subst. split; [reflexivity|].
    exists (Transactions (ofx st')). rewrite set_Transactions_same. reflexivity.
Qed.

Lemma set_Transactions_twice l1 l2 o :
  set_Transactions l2 (set_Transactions l1 o) = set_Transactions l2 o.
Proof. reflexivity. Qed.

Lemma run_keeps_marker toks : forall st st',
  wf st -> forallb keeps_marker toks = true -> run st toks = Continue st' ->
  next st' = next st /\ exists l, ofx st' = set_Transactions l (ofx st).
Proof.
  induction toks as [|tok toks IH]; intros st st' Hwf Hall; simpl.
  - intros H; inversion H; subst. split; [reflexivity|].
    exists (Transactions (ofx st')). rewrite set_Transactions_same. reflexivity.
  - simpl in Hall. apply andb_true_iff in Hall as [Htok Hrest].
    destruct (step st tok) as [st1| |] eqn:E; try discriminate.
    intros H.
    destruct (step_keeps_marker st tok st1 Hwf Htok E) as [N1 [l1 O1]].
    destruct (IH st1 st' (step_wf _ _ _ Hwf E) Hrest H) as [N2 [l2 O2]].
    split; [congruence|]. exists l2. rewrite O2, O1. apply set_Transactions_twice.
Qed.

(** ** Panics *)

Lemma unwind_no_panic name stk : forall pos o tr,
  (pos <= length stk)%nat ->
  exists r, unwind name stk pos o tr = Continue r.
Proof.
  intros pos o tr H. destruct (unwind_resolve name stk pos o tr H) as (p' & E & _).
  eexists. exact E.
Qed.

Lemma step_panic st tok p :
  wf st ->
  (step st tok = Panic p <->
   (p = IndexOutOfRange /\ is_start tok = true /\ stackPos st = stack_capacity)
   \/ (p = NilDereference /\ trans st = None
       /\ exists data, tok = CharData data
                       /\ through_holder (next st) (GoStrings.TrimSpace data) = true)).
Proof.
  intros [Hlen Hpos]. destruct tok as [name|data|name|]; cbn [step is_start].
  - unfold on_start. rewrite Hlen.
    destruct (Nat.ltb_spec (stackPos st) stack_capacity) as [Hlt|Hge].
    + destruct (dispatch name (next st) (trans st)). split; [discriminate|].
      intros [(_ & _ & E)|(_ & _ & data & E & _)]; [lia|discriminate].
    + split.
      * intros H; inversion H; subst. left. repeat split; lia.
      * intros [(-> & _ & _)|(_ & _ & data & E & _)]; [reflexivity|discriminate].
  - split.
    + intros H.
      assert (G : p = NilDereference /\ trans st = None
                  /\ through_holder (next st) (GoStrings.TrimSpace data) = true).
      { revert H.
        unfold on_chardata, store_ofx, store_trans, no_store, through_holder, date_error.
        destruct (next st); destruct (trans st);
          repeat match goal with
                 | |- context [if ?b then _ else _] => destruct b
                 | |- context [match ?x with Some _ => _ | None => _ end] => destruct x
                 end;
          intros H; inversion H; subst; auto. }
      destruct G as (-> & Ht & Hth). right. eauto 10.
    + unfold on_chardata, store_ofx, store_trans, no_store, through_holder, date_error.
      intros [(_ & E & _)|(-> & Ht & d & E & Hth)]; [discriminate|].
      inversion E; subst d; clear E. rewrite Ht. revert Hth.
      destruct (next st); try discriminate; try reflexivity.
      destruct (String.length (GoStrings.TrimSpace data) <? 8)%nat; [discriminate|].
      destruct (GoTime.Parse_20060102 _); [reflexivity|discriminate].
  - unfold on_end.
    destruct (unwind_no_panic name (stack st) (stackPos st) (ofx st) (trans st)
                ltac:(lia)) as [[[p' o'] tr'] ->].
    split; [discriminate|].
    intros [(_ & E & _)|(_ & _ & data & E & _)]; discriminate.
  - split; [discriminate|].
    intros [(_ & E & _)|(_ & _ & data & E & _)]; discriminate.
Qed.

Lemma run_panic toks : forall st p,
  run st toks = Panic p <->
  exists pre tok post st1,
    toks = (pre ++ tok :: post)%list /\ run st pre = Continue st1
    /\ step st1 tok = Panic p.
Proof.
  induction toks as [|tok toks IH]; intros st p; simpl.
  - split; [discriminate|]. intros (pre & t & post & st1 & H & _).
    destruct pre; discriminate.
  - split.
    + destruct (step st tok) as [st1| |] eqn:E; try discriminate.
      * intros H. apply IH in H as (pre & t & post & st2 & -> & R & S).
        exists (tok :: pre), t, post, st2. simpl. rewrite E. auto.
      * intros H; inversion H; subst. exists [], tok, toks, st. auto.
    + intros (pre & t & post & st1 & H & R & S).
      destruct pre as [|a pre]; simpl in H; inversion H; subst; clear H.
      * simpl in R. inversion R; subst. rewrite S. reflexivity.
      * simpl in R. destruct (step st a) as [st2| |]; try discriminate.
        apply IH. exists pre, t, post, st1. auto.
Qed.

(** The open path is never deeper than the number of start tags read. *)
Lemma step_depth st tok st' :
  step st tok = Continue st' ->
  (stackPos st' <= stackPos st + length (List.filter is_start [tok]))%nat.
Proof.
  destruct tok as [name|data|name|]; cbn [step List.filter is_start length].
  - unfold on_start. destruct (stackPos st <? length (stack st))%nat; [|discriminate].
    destruct (dispatch name (next st) (trans st)).
    intros H; inversion H; subst; simpl; lia.
  - intros H. apply on_chardata_frame in H as (_ & -> & _). lia.
  - unfold on_end.
    destruct (unwind name (stack st) (stackPos st) (ofx st) (trans st))
      as [[[p o] tr]| |] eqn:E; try discriminate.
    intros H; inversion H; subst; clear H. apply unwind_pos_le in E. simpl. lia.
  - intros H; inversion H; subst. lia.
Qed.

Lemma run_depth toks : forall st st',
  run st toks = Continue st' ->
  (stackPos st' <= stackPos st + length (List.filter is_start toks))%nat.
Proof.
  induction toks as [|tok toks IH]; intros st st'; simpl.
  - intros H; inversion H; subst. lia.
  - destruct (step st tok) as [st1| |] eqn:E; try discriminate.
    intros H. apply IH in H. apply step_depth in E.
    cbn [List.filter length] in E. destruct (is_start tok); simpl in *; lia.
Qed.

(** ** Amounts: the conversions of [Decimal] *)

(** The sign and magnitude of an amount below [2^50] that is not zero. *)
Lemma of_int_amount d :
  d <> 0 -> - 2 ^ 50 < d < 2 ^ 50 ->
  1 <= Z.abs d < 2 ^ 50 /\ has_value (of_int d) (d <? 0) (Z.abs d) 1.
Proof.
  intros Hnz Hd. change (2 ^ 50) with 1125899906842624 in *.
  split; [lia|].
  assert (Hc : 0 < Z.abs d < 2 ^ 52)
    by (change (2 ^ 52) with 4503599627370496; lia).
  destruct (of_int_value (Z.abs d) Hc) as [Hpos Hneg].
  destruct (Z.ltb_spec d 0).
  - replace d with (- Z.abs d) at 1 by lia. exact Hneg.
  - replace d with (Z.abs d) at 1 by lia. exact Hpos.
Qed.

(** Rounding a rational that is a whole number below [2^52] is exact. *)
Lemma round_ne_whole s N D k :
  0 < D -> N = k * D -> 0 < k < 2 ^ 52 ->
  has_value (round_ne s N D) s k 1.
Proof.
  intros HD HN Hk. change (2 ^ 52) with 4503599627370496 in Hk.
  assert (HNpos : 0 < N) by nia.
  assert (H1 : N < D * 2 ^ 52) by (change (2 ^ 52) with 4503599627370496; nia).
  assert (H2 : D <= N * 2 ^ 1000).
  { assert (1 <= 2 ^ 1000) by (vm_compute; discriminate). nia. }
  destruct (round_ne_value s N D HNpos HD H1 H2) as (kk & m & Hkk & Hv & _ & Herr).
  assert (HA : 0 < 2 ^ kk) by (apply Z.pow_pos_nonneg; lia).
  apply (has_value_equiv _ _ _ _ k 1 Hv HA).
  set (A := 2 ^ kk) in *. subst N.
  assert (- D <= 2 * (m - k * A) * D <= D) by (split; nia).
  assert (- 1 <= 2 * (m - k * A) <= 1) by (split; nia).
  lia.
Qed.

(** [int64(x)] of a whole number. *)
Lemma to_int64_whole x s k :
  has_value x s k 1 -> 0 <= k < 2 ^ 63 ->
  to_int64 x = (if s then - k else k).
Proof.
  intros (p & e & -> & He & Hp) Hk. cbn [to_int64].
  assert (HE : 0 < 2 ^ (- e)) by (apply Z.pow_pos_nonneg; lia).
  assert (Ha : (if 0 <=? e then Zpos p * 2 ^ e else Zpos p / 2 ^ (- e)) = k).
  { destruct (Z.leb_spec 0 e).
    - assert (e = 0) by lia. subst e. change (2 ^ (- 0)) with 1 in Hp.
      change (2 ^ 0) with 1. lia.
    - replace (Zpos p) with (k * 2 ^ (- e)) by lia. apply Z.div_mul. lia. }
  rewrite Ha.
  assert (Hr : forall i, - k <= i <= k -> (- 2 ^ 63 <=? i) && (i <? 2 ^ 63) = true).
  { intros i Hi. apply andb_true_iff. split; [apply Z.leb_le | apply Z.ltb_lt];
      change (2 ^ 63) with 9223372036854775808 in *; lia. }
  destruct s; rewrite Hr by lia; reflexivity.
Qed.

(** The decimal digits [itoa] writes. *)
Lemma digits_onto_digits fuel : forall n acc,
  (1 <= fuel)%nat -> 0 <= n < 2 ^ Z.of_nat fuel ->
  exists l, Forall digit l /\ l <> []
            /\ GoFmt.digits_onto fuel n (digits_string acc) = digits_string (l ++ acc)
            /\ digits_value 0 l = n.
Proof.
  induction fuel as [|f IH]; intros n acc Hf Hn; [lia|].
  cbn [GoFmt.digits_onto].
  assert (Hd : digit (n mod 10)) by (unfold digit; Z.div_mod_to_equations; lia).
  change (String (GoFmt.digit_char (n mod 10)) (digits_string acc))
    with (digits_string (n mod 10 :: acc)).
  destruct (Z.ltb_spec n 10) as [Hlt|Hge].
  - exists [n mod 10]. repeat split.
    + constructor; [exact Hd|constructor].
    + discriminate.
    + cbn. Z.div_mod_to_equations; lia.
  - rewrite Nat2Z.inj_succ, Z.pow_succ_r in Hn by lia.
    assert (H10 : 1 <= n / 10 < 2 ^ Z.of_nat f)
      by (Z.div_mod_to_equations; lia).
    assert (Hf1 : (1 <= f)%nat).
    { destruct f; [simpl in H10; lia | lia]. }
    destruct (IH (n / 10) (n mod 10 :: acc) Hf1 ltac:(lia)) as (l & Hl & _ & E & V).
    exists (l ++ [n mod 10])%list. repeat split.
    + apply Forall_app. split; [exact Hl|]. constructor; [exact Hd|constructor].
    + destruct l; discriminate.
    + rewrite E, <- app_assoc. reflexivity.
    + rewrite digits_value_app, V. cbn. Z.div_mod_to_equations; lia.
Qed.

Lemma itoa_digits n :
  0 <= n ->
  exists l, Forall digit l /\ l <> [] /\ GoFmt.itoa n = digits_string l
            /\ digits_value 0 l = n.
Proof.
  intros Hn. unfold GoFmt.itoa.
  assert (Hb : 0 <= n < 2 ^ Z.of_nat (S (Z.to_nat (Z.log2 n)))).
  { rewrite Nat2Z.inj_succ, Z2Nat.id by apply Z.log2_nonneg.
    destruct (Z.eq_dec n 0) as [->|];
      [change (2 ^ Z.succ (Z.log2 0)) with 2; lia|].
    pose proof (Z.log2_spec n ltac:(lia)) as Hs. split; [exact Hn | apply Hs]. }
  destruct (digits_onto_digits (S (Z.to_nat (Z.log2 n))) n [] ltac:(lia) Hb)
    as (l & Hl & Hne & E & V).
  exists l. rewrite app_nil_r in E. auto.
Qed.

(** An amount printed with two fractional digits is a decimal string. *)
Lemma cents_string_decimal s c :
  0 <= c ->
  exists ip,
    Forall digit ip /\ ip <> []
    /\ GoFmt.cents_string s c
       = decimal_string (if s then MinusSign else NoSign) ip
           [c / 10 mod 10; c mod 10]
    /\ digits_value 0 (ip ++ [c / 10 mod 10; c mod 10]) = c.
Proof.
  intros Hc.
  destruct (itoa_digits (c / 100) ltac:(Z.div_mod_to_equations; lia))
    as (ip & Hip & Hne & E & V).
  exists ip. repeat split; auto.
  - unfold GoFmt.cents_string, decimal_string. rewrite E.
    destruct s; reflexivity.
  - rewrite digits_value_app, V. cbn. Z.div_mod_to_equations; lia.
Qed.

(** The value read from a printed amount. *)
Lemma ParseFloat_cents_string s c :
  0 <= c ->
  fst (GoStrconv.ParseFloat (GoFmt.cents_string s c)) = round_ne s c 100.
Proof.
  intros Hc. destruct (cents_string_decimal s c Hc) as (ip & Hip & Hne & E & V).
  rewrite E.
  assert (Hfp : Forall digit [c / 10 mod 10; c mod 10]).
  { repeat constructor; Z.div_mod_to_equations; lia. }
  rewrite (ParseFloat_decimal _ ip _ Hip Hfp Hne). rewrite V.
  destruct s; reflexivity.
Qed.

(** The value of a string of digits without a fraction. *)
Lemma NewDecial_whole sg ip :
  Forall digit ip -> ip <> [] -> 100 * digits_value 0 ip < 2 ^ 50 ->
  NewDecial (decimal_string sg ip [])
  = (if is_minus sg then - (100 * digits_value 0 ip) else 100 * digits_value 0 ip).
Proof.
  intros Hip Hne Hlt. change (2 ^ 50) with 1125899906842624 in Hlt.
  pose proof (digits_value_nonneg ip 0 Hip ltac:(lia)) as Hn.
  unfold NewDecial. cbv zeta.
  rewrite (ParseFloat_decimal sg ip [] Hip ltac:(constructor) Hne).
  rewrite app_nil_r. change (10 ^ 0) with 1. rewrite Z.mul_1_r.
  set (n := digits_value 0 ip) in *.
  destruct (Z.eq_dec n 0) as [E|E].
  - rewrite E. destruct (is_minus sg); vm_compute; reflexivity.
  - assert (Hv : has_value (round_ne (is_minus sg) n 1) (is_minus sg) n 1).
    { apply round_ne_whole; [lia | lia |].
      change (2 ^ 52) with 4503599627370496. lia. }
    destruct (mul_hundred_value _ _ _ _ Hv Z.lt_0_1) as (N & D & -> & HD & HN).
    apply to_int64_whole.
    + apply round_ne_whole; [exact HD | lia |].
      change (2 ^ 52) with 4503599627370496. lia.
    + change (2 ^ 63) with 9223372036854775808. lia.
Qed.

(** [Decimal.String] on an amount below [2^50] hundredths. *)
Lemma Decimal_String_amount d :
  - 2 ^ 50 < d < 2 ^ 50 ->
  Decimal_String d = GoFmt.cents_string (d <? 0) (Z.abs d).
Proof.
  intros Hd. destruct (Z.eq_dec d 0) as [->|Hnz]; [vm_compute; reflexivity|].
  destruct (of_int_amount d Hnz Hd) as [Hc _].
  apply Decimal_String_hundredths; [exact Hc|].
  destruct (Z.ltb_spec d 0); lia.
Qed.

(** A finite value that is not zero comes without an error. *)
Lemma ParseFloat_finite s sg p e :
  fst (GoStrconv.ParseFloat s) = S754_finite sg p e ->
  snd (GoStrconv.ParseFloat s) = None.
Proof.
  unfold GoStrconv.ParseFloat.
  destruct (GoStrconv.special s); [reflexivity|].
  destruct (GoStrconv.readFloat s) as [n|]; [|discriminate].
  destruct (GoStrconv.number_value n); try reflexivity. discriminate.
Qed.

(** Reading the text of an amount below [2^50] hundredths. *)
Lemma NewDecial_cents_string s c :
  1 <= c < 2 ^ 50 ->
  snd (GoStrconv.ParseFloat (GoFmt.cents_string s c)) = None
  /\ exists c', (c' = c \/ c' = c - 1)
                /\ NewDecial (GoFmt.cents_string s c) = (if s then - c' else c').
Proof.
  intros Hc. pose proof (ParseFloat_cents_string s c ltac:(lia)) as E.
  split.
  - destruct (hundredths_rounded s c 100 c Hc ltac:(lia) ltac:(lia) ltac:(lia))
      as (k & m & (p & e & Hv & _) & _).
    rewrite Hv in E. exact (ParseFloat_finite _ _ _ _ E).
  - unfold NewDecial. cbv zeta. rewrite E.
    apply to_int64_hundredths; lia.
Qed.

(** ** Rounding depends on the value only *)

Lemma div_nearest_even_ratio N D N' D' :
  0 < D -> 0 < D' -> N * D' = N' * D ->
  div_nearest_even N D = div_nearest_even N' D'.
Proof.
  intros HD HD' E. unfold div_nearest_even.
  pose proof (Z.div_mod N D ltac:(lia)) as E1.
  pose proof (Z.mod_pos_bound N D HD) as B1.
  pose proof (Z.div_mod N' D' ltac:(lia)) as E2.
  pose proof (Z.mod_pos_bound N' D' HD') as B2.
  set (q := N / D) in *. set (r := N mod D) in *.
  set (q' := N' / D') in *. set (r' := N' mod D') in *.
  assert (Hq : q = q').
  { assert (H : (q - q') * (D * D') = r' * D - r * D') by nia.
    assert (- (D * D') < (q - q') * (D * D') < D * D') by nia.
    assert (0 < D * D') by nia. nia. }
  assert (Hr : r * D' = r' * D) by nia.
  rewrite <- Hq.
  assert (Hc : (2 * r ?= D) = (2 * r' ?= D')).
  { destruct (Z.compare_spec (2 * r) D); destruct (Z.compare_spec (2 * r') D');
      try reflexivity; exfalso; nia. }
  rewrite Hc. reflexivity.
Qed.

Lemma round_ne_ratio s n d n' d' :
  0 < n -> 0 < d -> 0 < d' -> n * d' = n' * d ->
  n < d * 2 ^ 52 -> d <= n * 2 ^ 1000 ->
  round_ne s n d = round_ne s n' d'.
Proof.
  intros Hn Hd Hd' E Hlt Hge.
  assert (Hn' : 0 < n') by nia.
  assert (Hlt' : n' < d' * 2 ^ 52).
  { assert (0 < 2 ^ 52) by (vm_compute; reflexivity).
    assert (n' * d < d' * 2 ^ 52 * d) by nia. nia. }
  assert (Hge' : d' <= n' * 2 ^ 1000).
  { assert (0 < 2 ^ 1000) by (apply Z.pow_pos_nonneg; lia).
    assert (d' * d <= n' * 2 ^ 1000 * d) by nia. nia. }
  destruct (round_exp_spec n d Hn Hd Hlt Hge) as (k & Hk & Ek & Hnorm).
  destruct (round_exp_spec n' d' Hn' Hd' Hlt' Hge') as (k' & Hk' & Ek' & Hnorm').
  assert (Hkk : k = k').
  { assert (HA : 0 < 2 ^ k) by (apply Z.pow_pos_nonneg; lia).
    assert (HB : 0 < 2 ^ k') by (apply Z.pow_pos_nonneg; lia).
    change (2 ^ 53) with (2 * 2 ^ 52) in *.
    assert (H52 : 0 < 2 ^ 52) by (vm_compute; reflexivity).
    set (P := 2 ^ 52) in *.
    destruct (Z.lt_trichotomy k k') as [Hlt1|[Heq|Hgt1]]; [exfalso|exact Heq|exfalso].
    - assert (2 * 2 ^ k <= 2 ^ k').
      { rewrite <- Z.pow_succ_r by lia. apply Z.pow_le_mono_r; lia. }
      set (A := 2 ^ k) in *. set (B := 2 ^ k') in *.
      assert (n' * B * d < d' * (2 * P) * d) by nia.
      assert (d * P * d' <= n * A * d') by nia.
      nia.
    - assert (2 * 2 ^ k' <= 2 ^ k).
      { rewrite <- Z.pow_succ_r by lia. apply Z.pow_le_mono_r; lia. }
      set (A := 2 ^ k) in *. set (B := 2 ^ k') in *.
      assert (n * A * d' < d * (2 * P) * d') by nia.
      assert (d' * P * d <= n' * B * d) by nia.
      nia. }
  subst k'.
  unfold round_ne. destruct (Z.eqb_spec n 0); [lia|]. destruct (Z.eqb_spec n' 0); [lia|].
  unfold round_pos. rewrite Ek, Ek'. unfold scaled.
  destruct (Z.leb_spec 0 (- k)); [lia|]. rewrite Z.opp_involutive.
  rewrite (div_nearest_even_ratio (n * 2 ^ k) d (n' * 2 ^ k) d' Hd Hd') by nia.
  reflexivity.
Qed.

(** ** Dates: reading and printing *)

Lemma chr_byte_of a : chr (byte_of a) = a.
Proof.
  unfold chr, byte_of. rewrite N2Z.id. apply ascii_N_embedding.
Qed.

Lemma isDigit_char a :
  isDigit a = true ->
  0 <= digit_val a <= 9 /\ GoFmt.digit_char (digit_val a) = a.
Proof.
  unfold isDigit, digit_val, GoFmt.digit_char. intros H.
  apply andb_true_iff in H as [H1 H2]. apply Z.leb_le in H1, H2.
  split; [lia|]. replace (48 + (byte_of a - 48)) with (byte_of a) by lia.
  apply chr_byte_of.
Qed.

Lemma getyear_inv s y rest :
  GoTime.getyear s = Some (y, rest) ->
  0 <= y <= 9999 /\ s = (four_digits y ++ rest)%string.
Proof.
  unfold GoTime.getyear.
  destruct s as [|a [|b [|c [|d r]]]]; try discriminate.
  destruct (isDigit a) eqn:Ha; [|discriminate].
  destruct (isDigit b) eqn:Hb; [|discriminate].
  destruct (isDigit c) eqn:Hc; [|discriminate].
  destruct (isDigit d) eqn:Hd; [|discriminate].
  cbn [andb]. intros H; inversion H; subst; clear H.
  destruct (isDigit_char a Ha) as [Ra Ea]. destruct (isDigit_char b Hb) as [Rb Eb].
  destruct (isDigit_char c Hc) as [Rc Ec]. destruct (isDigit_char d Hd) as [Rd Ed].
  set (da := digit_val a) in *. set (db := digit_val b) in *.
  set (dc := digit_val c) in *. set (dd := digit_val d) in *.
  split; [lia|]. unfold four_digits. cbv zeta.
  replace ((((da * 10 + db) * 10 + dc) * 10 + dd) / 1000) with da
    by (Z.div_mod_to_equations; lia).
  replace ((((da * 10 + db) * 10 + dc) * 10 + dd) / 100 mod 10) with db
    by (Z.div_mod_to_equations; lia).
  replace ((((da * 10 + db) * 10 + dc) * 10 + dd) / 10 mod 10) with dc
    by (Z.div_mod_to_equations; lia).
  replace ((((da * 10 + db) * 10 + dc) * 10 + dd) mod 10) with dd
    by (Z.div_mod_to_equations; lia).
  rewrite Ea, Eb, Ec, Ed. reflexivity.
Qed.

Lemma getnum2_inv s m rest :
  GoTime.getnum2 s = Some (m, rest) ->
  0 <= m <= 99 /\ s = (two_digits m ++ rest)%string.
Proof.
  unfold GoTime.getnum2.
  destruct s as [|a [|b r]]; try discriminate.
  destruct (isDigit a) eqn:Ha; [|discriminate].
  destruct (isDigit b) eqn:Hb; [|discriminate].
  cbn [andb]. intros H; inversion H; subst; clear H.
  destruct (isDigit_char a Ha) as [Ra Ea]. destruct (isDigit_char b Hb) as [Rb Eb].
  set (da := digit_val a) in *. set (db := digit_val b) in *.
  split; [lia|]. unfold two_digits. cbv zeta.
  replace ((da * 10 + db) / 10) with da by (Z.div_mod_to_equations; lia).
  replace ((da * 10 + db) mod 10) with db by (Z.div_mod_to_equations; lia).
  rewrite Ea, Eb. reflexivity.
Qed.

Lemma date_string_digits y m d :
  date_string y m d = (four_digits y ++ two_digits m ++ two_digits d)%string.
Proof. reflexivity. Qed.

(** What [time.Parse] accepts is the eight digits of a valid date. *)
Lemma Parse_20060102_inv s t :
  GoTime.Parse_20060102 s = Some t ->
  valid_date (year t) (month t) (day t)
  /\ s = date_string (year t) (month t) (day t).
Proof.
  unfold GoTime.Parse_20060102.
  destruct (GoTime.getyear s) as [[y v1]|] eqn:Ey; [|discriminate].
  destruct (GoTime.getnum2 v1) as [[m v2]|] eqn:Em; [|discriminate].
  destruct ((m <=? 0) || (12 <? m)) eqn:Hm; [discriminate|].
  destruct (GoTime.getnum2 v2) as [[d v3]|] eqn:Ed; [|discriminate].
  destruct v3; [|discriminate].
  destruct ((d <? 1) || (GoTime.daysIn m y <? d)) eqn:Hd; [discriminate|].
  intros H; inversion H; subst; clear H. cbn [year month day].
  apply getyear_inv in Ey as [Ry ->]. apply getnum2_inv in Em as [Rm ->].
  apply getnum2_inv in Ed as [Rd ->].
  apply orb_false_iff in Hm as [Hm1 Hm2]. apply orb_false_iff in Hd as [Hd1 Hd2].
  apply Z.leb_gt in Hm1. apply Z.ltb_ge in Hm2, Hd1, Hd2.
  split; [unfold valid_date; lia|].
  rewrite date_string_digits, string_app_nil_r. reflexivity.
Qed.

Lemma all_from_spec f n : forall z y,
  all_from n z f = true -> z <= y < z + Z.of_nat n -> f y = true.
Proof.
  induction n as [|k IH]; intros z y H Hy; [lia|].
  cbn [all_from] in H. apply andb_true_iff in H as [H0 Hk].
  destruct (Z.eq_dec y z) as [->|Hne]; [exact H0|].
  apply (IH (z + 1)); [exact Hk | lia].
Qed.

(** [appendInt] on the numbers of a date. *)
Lemma appendInt_four y :
  0 <= y <= 9999 -> GoTimeFormat.appendInt y 4 = four_digits y.
Proof.
  intros Hy.
  assert (H : all_from (Z.to_nat 10000) 0
                (fun n => String.eqb (GoTimeFormat.appendInt n 4) (four_digits n))
              = true) by (vm_compute; reflexivity).
  apply String.eqb_eq. apply (all_from_spec _ _ 0 y H). lia.
Qed.

Lemma appendInt_two m :
  0 <= m <= 99 -> GoTimeFormat.appendInt m 2 = two_digits m.
Proof.
  intros Hm.
  assert (H : all_from (Z.to_nat 100) 0
                (fun n => String.eqb (GoTimeFormat.appendInt n 2) (two_digits n))
              = true) by (vm_compute; reflexivity).
  apply String.eqb_eq. apply (all_from_spec _ _ 0 m H). lia.
Qed.

Lemma Format_valid_date y m d :
  valid_date y m d ->
  GoTimeFormat.Format_2006_01_02 {| year := y; month := m; day := d |}
  = (four_digits y ++ "/" ++ two_digits m ++ "/" ++ two_digits d)%string
  /\ GoTimeFormat.Time_String {| year := y; month := m; day := d |}
     = (four_digits y ++ "-" ++ two_digits m ++ "-" ++ two_digits d
        ++ " 00:00:00 +0000 UTC")%string.
Proof.
  intros (Hy & Hm & Hd). pose proof (daysIn_le m y).
  unfold GoTimeFormat.Format_2006_01_02, GoTimeFormat.Time_String.
  cbn [year month day].
  rewrite (appendInt_four y Hy), (appendInt_two m ltac:(lia)),
    (appendInt_two d ltac:(lia)).
  split; reflexivity.
Qed.

(** ** Printing a transaction and a statement *)

Lemma count_from_ascii s :
  ascii_only s = true -> GoUtf8.count_from 0 s = String.length s.
Proof.
  induction s as [|c s IH]; [reflexivity|].
  cbn [ascii_only]. intros H. apply andb_true_iff in H as [Hc Hs].
  cbn [GoUtf8.count_from GoUtf8.rune_size String.length]. rewrite Hc.
  cbn [Nat.pred]. rewrite (IH Hs). reflexivity.
Qed.

Lemma spaces_length n : String.length (GoFmt.spaces n) = n.
Proof. induction n as [|n IH]; simpl; congruence. Qed.

(** A padded ASCII text that fits its column fills it exactly. *)
Lemma pad_right_ascii wid s :
  ascii_only s = true -> (String.length s <= wid)%nat ->
  GoFmt.pad_right wid s = (s ++ GoFmt.spaces (wid - String.length s))%string
  /\ String.length (GoFmt.pad_right wid s) = wid.
Proof.
  intros Ha Hl. unfold GoFmt.pad_right, GoUtf8.RuneCountInString.
  rewrite (count_from_ascii s Ha). split; [reflexivity|].
  rewrite string_app_length, spaces_length. lia.
Qed.

Lemma substring_skip (a s : string) k n :
  String.substring (String.length a + k) n (a ++ s) = String.substring k n s.
Proof. induction a as [|c a IH]; simpl; [reflexivity|exact IH]. Qed.

(** The column that starts after [a] and is [length b] bytes wide. *)
Lemma substring_column (a b c : string) n m :
  n = String.length a -> m = String.length b ->
  String.substring n m (a ++ b ++ c) = b.
Proof.
  intros -> ->. rewrite <- (Nat.add_0_r (String.length a)), substring_skip.
  apply substring_prefix.
Qed.

Lemma Format_length y m d :
  valid_date y m d ->
  String.length (GoTimeFormat.Format_2006_01_02 {| year := y; month := m; day := d |})
  = 10%nat.
Proof.
  intros Hv. destruct (Format_valid_date y m d Hv) as [-> _]. reflexivity.
Qed.

(** The buffer of [Ofx.String] after the loop over the transactions. *)
Lemma fold_lines txs : forall buf,
  fold_left (fun buf t => (buf ++ Sprintf_transaction t)%string) txs buf
  = (buf ++ transaction_lines txs)%string.
Proof.
  induction txs as [|t txs IH]; intros buf; simpl.
  - rewrite string_app_nil_r. reflexivity.
  - rewrite IH, string_app_assoc. reflexivity.
Qed.

(** ** Trimmed text *)

(** What is left after trimming from the front starts with no white space. *)
Lemma trim_left_done encs : forall s k,
  GoStrings.leading_space encs (GoStrings.trim_left encs k s) = O.
Proof.
  induction s as [|c s IH]; intros k.
  - destruct k; reflexivity.
  - destruct k as [|k].
    + rewrite trim_left_0.
      destruct (GoStrings.leading_space encs (String c s)) as [|j] eqn:E.
      * exact E.
      * apply IH.
    + cbn [GoStrings.trim_left]. apply IH.
Qed.

(** Trimming from the front returns the end of the string. *)
Lemma trim_left_suffix encs : forall s k,
  exists p, s = (p ++ GoStrings.trim_left encs k s)%string.
Proof.
  induction s as [|c s IH]; intros k.
  - exists "". destruct k; reflexivity.
  - destruct k as [|k].
    + rewrite trim_left_0.
      destruct (GoStrings.leading_space encs (String c s)) as [|j].
      * exists "". reflexivity.
      * destruct (IH j) as [p Hp]. exists (String c p). simpl. congruence.
    + cbn [GoStrings.trim_left]. destruct (IH k) as [p Hp].
      exists (String c p). simpl. congruence.
Qed.

Lemma leading_space_first encs c s :
  GoStrings.leading_space encs (String c s) = O -> GoStrings.asciiSpace c = false.
Proof.
  unfold GoStrings.leading_space. destruct (GoStrings.asciiSpace c); [discriminate|].
  reflexivity.
Qed.

Lemma string_rev_snoc s c : string_rev (s ++ String c "") = String c (string_rev s).
Proof. rewrite string_rev_app. reflexivity. Qed.

Lemma TrimSpace_ends data :
  (forall c rest, GoStrings.TrimSpace data = String c rest ->
                  GoStrings.asciiSpace c = false)
  /\ (forall front c, GoStrings.TrimSpace data = (front ++ String c "")%string ->
                      GoStrings.asciiSpace c = false)
  /\ exists a b, data = (a ++ GoStrings.TrimSpace data ++ b)%string.
Proof.
  unfold GoStrings.TrimSpace, GoStrings.TrimRightSpace.
  set (L := GoStrings.TrimLeftSpace data).
  set (encs' := List.map (fun l => string_rev (bytes l)) GoStrings.unicode_spaces).
  set (rr := GoStrings.trim_left encs' 0 (string_rev L)).
  destruct (trim_left_suffix encs' (string_rev L) O) as [p Hp]. fold rr in Hp.
  assert (HL : L = (string_rev rr ++ string_rev p)%string).
  { rewrite <- string_rev_app, <- Hp, string_rev_involutive. reflexivity. }
  destruct (trim_left_suffix (List.map bytes GoStrings.unicode_spaces) data O)
    as [a Ha].
  change (GoStrings.trim_left (List.map bytes GoStrings.unicode_spaces) 0 data)
    with L in Ha.
  split; [|split].
  - intros c rest E. rewrite E in HL. cbn [String.append] in HL.
    pose proof (trim_left_done (List.map bytes GoStrings.unicode_spaces) data O) as Hd.
    change (GoStrings.trim_left (List.map bytes GoStrings.unicode_spaces) 0 data)
      with L in Hd.
    rewrite HL in Hd. exact (leading_space_first _ _ _ Hd).
  - intros front c E.
    assert (Er : rr = String c (string_rev front)).
    { rewrite <- (string_rev_involutive rr), E. apply string_rev_snoc. }
    pose proof (trim_left_done encs' (string_rev L) O) as Hd. fold rr in Hd.
    rewrite Er in Hd. exact (leading_space_first _ _ _ Hd).
  - exists a, (string_rev p). rewrite <- HL. exact Ha.
Qed.

(** ** The last field of a block *)


(** ** Character data of white space only *)

Lemma trim_left_all_space encs s :
  all_space s = true -> GoStrings.trim_left encs 0 s = EmptyString.
Proof.
  induction s as [|c s IH]; [reflexivity|].
  cbn [all_space]. intros H. apply andb_true_iff in H as [Hc Hs].
  rewrite trim_left_0. unfold GoStrings.leading_space. rewrite Hc.
  cbn [GoStrings.trim_left]. apply IH. exact Hs.
Qed.

Lemma TrimSpace_all_space s :
  all_space s = true -> GoStrings.TrimSpace s = EmptyString.
Proof.
  intros H. unfold GoStrings.TrimSpace, GoStrings.TrimLeftSpace.
  rewrite (trim_left_all_space _ s H). reflexivity.
Qed.

(** * Further properties

    Properties of the code beyond the claims above: of the loop of [Parse],
    of the conversions of [Decimal], of the two [String] methods and of
    [main]. *)

(** ** Comments, processing instructions and directives *)

(** X1.  Tokens that are neither a start element, nor character data, nor
    an end element (comments, processing instructions, directives) have no
    effect on the result: [Parse] gives the same record, error or panic with
    and without them. *)
Theorem X1_other_tokens_ignored (toks : list Token) :
  Parse (List.filter (fun t => negb (is_other t)) toks) = Parse toks.
Proof. unfold Parse. rewrite run_without_other. reflexivity. Qed.

(** ** The transaction list only grows *)

(** X2.  When [Parse] succeeds on an input, it succeeds on every prefix of
    it, and the transaction list of the prefix is an initial segment of the
    list of the whole input: reading more tokens never removes, reorders or
    changes an entry that was appended. *)
Theorem X2_transactions_only_grow (a b : list Token) (o' : Ofx) :
  Parse (a ++ b) = Ok o' ->
  exists o l, Parse a = Ok o /\ Transactions o' = (Transactions o ++ l)%list.
Proof.
  unfold Parse. rewrite run_app.
  destruct (run init a) as [st| |] eqn:Ea; try discriminate.
  destruct (run st b) as [st'| |] eqn:Eb; try discriminate.
  intros H; inversion H; subst; clear H.
  destruct (run_grows b st st' Eb) as [l Hl].
  exists (ofx st), l. auto.
Qed.

(** The first transaction stays in front when a second block follows. *)
Lemma X2_witness :
  exists o l,
    Parse (transaction_block "1" []) = Ok o
    /\ Transactions (set_Transactions
                       [Some (set_FitID "1" new_transaction);
                        Some (set_FitID "2" new_transaction)] new_ofx)
       = (Transactions o ++ l)%list.
Proof.
  apply (X2_transactions_only_grow (transaction_block "1" [])
           (transaction_block "2" [])).
  reflexivity.
Defined.

(** ** Entries and transaction start tags *)

(** X3.  Every entry of the transaction list comes from one transaction
    start tag: when [Parse] returns, the number of entries plus the number
    of transaction markers still on the open path is the number of
    transaction start tags read.  So the list never has more entries than
    the input has transaction start tags. *)
Theorem X3_entries_and_start_tags (toks : list Token) (o : Ofx) :
  Parse toks = Ok o ->
  (exists st,
     run init toks = Continue st /\ ofx st = o
     /\ (length (Transactions o) + markers (path st)
         = transaction_starts toks)%nat)
  /\ (length (Transactions o) <= transaction_starts toks)%nat.
Proof.
  unfold Parse. destruct (run init toks) as [st| |] eqn:E; try discriminate.
  intros H; inversion H; subst; clear H.
  pose proof (run_markers toks init st init_wf E) as Hm.
  change (length (Transactions (ofx init)) + markers (path init))%nat with O in Hm.
  split; [exists st; auto | lia].
Qed.

(** Two start tags, one end tag: one entry, one marker left open. *)
Lemma X3_witness :
  (exists st,
     run init [StartElement "STMTTRN"; StartElement "STMTTRN"; EndElement "STMTTRN"]
     = Continue st
     /\ ofx st = set_Transactions [Some new_transaction] new_ofx
     /\ (length (Transactions (set_Transactions [Some new_transaction] new_ofx))
         + markers (path st)
         = transaction_starts
             [StartElement "STMTTRN"; StartElement "STMTTRN"; EndElement "STMTTRN"])%nat)
  /\ (length (Transactions (set_Transactions [Some new_transaction] new_ofx))
      <= transaction_starts
           [StartElement "STMTTRN"; StartElement "STMTTRN"; EndElement "STMTTRN"])%nat.
Proof.
  apply (X3_entries_and_start_tags
           [StartElement "STMTTRN"; StartElement "STMTTRN"; EndElement "STMTTRN"]).
  reflexivity.
Defined.

(** ** A sequence of transaction blocks *)

(** X4.  Transaction blocks that follow one another (each one the start tag
    of the transaction, leaf fields with or without closing tags, and the end
    tag of the transaction) add one entry each, in the order of the document,
    and each entry is the transaction its own block describes, built from a
    fresh transaction: no field of an earlier block or of the statement
    reaches it. *)
Theorem X4_blocks_in_document_order
    (pre : list Token) (st0 : state) (bs : list (list leaf)) :
  run init pre = Continue st0 -> next st0 = none ->
  Forall (fun fields =>
            forallb block_leaf fields = true
            /\ (stackPos st0 + 1 + length fields <= stack_capacity)%nat) bs ->
  exists o,
    Parse (pre ++ flat_map block bs) = Ok o
    /\ Transactions o
       = (Transactions (ofx st0)
          ++ List.map (fun fields => Some (block_transaction fields)) bs)%list.
Proof.
  intros Hpre Hnext Hall.
  destruct (run_blocks bs st0 (run_wf pre init st0 init_wf Hpre) Hnext Hall)
    as (st' & R & X & _).
  exists (ofx st'). unfold Parse. rewrite run_app, Hpre, R. auto.
Qed.

(** Two blocks inside the list of transactions of a statement. *)
Lemma X4_witness :
  exists o,
    Parse ([StartElement "BANKTRANLIST"]
           ++ flat_map block
                [ [unclosed "FITID" "1"; unclosed "TRNAMT" "-42.5";
                   closed "MEMO" "rent"];
                  [unclosed "FITID" "2"; unclosed "NAME" " shop "] ]) = Ok o
    /\ Transactions o
       = ([] ++ List.map (fun fields => Some (block_transaction fields))
                  [ [unclosed "FITID" "1"; unclosed "TRNAMT" "-42.5";
                     closed "MEMO" "rent"];
                    [unclosed "FITID" "2"; unclosed "NAME" " shop "] ])%list.
Proof.
  assert (H : match run init [StartElement "BANKTRANLIST"] with
              | Continue st => next st = none /\ stackPos st = 1%nat
                               /\ Transactions (ofx st) = []
              | _ => False
              end) by (vm_compute; auto).
  destruct (run init [StartElement "BANKTRANLIST"]) as [st| |] eqn:E;
    try contradiction.
  destruct H as (Hn & Hp & Ht). rewrite <- Ht.
  apply (X4_blocks_in_document_order [StartElement "BANKTRANLIST"] st _ E Hn).
  rewrite Hp. repeat constructor; apply Nat.leb_le; reflexivity.
Defined.

(** ** A transaction start tag inside an open transaction *)

(** X5.  A transaction start tag read while a transaction is open replaces
    the holder by a fresh transaction, and the fields stored so far are
    lost.  The marker of the first transaction stays on the open path: when
    the inner block is closed its transaction is appended, and when the
    outer end tag is read a nil entry is appended for the first
    transaction. *)
Theorem X5_nested_transaction_start
    (pre : list Token) (st0 : state) (fields1 fields2 : list leaf) :
  run init pre = Continue st0 -> next st0 = none ->
  forallb block_leaf fields1 = true -> forallb block_leaf fields2 = true ->
  (stackPos st0 + 2 + length fields1 + length fields2 <= stack_capacity)%nat ->
  exists o,
    Parse (pre ++ (StartElement "STMTTRN" :: leaf_tokens fields1)
               ++ block fields2 ++ [EndElement "STMTTRN"]) = Ok o
    /\ Transactions o
       = (Transactions (ofx st0) ++ [Some (block_transaction fields2); None])%list.
Proof.
  intros Hpre Hnext Hleaf1 Hleaf2 Hroom.
  pose proof (run_wf pre init st0 init_wf Hpre) as Hwf.
  destruct (run_block_open st0 fields1 Hwf Hnext ltac:(lia) Hleaf1)
    as (st1 & R1 & P1 & N1 & T1 & X1 & W1 & S1).
  pose proof (open_tags_length fields1) as Hopen.
  destruct (run_block st1 fields2 W1 N1 ltac:(lia) Hleaf2)
    as (st2 & R2 & X2 & T2 & P2 & N2 & [L2 Q2] & S2).
  destruct (on_end_resolve st2 "STMTTRN" ltac:(lia))
    as (st3 & R3 & _ & O3 & _).
  rewrite P2, P1, T2 in O3.
  rewrite (resolve_transaction_block _ _ _ _ (block_open_tags fields1 Hleaf1)) in O3.
  cbn [fst snd] in O3.
  exists (ofx st3). unfold Parse.
  rewrite run_app, Hpre, run_app, R1, run_app, R2. cbn [run]. rewrite R3.
  split; [reflexivity|]. rewrite O3. cbn [Transactions set_Transactions].
  rewrite X2, X1, <- app_assoc. reflexivity.
Qed.

(** The first transaction had the id 1 and an amount: the list holds the
    second transaction and a nil entry. *)
Lemma X5_witness :
  exists o,
    Parse ([] ++ (StartElement "STMTTRN"
                  :: leaf_tokens [unclosed "FITID" "1"; unclosed "TRNAMT" "5"])
              ++ block [unclosed "FITID" "2"] ++ [EndElement "STMTTRN"]) = Ok o
    /\ Transactions o
       = (Transactions (ofx init)
          ++ [Some (block_transaction [unclosed "FITID" "2"]); None])%list.
Proof.
  apply (X5_nested_transaction_start [] init
           [unclosed "FITID" "1"; unclosed "TRNAMT" "5"] [unclosed "FITID" "2"]).
  - reflexivity.
  - reflexivity.
  - reflexivity.
  - reflexivity.
  - apply Nat.leb_le. reflexivity.
Defined.

(** ** The fields of the statement: the last start tag wins *)

(** X6.  For each field of the statement that [Parse] assigns (account
    number, bank number, account type, currency, ledger balance, available
    balance): when [Parse] succeeds, the field holds the trimmed text, or the
    amount read from it, of the character data that directly follows the
    last start tag of the field. *)
Theorem X6_statement_field_last_wins
    (tag : string) (key : nextKey) (get : Ofx -> value) (conv : string -> value)
    (pre post : list Token) (data : string) (o : Ofx) :
  In (tag, key, get, conv) statement_fields ->
  forallb (fun tok => negb (is_start_of tag tok)) post = true ->
  Parse (pre ++ StartElement tag :: CharData data :: post) = Ok o ->
  get o = conv (GoStrings.TrimSpace data).
Proof.
  intros Hin Hpost. unfold Parse. rewrite run_app.
  destruct (run init pre) as [st| |] eqn:Epre; try discriminate.
  pose proof (run_wf pre init st init_wf Epre) as Hwf.
  cbn [run]. destruct (step st (StartElement tag)) as [st1| |] eqn:E1; try discriminate.
  pose proof (step_wf _ _ _ Hwf E1) as Hwf1.
  assert (N1 : next st1 = key).
  { cbn [step] in E1. unfold on_start in E1.
    destruct (stackPos st <? length (stack st))%nat; [|discriminate].
    rewrite (proj1 (statement_field_dispatch tag key get conv Hin)) in E1.
    inversion E1; reflexivity. }
  destruct (proj1 (statement_field_store tag key get conv Hin st1 data) N1)
    as (st2 & E2 & G2 & N2).
  rewrite E2. pose proof (step_wf _ _ _ Hwf1 E2) as Hwf2.
  destruct (run st2 post) as [st3| |] eqn:E3; try discriminate.
  intros H; inversion H; subst o; clear H.
  assert (Hk : next st2 <> key).
  { rewrite N2. clear -Hin. intros E. subst key. simpl in Hin.
    repeat destruct Hin as [Hin|Hin]; try contradiction; inversion Hin. }
  destruct (run_field_kept tag key get conv Hin post st2 st3 Hwf2 Hpost Hk E3)
    as [_ G3].
  congruence.
Qed.

(** The account number is given twice: the second one is returned. *)
Lemma X6_witness :
  Text (AccountNumber
          (set_AccountNumber "2" (set_Currency "EUR" new_ofx)))
  = Text (GoStrings.TrimSpace " 2 ").
Proof.
  apply (X6_statement_field_last_wins "ACCTID" acctID
           (fun o => Text (AccountNumber o)) Text
           [StartElement "ACCTID"; CharData "1"]
           [StartElement "CURDEF"; CharData "EUR"] " 2 ").
  - left. reflexivity.
  - reflexivity.
  - reflexivity.
Defined.

(** ** The pending-field marker outlives tags *)

(** X7.  Only character data and the start tags of the dispatch table change
    the pending-field marker: end tags, start tags that are not in the table
    (the transaction start tag among them) and other tokens leave it armed.
    So the text stored in a field of the statement is the next character
    data after its start tag, even when end tags or unknown start tags come
    between them: the amount of a balance is the text of its [BALAMT]
    child. *)
Theorem X7_marker_outlives_tags (st : state) (quiet : list Token) (st1 : state) :
  wf st -> forallb keeps_marker quiet = true -> run st quiet = Continue st1 ->
  next st1 = next st
  /\ (forall tag key get conv data,
        In (tag, key, get, conv) statement_fields -> next st = key ->
        exists st2,
          run st (quiet ++ [CharData data]) = Continue st2
          /\ get (ofx st2) = conv (GoStrings.TrimSpace data)).
Proof.
  intros Hwf Hq Hrun.
  destruct (run_keeps_marker quiet st st1 Hwf Hq Hrun) as [Hn _].
  split; [exact Hn|].
  intros tag key get conv data Hin Hkey.
  destruct (proj1 (statement_field_store tag key get conv Hin st1 data)
              ltac:(congruence)) as (st2 & E2 & G2 & _).
  exists st2. rewrite run_app, Hrun. cbn [run]. rewrite E2. auto.
Qed.

(** The amount of a ledger balance is the text of its [BALAMT] child, a tag
    that is not in the table: it is stored as the ledger balance. *)
Lemma X7_witness :
  exists st2,
    run init ([StartElement "LEDGERBAL"]
              ++ [StartElement "BALAMT"] ++ [CharData "1234.56"])
    = Continue st2
    /\ Money (LedgerBalance (ofx st2))
       = Money (NewDecial (GoStrings.TrimSpace "1234.56")).
Proof.
  assert (H : match run init [StartElement "LEDGERBAL"] with
              | Continue st =>
                  wf st /\ next st = legerBal
                  /\ exists st1, run st [StartElement "BALAMT"] = Continue st1
              | _ => False
              end).
  { vm_compute. split; [split; [reflexivity|]|split; [reflexivity|eexists; reflexivity]].
    apply Nat.leb_le. reflexivity. }
  destruct (run init [StartElement "LEDGERBAL"]) as [st| |] eqn:E; try contradiction.
  destruct H as (Hwf & Hn & st1 & E1).
  destruct (proj2 (X7_marker_outlives_tags st [StartElement "BALAMT"] st1 Hwf
                     eq_refl E1)
              "LEDGERBAL" legerBal (fun o => Money (LedgerBalance o))
              (fun res => Money (NewDecial res)) "1234.56"
              ltac:(do 4 right; left; reflexivity) Hn) as (st2 & R2 & G2).
  exists st2. rewrite run_app, E. auto.
Defined.

(** ** The branch id *)

(** X8.  The text of a [BRANCHID] element is never stored: the tag arms a
    marker that no case of the character-data switch handles (the case is
    commented out, lines 181-182), so the result of [Parse] does not depend
    on that text. *)
Theorem X8_branch_id_text_dropped (pre post : list Token) (d d' : string) :
  Parse (pre ++ StartElement "BRANCHID" :: CharData d :: post)
  = Parse (pre ++ StartElement "BRANCHID" :: CharData d' :: post).
Proof.
  unfold Parse. rewrite !run_app.
  destruct (run init pre) as [st| |]; try reflexivity.
  cbn [run step]. unfold on_start.
  destruct (stackPos st <? length (stack st))%nat; [|reflexivity].
  change (dispatch "BRANCHID" (next st) (trans st)) with (branchID, trans st).
  cbn iota. reflexivity.
Qed.

(** ** Panics of [Parse] *)

(** X9.  [Parse] panics in exactly two situations.  It panics with an index
    out of range when a start tag arrives while the open path holds 1000
    names.  It panics with a nil dereference when character data arrives
    while the holder is nil and the marker is one of the transaction fields
    (for the posted date: with a text that is accepted as a date; a refused
    date returns the error first). *)
Theorem X9_panics_of_Parse (toks : list Token) (p : panic) :
  Parse toks = Crash p <->
  exists pre tok post st,
    toks = (pre ++ tok :: post)%list /\ run init pre = Continue st
    /\ ((p = IndexOutOfRange /\ is_start tok = true
         /\ stackPos st = stack_capacity)
        \/ (p = NilDereference /\ trans st = None
            /\ exists data,
                 tok = CharData data
                 /\ through_holder (next st) (GoStrings.TrimSpace data) = true)).
Proof.
  unfold Parse. split.
  - destruct (run init toks) as [st| |] eqn:E; try discriminate.
    intros H; inversion H; subst; clear H.
    apply run_panic in E as (pre & tok & post & st1 & -> & R & S).
    exists pre, tok, post, st1. split; [reflexivity|]. split; [exact R|].
    apply (step_panic st1 tok p (run_wf pre init st1 init_wf R)). exact S.
  - intros (pre & tok & post & st & -> & R & H).
    apply (step_panic st tok p (run_wf pre init st init_wf R)) in H.
    assert (E : run init (pre ++ tok :: post) = Panic p).
    { apply run_panic. exists pre, tok, post, st. auto. }
    rewrite E. reflexivity.
Qed.

(** X10.  An input with at most 1000 start tags never overflows the path
    stack: the open path is never longer than the number of start tags
    read. *)
Theorem X10_no_overflow_below_capacity (toks : list Token) :
  (length (List.filter is_start toks) <= stack_capacity)%nat ->
  Parse toks <> Crash IndexOutOfRange.
Proof.
  intros Hcount Hcrash. unfold Parse in Hcrash.
  destruct (run init toks) as [st| |] eqn:E; try discriminate.
  inversion Hcrash; subst; clear Hcrash.
  apply run_panic in E as (pre & tok & post & st1 & -> & R & S).
  apply (step_panic st1 tok _ (run_wf pre init st1 init_wf R)) in S.
  destruct S as [(_ & Hs & Hfull)|(Hp & _)]; [|discriminate].
  apply run_depth in R. cbn [stackPos init] in R.
  rewrite List.filter_app, length_app in Hcount. cbn [List.filter] in Hcount.
  rewrite Hs in Hcount. cbn [length] in Hcount. lia.
Qed.

(** One thousand nested start tags are within the capacity. *)
Lemma X10_witness :
  Parse (replicate 1000 (StartElement "A")) <> Crash IndexOutOfRange.
Proof.
  apply X10_no_overflow_below_capacity.
  apply Nat.leb_le. vm_compute. reflexivity.
Defined.

(** ** [Decimal.String] on every amount *)

(** X11.  [Decimal.String] prints every amount below [2^50] hundredths in
    magnitude exactly: a minus sign for a negative amount, the whole units,
    a point and the two digits of the hundredths, although it goes through
    a division in binary floating point.  Beyond the range of the integers
    that [float64] holds exactly the digits are no longer those of the
    amount. *)
Theorem X11_String_exact :
  (forall d : Decimal,
     - 2 ^ 50 < d < 2 ^ 50 ->
     Decimal_String d = GoFmt.cents_string (d <? 0) (Z.abs d))
  /\ Decimal_String (2 ^ 53 + 1) = "90071992547409.92"
  /\ GoFmt.cents_string false (2 ^ 53 + 1) = "90071992547409.93".
Proof.
  split; [exact Decimal_String_amount|split; vm_compute; reflexivity].
Qed.

(** The amount -4250 prints as "-42.50". *)
Lemma X11_witness : Decimal_String (- 4250) = "-42.50".
Proof.
  rewrite (proj1 X11_String_exact (- 4250)).
  - reflexivity.
  - vm_compute. split; reflexivity.
Defined.

(** ** [Decimal.Float64] and [NewDecialFromFloat64] *)

(** X12.  Converting an amount below [2^50] hundredths to [float64] and back
    gives the amount or, for an amount that is not zero, the amount one
    hundredth nearer to zero: [Float64] rounds the quotient by 100 and
    [NewDecialFromFloat64] truncates the product with 100.  The loss
    happens: 29 hundredths come back as 28. *)
Theorem X12_Float64_round_trip :
  (forall d : Decimal,
     - 2 ^ 50 < d < 2 ^ 50 ->
     exists c',
       (c' = Z.abs d \/ (c' = Z.abs d - 1 /\ d <> 0))
       /\ NewDecialFromFloat64 (Decimal_Float64 d)
          = (if d <? 0 then - c' else c'))
  /\ NewDecialFromFloat64 (Decimal_Float64 29) = 28.
Proof.
  split; [|vm_compute; reflexivity].
  intros d Hd. destruct (Z.eq_dec d 0) as [->|Hnz].
  - exists 0. split; [left; reflexivity | vm_compute; reflexivity].
  - destruct (of_int_amount d Hnz Hd) as [Hc Hv].
    unfold NewDecialFromFloat64, Decimal_Float64. cbv zeta.
    destruct (div_hundred_value _ _ _ _ Hv Z.lt_0_1) as (N & D & -> & HD & HN).
    assert (HNpos : 0 < N) by nia.
    destruct (to_int64_hundredths (d <? 0) N D (Z.abs d) Hc HNpos HD ltac:(lia))
      as (c' & Hc' & ->).
    exists c'. split; [|reflexivity].
    destruct Hc' as [->| ->]; [left; reflexivity | right; split; [reflexivity|exact Hnz]].
Qed.

(** The amount -4250 comes back as -4250 or as -4249. *)
Lemma X12_witness :
  exists c',
    (c' = Z.abs (- 4250) \/ (c' = Z.abs (- 4250) - 1 /\ - 4250 <> 0))
    /\ NewDecialFromFloat64 (Decimal_Float64 (- 4250))
       = (if - 4250 <? 0 then - c' else c').
Proof.
  apply (proj1 X12_Float64_round_trip (- 4250)).
  vm_compute. split; reflexivity.
Defined.

(** ** [Decimal.String] and [Decimal.SetString] *)

(** X13.  [SetString] does not read its receiver: it is [NewDecial].  It
    reads the text [String] prints without an error, and for an amount
    below [2^50] hundredths it gives the amount back or, for an amount that
    is not zero, the amount one hundredth nearer to zero.  The loss
    happens: "0.29", the text of 29 hundredths, is read as 28. *)
Theorem X13_String_SetString :
  (forall (r : Decimal) (s : string), Decimal_SetString r s = NewDecial s)
  /\ (forall r d : Decimal,
        - 2 ^ 50 < d < 2 ^ 50 ->
        snd (GoStrconv.ParseFloat (Decimal_String d)) = None
        /\ exists c',
             (c' = Z.abs d \/ (c' = Z.abs d - 1 /\ d <> 0))
             /\ Decimal_SetString r (Decimal_String d)
                = (if d <? 0 then - c' else c'))
  /\ Decimal_String 29 = "0.29"
  /\ Decimal_SetString 0 (Decimal_String 29) = 28.
Proof.
  split; [reflexivity|]. split; [|split; vm_compute; reflexivity].
  intros r d Hd. destruct (Z.eq_dec d 0) as [->|Hnz].
  - split; [vm_compute; reflexivity|].
    exists 0. split; [left; reflexivity | vm_compute; reflexivity].
  - destruct (of_int_amount d Hnz Hd) as [Hc _].
    rewrite (Decimal_String_amount d Hd).
    destruct (NewDecial_cents_string (d <? 0) (Z.abs d) Hc) as [Herr (c' & Hc' & E)].
    split; [exact Herr|]. exists c'. split.
    + destruct Hc' as [->| ->]; [left; reflexivity | right; split; [reflexivity|exact Hnz]].
    + exact E.
Qed.

(** The text of -4250 hundredths is read as -4250 or as -4249, whatever the
    receiver. *)
Lemma X13_witness :
  snd (GoStrconv.ParseFloat (Decimal_String (- 4250))) = None
  /\ exists c',
       (c' = Z.abs (- 4250) \/ (c' = Z.abs (- 4250) - 1 /\ - 4250 <> 0))
       /\ Decimal_SetString 7 (Decimal_String (- 4250))
          = (if - 4250 <? 0 then - c' else c').
Proof.
  apply (proj1 (proj2 X13_String_SetString) 7 (- 4250)).
  vm_compute. split; reflexivity.
Defined.

(** ** Whole amounts *)

(** X14.  A string of decimal digits without a fraction, with an optional
    sign, is read exactly: [NewDecial] gives a hundred times its value, with
    its sign, and no hundredth is lost (below [2^50] hundredths).  Printing
    the amount gives the digits back with the fraction "00". *)
Theorem X14_whole_amounts_exact (sg : sign) (ip : list Z) :
  Forall digit ip -> ip <> [] -> 100 * digits_value 0 ip < 2 ^ 50 ->
  NewDecial (decimal_string sg ip [])
  = (if is_minus sg then - (100 * digits_value 0 ip) else 100 * digits_value 0 ip)
  /\ Decimal_String (NewDecial (decimal_string sg ip []))
     = normalized sg ip [].
Proof.
  intros Hip Hne Hlt. pose proof (NewDecial_whole sg ip Hip Hne Hlt) as E.
  split; [exact E|]. rewrite E.
  pose proof (digits_value_nonneg ip 0 Hip ltac:(lia)) as Hn.
  unfold normalized, hundredths. rewrite app_nil_r.
  change (10 ^ (2 - Z.of_nat (length (@nil Z)))) with 100.
  set (n := digits_value 0 ip) in *.
  change (2 ^ 50) with 1125899906842624 in Hlt.
  rewrite Decimal_String_amount
    by (change (2 ^ 50) with 1125899906842624; destruct (is_minus sg); lia).
  destruct (Z.eq_dec n 0) as [Hz|Hz].
  - rewrite Hz. destruct (is_minus sg); reflexivity.
  - destruct (is_minus sg); cbn [andb].
    + destruct (Z.ltb_spec (- (100 * n)) 0); [|lia].
      destruct (Z.ltb_spec 0 (n * 100)); [|lia].
      f_equal. lia.
    + destruct (Z.ltb_spec (100 * n) 0); [lia|]. f_equal. lia.
Qed.

(** "-42" is read as -4200 hundredths and printed as "-42.00". *)
Lemma X14_witness :
  NewDecial "-42" = - 4200 /\ Decimal_String (NewDecial "-42") = "-42.00".
Proof.
  destruct (X14_whole_amounts_exact MinusSign [4; 2]) as [E1 E2].
  - repeat constructor; unfold digit; lia.
  - discriminate.
  - vm_compute. reflexivity.
  - change (decimal_string MinusSign [4; 2] []) with "-42" in *.
    split; [exact E1|]. rewrite E2. vm_compute. reflexivity.
Defined.

(** ** The two views of an amount agree *)

(** X15.  For an amount below [2^50] hundredths, [Float64] is the number
    that [strconv.ParseFloat] reads from the text [String] prints: both are
    the binary64 value nearest to the amount over 100.  So converting
    through [float64] and converting through the text give the same amount
    back. *)
Theorem X15_Float64_is_printed_value (d : Decimal) :
  - 2 ^ 50 < d < 2 ^ 50 ->
  fst (GoStrconv.ParseFloat (Decimal_String d)) = Decimal_Float64 d
  /\ NewDecial (Decimal_String d) = NewDecialFromFloat64 (Decimal_Float64 d).
Proof.
  intros Hd.
  assert (E : fst (GoStrconv.ParseFloat (Decimal_String d)) = Decimal_Float64 d).
  { destruct (Z.eq_dec d 0) as [->|Hnz]; [vm_compute; reflexivity|].
    destruct (of_int_amount d Hnz Hd) as [Hc Hv].
    rewrite (Decimal_String_amount d Hd).
    rewrite (ParseFloat_cents_string (d <? 0) (Z.abs d) ltac:(lia)).
    unfold Decimal_Float64. cbv zeta.
    destruct (div_hundred_value _ _ _ _ Hv Z.lt_0_1) as (N & D & -> & HD & HN).
    change (2 ^ 50) with 1125899906842624 in Hc.
    apply round_ne_ratio; lia. }
  split; [exact E|]. unfold NewDecial, NewDecialFromFloat64. rewrite E. reflexivity.
Qed.

(** The amount 29: both views are the number just below 0.29. *)
Lemma X15_witness :
  fst (GoStrconv.ParseFloat (Decimal_String 29)) = Decimal_Float64 29
  /\ NewDecial (Decimal_String 29) = NewDecialFromFloat64 (Decimal_Float64 29).
Proof.
  apply (X15_Float64_is_printed_value 29). vm_compute. split; reflexivity.
Defined.

(** ** Dates *)

(** X16.  [time.Parse] with the layout "20060102" accepts exactly the texts
    made of the eight digits of a valid calendar date (year 0 to 9999, month
    1 to 12, day within the month, leap years counted), and the date it
    returns is the one written: reading is the inverse of writing the
    digits. *)
Theorem X16_date_texts_accepted (s : string) (t : Time) :
  GoTime.Parse_20060102 s = Some t <->
  valid_date (year t) (month t) (day t)
  /\ s = date_string (year t) (month t) (day t).
Proof.
  split.
  - apply Parse_20060102_inv.
  - intros [Hv ->]. rewrite (Parse_date_string _ _ _ Hv). destruct t; reflexivity.
Qed.

(** X17.  A posted date that was accepted is printed by
    [OfxTransaction.String] with the same digits: the layout "2006/01/02"
    gives the four digits of the year, the two of the month and the two of
    the day of the text that was read, with slashes between them; the verb
    [%s] on the same time gives them with dashes, followed by midnight
    UTC. *)
Theorem X17_date_printed_as_read (s : string) (t : Time) :
  GoTime.Parse_20060102 s = Some t ->
  GoTimeFormat.Format_2006_01_02 t
  = (String.substring 0 4 s ++ "/" ++ String.substring 4 2 s ++ "/"
     ++ String.substring 6 2 s)%string
  /\ GoTimeFormat.Time_String t
     = (String.substring 0 4 s ++ "-" ++ String.substring 4 2 s ++ "-"
        ++ String.substring 6 2 s ++ " 00:00:00 +0000 UTC")%string.
Proof.
  intros H. apply Parse_20060102_inv in H as [Hv ->].
  destruct t as [y m d]. cbn [year month day] in *.
  destruct (Format_valid_date y m d Hv) as [-> ->].
  split; reflexivity.
Qed.

(** The text "20230131" is printed as "2023/01/31". *)
Lemma X17_witness :
  GoTimeFormat.Format_2006_01_02 {| year := 2023; month := 1; day := 31 |}
  = (String.substring 0 4 "20230131" ++ "/" ++ String.substring 4 2 "20230131"
     ++ "/" ++ String.substring 6 2 "20230131")%string
  /\ GoTimeFormat.Time_String {| year := 2023; month := 1; day := 31 |}
     = (String.substring 0 4 "20230131" ++ "-" ++ String.substring 4 2 "20230131"
        ++ "-" ++ String.substring 6 2 "20230131" ++ " 00:00:00 +0000 UTC")%string.
Proof.
  apply (X17_date_printed_as_read "20230131"). reflexivity.
Defined.

(** ** The line of a transaction *)

(** X18.  [OfxTransaction.String] prints one line with fixed columns when
    the id and the type are ASCII texts of at most 15 and 10 bytes and the
    posted date is a valid date: the id fills bytes 6 to 20 and the type
    bytes 27 to 36, each padded with spaces on the right, and the posted
    date (under the label "User:") fills bytes 43 to 52.  The user date is
    not printed. *)
Theorem X18_transaction_line_columns (t : OfxTransaction) :
  ascii_only (FitID t) = true -> (String.length (FitID t) <= 15)%nat ->
  ascii_only (Type_ t) = true -> (String.length (Type_ t) <= 10)%nat ->
  valid_date (year (PostedDateTime t)) (month (PostedDateTime t))
    (day (PostedDateTime t)) ->
  String.substring 0 6 (OfxTransaction_String t) = "FitID:"
  /\ String.substring 6 15 (OfxTransaction_String t)
     = (FitID t ++ GoFmt.spaces (15 - String.length (FitID t)))%string
  /\ String.substring 21 6 (OfxTransaction_String t) = " Type:"
  /\ String.substring 27 10 (OfxTransaction_String t)
     = (Type_ t ++ GoFmt.spaces (10 - String.length (Type_ t)))%string
  /\ String.substring 37 6 (OfxTransaction_String t) = " User:"
  /\ String.substring 43 10 (OfxTransaction_String t)
     = GoTimeFormat.Format_2006_01_02 (PostedDateTime t)
  /\ (forall u, OfxTransaction_String
                  {| FitID := FitID t; Type_ := Type_ t;
                     PostedDateTime := PostedDateTime t; UserDateTime := u;
                     Amount := Amount t; Memo := Memo t |}
                = OfxTransaction_String t).
Proof.
  intros Hfa Hfl Hta Htl Hv.
  destruct (pad_right_ascii 15 (FitID t) Hfa Hfl) as [EF LF].
  destruct (pad_right_ascii 10 (Type_ t) Hta Htl) as [ET LT].
  assert (LD : String.length (GoTimeFormat.Format_2006_01_02 (PostedDateTime t))
               = 10%nat).
  { destruct (PostedDateTime t) as [y m d]. apply Format_length. exact Hv. }
  unfold OfxTransaction_String. rewrite <- EF, <- ET.
  set (F := GoFmt.pad_right 15 (FitID t)) in *.
  set (T := GoFmt.pad_right 10 (Type_ t)) in *.
  set (D := GoTimeFormat.Format_2006_01_02 (PostedDateTime t)) in *.
  set (rest := (" Amount: $" ++ _)%string).
  split; [exact (substring_prefix "FitID:" _)|].
  split.
  { apply (substring_column "FitID:" F); [reflexivity | symmetry; exact LF]. }
  split.
  { rewrite <- (string_app_assoc "FitID:" F).
    apply (substring_column ("FitID:" ++ F) " Type:"); [|reflexivity].
    rewrite string_app_length, LF. reflexivity. }
  split.
  { rewrite <- (string_app_assoc "FitID:" F), <- (string_app_assoc _ " Type:").
    apply (substring_column (("FitID:" ++ F) ++ " Type:") T); [|symmetry; exact LT].
    rewrite !string_app_length, LF. reflexivity. }
  split.
  { rewrite <- (string_app_assoc "FitID:" F), <- (string_app_assoc _ " Type:"),
      <- (string_app_assoc _ T).
    apply (substring_column ((("FitID:" ++ F) ++ " Type:") ++ T) " User:");
      [|reflexivity].
    rewrite !string_app_length, LF, LT. reflexivity. }
  split.
  { rewrite <- (string_app_assoc "FitID:" F), <- (string_app_assoc _ " Type:"),
      <- (string_app_assoc _ T), <- (string_app_assoc _ " User:").
    apply (substring_column (((("FitID:" ++ F) ++ " Type:") ++ T) ++ " User:") D);
      [|symmetry; exact LD].
    rewrite !string_app_length, LF, LT. reflexivity. }
  intros u. reflexivity.
Qed.

(** A transaction with the id "123" and the posted date January 31, 2023. *)
Lemma X18_witness :
  String.substring 43 10
    (OfxTransaction_String
       (set_PostedDateTime {| year := 2023; month := 1; day := 31 |}
          (set_FitID "123" new_transaction)))
  = GoTimeFormat.Format_2006_01_02 {| year := 2023; month := 1; day := 31 |}.
Proof.
  apply (X18_transaction_line_columns
           (set_PostedDateTime {| year := 2023; month := 1; day := 31 |}
              (set_FitID "123" new_transaction))).
  - reflexivity.
  - apply Nat.leb_le. reflexivity.
  - reflexivity.
  - apply Nat.leb_le. reflexivity.
  - vm_compute. intuition discriminate.
Defined.

(** ** The text of a parsed statement *)

(** X19.  [Ofx.String] on a record returned by [Parse]: the first line
    always shows the zero time as generation time and an empty language,
    the second line the two balances and the zero time as start and end of
    the period (the end without a colon), since [Parse] never assigns these
    fields; then come the lines of the transactions in the order of the
    list, a nil entry printed as "<nil>" without a line feed.  The currency
    is not printed. *)
Theorem X19_text_of_parsed_statement (toks : list Token) (o : Ofx) :
  Parse toks = Ok o ->
  Ofx_String o
  = ("Generated:0001-01-01 00:00:00 +0000 UTC Lang: AccountBankNumber:"
     ++ AccountBankNumber o ++ " AccountNumber:" ++ AccountNumber o
     ++ " AccountType:" ++ AccountType o ++ GoFmt.newline
     ++ "Ledger: $" ++ Decimal_String (LedgerBalance o)
     ++ " Av: $" ++ Decimal_String (AvailiableBalance o)
     ++ " Start:0001-01-01 00:00:00 +0000 UTC End0001-01-01 00:00:00 +0000 UTC"
     ++ GoFmt.newline ++ transaction_lines (Transactions o))%string.
Proof.
  unfold Parse. destruct (run init toks) as [st| |] eqn:E; try discriminate.
  intros H; inversion H; subst; clear H.
  apply run_unassigned in E. unfold unassigned in E. cbn [ofx init new_ofx] in E.
  injection E as Hg Hl Hs He. cbn in Hg, Hl, Hs, He.
  unfold Ofx_String. cbv zeta. rewrite fold_lines, Hg, Hl, Hs, He.
  change (GoTimeFormat.Time_String GoTime.zero) with "0001-01-01 00:00:00 +0000 UTC".
  repeat first [rewrite string_app_assoc | progress cbn [String.append]].
  reflexivity.
Qed.

(** A statement with an account number, a nested transaction start and so
    a nil entry in its list. *)
Lemma X19_witness :
  match Parse [StartElement "ACCTID"; CharData "42"; StartElement "STMTTRN";
               StartElement "STMTTRN"; EndElement "STMTTRN"; EndElement "STMTTRN"]
  with
  | Ok o =>
      Ofx_String o
      = ("Generated:0001-01-01 00:00:00 +0000 UTC Lang: AccountBankNumber:"
         ++ "" ++ " AccountNumber:" ++ "42" ++ " AccountType:" ++ ""
         ++ GoFmt.newline ++ "Ledger: $" ++ "0.00" ++ " Av: $" ++ "0.00"
         ++ " Start:0001-01-01 00:00:00 +0000 UTC End0001-01-01 00:00:00 +0000 UTC"
         ++ GoFmt.newline
         ++ OfxTransaction_String new_transaction ++ "<nil>")%string
  | _ => False
  end.
Proof.
  destruct (Parse _) as [o| |] eqn:E.
  - rewrite (X19_text_of_parsed_statement _ o E).
    vm_compute in E. inversion E. vm_compute. reflexivity.
  - vm_compute in E. discriminate E.
  - vm_compute in E. discriminate E.
Defined.

(** ** The exit status of [main] *)

(** X20.  Whatever [json.Marshal] does: [main] prints the marshalled record
    and a line feed, and goes on to return, exactly when [Parse] returns a
    record and [json.Marshal] no error; it exits with status 1 when [Parse]
    returns an error and also when [json.Marshal] does, since [log.Fatalf]
    ends the process; a panic of [Parse] is not recovered.  The calls
    [os.Exit(1)] and [os.Exit(2)] after [log.Fatalf] are never reached, and
    no run of [main] exits with status 2 by itself. *)
Theorem X20_exit_status_of_main
    (json_error : Type) (json_Marshal : option Ofx -> string * option json_error)
    (toks : list Token) :
  main json_error json_Marshal toks EmptyString
  = match Parse toks with
    | Crash p => Panicked p EmptyString
    | Err _ => Exited 1 EmptyString
    | Ok o =>
        match snd (json_Marshal (Some o)) with
        | Some _ => Exited 1 EmptyString
        | None => Running tt (fst (json_Marshal (Some o)) ++ GoFmt.newline)%string
        end
    end
  /\ (forall out, main json_error json_Marshal toks EmptyString <> Exited 2 out).
Proof.
  assert (E : main json_error json_Marshal toks EmptyString
              = match Parse toks with
                | Crash p => Panicked p EmptyString
                | Err _ => Exited 1 EmptyString
                | Ok o =>
                    match snd (json_Marshal (Some o)) with
                    | Some _ => Exited 1 EmptyString
                    | None =>
                        Running tt (fst (json_Marshal (Some o)) ++ GoFmt.newline)%string
                    end
                end).
  { unfold main, bind, call_Parse, ret, log_Fatalf, os_Exit, fmt_Println.
    destruct (Parse toks) as [o|e|p]; cbn [fst snd]; try reflexivity.
    destruct (snd (json_Marshal (Some o))); reflexivity. }
  split; [exact E|]. intros out. rewrite E.
  destruct (Parse toks) as [o|e|p]; try discriminate.
  destruct (snd (json_Marshal (Some o))); discriminate.
Qed.

(** ** Stored text is trimmed *)

(** X21.  The text [Parse] stores is [strings.TrimSpace] of the character
    data (line 175): a piece of the data that neither starts nor ends with
    one of the six ASCII white-space bytes, and so is never longer than the
    data. *)
Theorem X21_stored_text_is_trimmed (data : string) :
  (forall c rest, GoStrings.TrimSpace data = String c rest ->
                  GoStrings.asciiSpace c = false)
  /\ (forall front c, GoStrings.TrimSpace data = (front ++ String c "")%string ->
                      GoStrings.asciiSpace c = false)
  /\ (exists a b, data = (a ++ GoStrings.TrimSpace data ++ b)%string)
  /\ (String.length (GoStrings.TrimSpace data) <= String.length data)%nat
  /\ (forall st,
        next st = acctID ->
        step st (CharData data)
        = Continue {| ofx := set_AccountNumber (GoStrings.TrimSpace data) (ofx st);
                      stack := stack st; stackPos := stackPos st; next := none;
                      trans := trans st |}).
Proof.
  destruct (TrimSpace_ends data) as (H1 & H2 & H3).
  split; [exact H1|]. split; [exact H2|]. split; [exact H3|].
  split; [apply TrimSpace_length|].
  intros st Hn. cbn [step]. unfold on_chardata. rewrite Hn. reflexivity.
Qed.

(** ** The description and the memo *)



(** ** White space after the start tag of a field *)

(** X23.  Character data of white space only is character data: when it
    directly follows the start tag of a field of the statement, the field is
    set from the empty text (the empty string, or the amount zero) and the
    marker is cleared, so the text that comes later is not stored.  A line
    break between the tag of a balance and the tag of its amount makes the
    balance zero. *)
Theorem X23_white_space_is_stored
    (tag : string) (key : nextKey) (get : Ofx -> value) (conv : string -> value)
    (pre post : list Token) (ws : string) (o : Ofx) :
  In (tag, key, get, conv) statement_fields ->
  all_space ws = true ->
  forallb (fun tok => negb (is_start_of tag tok)) post = true ->
  Parse (pre ++ StartElement tag :: CharData ws :: post) = Ok o ->
  get o = conv EmptyString
  /\ (conv EmptyString = Text EmptyString \/ conv EmptyString = Money 0).
Proof.
  intros Hin Hws Hpost Hparse. split.
  - revert Hparse. unfold Parse. rewrite run_app.
    destruct (run init pre) as [st| |] eqn:Epre; try discriminate.
    pose proof (run_wf pre init st init_wf Epre) as Hwf.
    cbn [run].
    destruct (step st (StartElement tag)) as [st1| |] eqn:E1; try discriminate.
    pose proof (step_wf _ _ _ Hwf E1) as Hwf1.
    assert (N1 : next st1 = key).
    { cbn [step] in E1. unfold on_start in E1.
      destruct (stackPos st <? length (stack st))%nat; [|discriminate].
      rewrite (proj1 (statement_field_dispatch tag key get conv Hin)) in E1.
      inversion E1; reflexivity. }
    destruct (proj1 (statement_field_store tag key get conv Hin st1 ws) N1)
      as (st2 & E2 & G2 & N2).
    rewrite E2. pose proof (step_wf _ _ _ Hwf1 E2) as Hwf2.
    destruct (run st2 post) as [st3| |] eqn:E3; try discriminate.
    intros H; inversion H; subst o; clear H.
    assert (Hk : next st2 <> key).
    { rewrite N2. clear -Hin. intros E. subst key. simpl in Hin.
      repeat destruct Hin as [Hin|Hin]; try contradiction; inversion Hin. }
    destruct (run_field_kept tag key get conv Hin post st2 st3 Hwf2 Hpost Hk E3)
      as [_ G3].
    rewrite G3, G2, (TrimSpace_all_space ws Hws). reflexivity.
  - clear -Hin. simpl in Hin.
    repeat destruct Hin as [Hin|Hin]; try contradiction;
      inversion Hin; subst; clear Hin;
      first [left; reflexivity | right; vm_compute; reflexivity].
Qed.

(** A ledger balance written on several lines: the amount 1234.56 of its
    [BALAMT] is not stored, the balance is zero. *)
Lemma X23_witness :
  Money (LedgerBalance new_ofx) = Money (NewDecial EmptyString).
Proof.
  apply (X23_white_space_is_stored "LEDGERBAL" legerBal
           (fun o => Money (LedgerBalance o)) (fun res => Money (NewDecial res))
           [] [StartElement "BALAMT"; CharData "1234.56"; EndElement "LEDGERBAL"]
           (String (chr 10) "  ") new_ofx).
  - do 4 right. left. reflexivity.
  - reflexivity.
  - reflexivity.
  - reflexivity.
Defined.
